(** * Vehicle Damage AI API (ai-backend/main.py): model and verification

    The service exposes [POST /analyze]: two uploaded images are written to
    temporary files, a YOLO detector and an EfficientNet severity classifier
    are run on them, and the detections are returned as damage records.

    The two neural networks, Pillow, NumPy and the operating system are
    outside the repository.  They appear here as the fields of a [Backend]
    (library calls, each of which may raise) and of an [Env] (what the
    operating system and the client do during one request).  Everything that
    main.py itself computes is a function below, named as in the source. *)

From Stdlib Require Import ZArith QArith Qpower String Ascii List Lia Lqa Bool.
From Stdlib Require Import SpecFloat.
From stdpp Require Import base option list gmap strings pretty.

Local Open Scope Z_scope.
Local Open Scope string_scope.

(** ** Python values and exceptions *)

(** Subclasses of [Exception].  [PyErr cls msg] is an exception of the
    named class raised by the interpreter or by a library; [HTTPException]
    is FastAPI's, which main.py raises itself. *)
Inductive exn : Type :=
| PyErr (cls msg : string)
| HTTPException (status_code : Z) (detail : string).

Inductive result (A : Type) : Type :=
| Ok (a : A)
| Raise (e : exn).
Arguments Ok {A} a.
Arguments Raise {A} e.

Definition rbind {A B} (m : result A) (k : A -> result B) : result B :=
  match m with
  | Ok a => k a
  | Raise e => Raise e
  end.

Declare Scope py_scope.
Delimit Scope py_scope with py.
Notation "'let!' x ':=' m 'in' k" := (rbind m (fun x => k))
  (at level 10, x pattern, m at level 100, k at level 200) : py_scope.
Local Open Scope py_scope.

Definition ValueError := PyErr "ValueError".
Definition IndexError := PyErr "IndexError".
Definition FileNotFoundError := PyErr "FileNotFoundError".

(** *** [str] methods used by main.py (ASCII strings)

    Characters are bytes.  On ASCII strings, the code points 0..127,
    [strip], [title] and [lower] below are Python's: that is the domain of
    this model, and it holds the fallback names "class_<id>".  Beyond
    ASCII Python follows the Unicode database (other white space, other
    cased letters, case mappings that change the length), which is not
    modelled: the bytes above 127 are taken to be neither cased nor white
    space.  A theorem that says what [strip] or [title] do to a name of
    the detector's lookup therefore assumes that the name is ASCII
    ([is_ascii], [ascii_name] below). *)

Definition in_range (lo hi : nat) (c : ascii) : bool :=
  let n := nat_of_ascii c in (lo <=? n)%nat && (n <=? hi)%nat.

(** [str.isspace] on one character: TAB..CR, FS..US and SPACE. *)
Definition py_isspace (c : ascii) : bool :=
  in_range 9 13 c || in_range 28 32 c.

Definition is_upper (c : ascii) : bool := in_range 65 90 c.
Definition is_lower (c : ascii) : bool := in_range 97 122 c.

(** [_PyUnicode_IsCased]. *)
Definition is_cased (c : ascii) : bool := is_upper c || is_lower c.

Definition to_lower (c : ascii) : ascii :=
  if is_upper c then ascii_of_nat (nat_of_ascii c + 32) else c.

(** [_PyUnicode_ToTitlecase]; on ASCII it is the upper-case mapping. *)
Definition to_title (c : ascii) : ascii :=
  if is_lower c then ascii_of_nat (nat_of_ascii c - 32) else c.

Fixpoint lstrip (s : string) : string :=
  match s with
  | EmptyString => EmptyString
  | String c s' => if py_isspace c then lstrip s' else s
  end.

Fixpoint rstrip (s : string) : string :=
  match s with
  | EmptyString => EmptyString
  | String c s' =>
      match rstrip s' with
      | EmptyString => if py_isspace c then EmptyString else String c EmptyString
      | r => String c r
      end
  end.

(** [str.strip()] with no argument. *)
Definition strip (s : string) : string := rstrip (lstrip s).

(** [str.title()]: unicodeobject.c's [do_title] keeps one flag, whether
    the previous character was cased. *)
Fixpoint title_go (previous_is_cased : bool) (s : string) : string :=
  match s with
  | EmptyString => EmptyString
  | String c s' =>
      String (if previous_is_cased then to_lower c else to_title c)
             (title_go (is_cased c) s')
  end.

Definition title (s : string) : string := title_go false s.

(** [str(n)] for an [int], as an f-string renders it. *)
Definition str_of_int (n : Z) : string := pretty n.

(** ** Floating point

    NumPy and Python floats are IEEE 754 binary floats; their operations
    are the Standard Library's executable specification [SpecFloat], taken
    at the precision and exponent range of the format. *)

Record fmt : Type := Fmt { fprec : Z; femax : Z }.

Definition binary32 : fmt := Fmt 24 128.
Definition binary64 : fmt := Fmt 53 1024.

(** A Python [int] converted to a float of format [F]. *)
Definition float_of_int (F : fmt) (n : Z) : spec_float :=
  binary_normalize (fprec F) (femax F) n 0 false.

(** [a / n] for a NumPy float scalar [a] and a Python [int] [n], evaluated
    in format [F]; dividing by zero gives an infinity or a NaN, not an
    exception. *)
Definition fdiv_int (F : fmt) (a : spec_float) (n : Z) : spec_float :=
  SFdiv (fprec F) (femax F) a (float_of_int F n).

(** [a - b] for two [np.float32] scalars. *)
Definition fsub32 (a b : spec_float) : spec_float := SFsub 24 128 a b.

(** The real number a float denotes, where it denotes one. *)
Definition SF2Q (x : spec_float) : option Q :=
  match x with
  | S754_zero _ => Some 0%Q
  | S754_finite s m e =>
      Some ((if s then -1 else 1) * inject_Z (Z.pos m) * (2 ^ e))%Q
  | S754_infinity _ | S754_nan => None
  end.

(** ** Schemas *)

Record BBox : Type := mkBBox {
  bbox_x : spec_float;
  bbox_y : spec_float;
  bbox_width : spec_float;
  bbox_height : spec_float
}.

(** [Literal["before", "after"]]. *)
Inductive ImageType : Type := before | after.

Definition image_type_str (t : ImageType) : string :=
  match t with
  | before => "before"
  | after => "after"
  end.

Record Damage : Type := mkDamage {
  id : string;
  imageType : ImageType;
  area : string;
  type : string;
  severity : string;
  bbox : BBox
}.

Record AnalyzeResponse : Type := mkAnalyzeResponse {
  inspectionId : string;
  damages : list Damage;
  message : option string
}.

(** ** Configuration *)

Definition IMG_SIZE : Z * Z := (224, 224).
Definition SEVERITY_CLASSES : list string := ["minor"; "moderate"; "severe"].

(** ** What the models and libraries provide *)

(** One entry of [results.boxes]: [box.xyxy[0]] as four [np.float32]
    scalars and [int(box.cls[0])]. *)
Record Box : Type := mkBox {
  xyxy : spec_float * spec_float * spec_float * spec_float;
  cls : Z
}.

(** [yolo_model(image_path)[0]]. *)
Record Results : Type := mkResults {
  orig_shape : Z * Z;
  boxes : list Box;
  names : gmap Z string
}.

Definition Bytes : Type := list Byte.byte.

Class Backend : Type := {
  Image : Type;
  Tensor : Type;
  (** [Image.open(path).convert("RGB")] on the file's bytes *)
  pil_open_rgb : Bytes -> result Image;
  (** [Image.crop(box)] *)
  pil_crop : Image -> spec_float * spec_float * spec_float * spec_float -> result Image;
  (** [Image.resize(size)] *)
  pil_resize : Image -> Z * Z -> result Image;
  (** [np.array(img, dtype=np.float32)] *)
  np_array : Image -> result Tensor;
  (** [np.expand_dims(arr, axis=0)] *)
  np_expand_dims : Tensor -> result Tensor;
  (** EfficientNet's [preprocess_input] *)
  eff_preprocess : Tensor -> result Tensor;
  (** the detector on the file's bytes *)
  yolo_model : Bytes -> result Results;
  (** [severity_model.predict(patch, verbose=0)[0]] *)
  severity_model_predict : Tensor -> result (list spec_float);
  (** the format in which the installed NumPy divides an [np.float32]
      scalar by a Python [int]: [binary32] under NEP 50 (NumPy 2),
      [binary64] under the older value-based promotion *)
  scalar_div_fmt : fmt
}.

(** The files a request can see: path to content. *)
Abbreviation FileSystem := (gmap string Bytes).

(** ** Helpers *)

Section Helpers.
Context {B : Backend}.

(** [open(path, "rb")] as the libraries do it. *)
Definition read_file (fs : FileSystem) (path : string) : result Bytes :=
  match fs !! path with
  | Some data => Ok data
  | None => Raise (FileNotFoundError path)
  end.

Definition load_image (fs : FileSystem) (path : string) : result Image :=
  let! data := read_file fs path in
  pil_open_rgb data.

Definition crop_patch (pil_img : Image)
    (box_xyxy : spec_float * spec_float * spec_float * spec_float) : result Tensor :=
  let! crop := pil_crop pil_img box_xyxy in
  let! crop := pil_resize crop IMG_SIZE in
  let! arr := np_array crop in
  let! arr := np_expand_dims arr in
  let! arr := eff_preprocess arr in
  Ok arr.

Definition is_nan (x : spec_float) : bool :=
  match x with
  | S754_nan => true
  | _ => false
  end.

(** NumPy's [FLOAT_argmax]: [mp] is the running maximum, [max_ind] its
    index, [i] the index of the head of [ip].  An element replaces the
    maximum when it is not [<=] the maximum (so a NaN does), and a NaN
    ends the scan. *)
Fixpoint argmax_go (mp : spec_float) (max_ind i : nat) (ip : list spec_float) : nat :=
  match ip with
  | [] => max_ind
  | x :: ip' =>
      if negb (SFleb x mp)
      then if is_nan x then i else argmax_go x i (S i) ip'
      else argmax_go mp max_ind (S i) ip'
  end.

Definition np_argmax (a : list spec_float) : result nat :=
  match a with
  | [] => Raise (ValueError "attempt to get argmax of an empty sequence")
  | x :: ip => Ok (if is_nan x then 0%nat else argmax_go x 0 1 ip)
  end.

(** [lst[idx]] for a non-negative index. *)
Definition py_index {A} (lst : list A) (idx : nat) : result A :=
  match lst !! idx with
  | Some a => Ok a
  | None => Raise (IndexError "list index out of range")
  end.

Definition predict_severity (patch_tensor : Tensor) : result (string * spec_float) :=
  let! preds := severity_model_predict patch_tensor in
  let! idx := np_argmax preds in
  let! label := py_index SEVERITY_CLASSES idx in
  let! conf := py_index preds idx in
  Ok (label, conf).

(** [results.names.get(cls_id, f"class_{cls_id}")]. *)
Definition raw_type_name (results : Results) (cls_id : Z) : string :=
  default ("class_" +:+ str_of_int cls_id) (names results !! cls_id).

(** The dict [bbox_norm] as the [BBox] built from it; [float(...)] of a
    NumPy scalar keeps its value. *)
Definition bbox_norm (F : fmt) (h w : Z)
    (box : spec_float * spec_float * spec_float * spec_float) : BBox :=
  let '(x1, y1, x2, y2) := box in
  {| bbox_x := fdiv_int F x1 w;
     bbox_y := fdiv_int F y1 h;
     bbox_width := fdiv_int F (fsub32 x2 x1) w;
     bbox_height := fdiv_int F (fsub32 y2 y1) h |}.

(** The body of the loop of [run_yolo_on_image], for the box at index [i]. *)
Definition damage_of_box (pil_img : Image) (results : Results)
    (image_type : ImageType) (i : nat) (box : Box) : result Damage :=
  let '(x1, y1, x2, y2) := xyxy box in
  let! patch_tensor := crop_patch pil_img (x1, y1, x2, y2) in
  let! (severity_label, severity_conf) := predict_severity patch_tensor in
  let cls_id := cls box in
  let damage_type_label := title (strip (raw_type_name results cls_id)) in
  let area_label := "Unknown area" in
  let '(h, w) := orig_shape results in
  Ok {| id := image_type_str image_type +:+ "-" +:+ str_of_int (Z.of_nat i);
        imageType := image_type;
        area := area_label;
        type := damage_type_label;
        severity := severity_label;
        bbox := bbox_norm scalar_div_fmt h w (x1, y1, x2, y2) |}.

(** [for i, box in enumerate(results.boxes)]: [i] is the index of the head
    of [bs], [damages] the list appended to so far. *)
Fixpoint damages_loop (pil_img : Image) (results : Results)
    (image_type : ImageType) (i : nat) (bs : list Box)
    (damages : list Damage) : result (list Damage) :=
  match bs with
  | [] => Ok damages
  | box :: bs' =>
      let! d := damage_of_box pil_img results image_type i box in
      damages_loop pil_img results image_type (S i) bs' (damages ++ [d])%list
  end.

Definition run_yolo_on_image (fs : FileSystem) (image_path : string)
    (image_type : ImageType) : result (list Damage) :=
  let! pil_img := load_image fs image_path in
  let! data := read_file fs image_path in
  let! results := yolo_model data in
  damages_loop pil_img results image_type 0 (boxes results) [].

Definition analyze_pair (fs : FileSystem) (before_path after_path : string)
    : result AnalyzeResponse :=
  let! before_damages := run_yolo_on_image fs before_path before in
  let! after_damages := run_yolo_on_image fs after_path after in
  let all_damages := (before_damages ++ after_damages)%list in
  let message :=
    if (List.length before_damages =? 0)%nat && (List.length after_damages =? 0)%nat
    then "No damage detected in either image."
    else if (List.length before_damages =? 0)%nat && (0 <? List.length after_damages)%nat
    then "No damage detected in BEFORE image."
    else if (0 <? List.length before_damages)%nat && (List.length after_damages =? 0)%nat
    then "No damage detected in AFTER image."
    else "Damage detected successfully." in
  Ok {| inspectionId := "AUTO-DEMO-001";
        damages := all_damages;
        message := Some message |}.

End Helpers.

(** ** The endpoint *)

(** *** [os.path] *)

(** [s.rfind(c)], -1 when [c] does not occur; [i] is the index of the
    head of [s] and [last] the answer so far. *)
Fixpoint rfind_go (c : ascii) (s : string) (i last : Z) : Z :=
  match s with
  | EmptyString => last
  | String a s' => rfind_go c s' (i + 1) (if Ascii.eqb a c then i else last)
  end.

Definition rfind (c : ascii) (s : string) : Z := rfind_go c s 0 (-1).

Fixpoint all_dots (s : string) : bool :=
  match s with
  | EmptyString => true
  | String a s' => Ascii.eqb a "." && all_dots s'
  end.

(** [p[i:j]] for [0 <= i <= j]. *)
Definition slice (p : string) (i j : Z) : string :=
  substring (Z.to_nat i) (Z.to_nat (j - i)) p.

(** [posixpath.splitext]: the extension starts at the last dot of the
    last path component, unless only dots precede it there. *)
Definition splitext (p : string) : string * string :=
  let sepIndex := rfind "/" p in
  let dotIndex := rfind "." p in
  let n := Z.of_nat (String.length p) in
  if (sepIndex <? dotIndex)%Z && negb (all_dots (slice p (sepIndex + 1) dotIndex))
  then (slice p 0 dotIndex, slice p dotIndex n)
  else (p, "").

(** [posixpath.join(a, b)]. *)
Definition os_path_join (a b : string) : string :=
  if String.prefix "/" b then b
  else if String.eqb a "" || Z.eqb (rfind "/" a) (Z.of_nat (String.length a) - 1)
  then a +:+ b
  else a +:+ "/" +:+ b.

(** *** One request: what the client sends and what the system does *)

(** A FastAPI [UploadFile]: its [filename] and what [await read()] gives. *)
Record UploadFile : Type := mkUploadFile {
  filename : option string;
  read : result Bytes
}.

(** The operating system and the random source during one request: an
    operation fails with the exception given for it, if any. *)
Record Env : Type := mkEnv {
  makedirs_error : option exn;
  uuid4_hex : string * string;
  open_error : string -> option exn;
  write_error : string -> option exn;
  remove_error : string -> option exn
}.

Inductive Event : Type :=
| EvMakedirs (path : string)
| EvOpen (path : string)
| EvWrite (path : string)
| EvExists (path : string)
| EvRemove (path : string)
| EvPrint (e : exn).

(** The state of a call of [analyze_endpoint]: the file system, the system
    calls and prints made so far (latest last), and the two local names
    that the [finally] clause looks up with [locals().get]. *)
Record State : Type := mkState {
  fs : FileSystem;
  trace : list Event;
  before_path : option string;
  after_path : option string
}.

Definition M (A : Type) : Type := State -> result A * State.

Definition ret {A} (a : A) : M A := fun st => (Ok a, st).
Definition raise {A} (e : exn) : M A := fun st => (Raise e, st).
Definition bind {A C} (m : M A) (k : A -> M C) : M C :=
  fun st =>
    match m st with
    | (Ok a, st') => k a st'
    | (Raise e, st') => (Raise e, st')
    end.
Definition lift {A} (r : result A) : M A := fun st => (r, st).
Definition get_state : M State := fun st => (Ok st, st).
Definition log (ev : Event) : M unit :=
  fun st => (Ok tt, mkState (fs st) (trace st ++ [ev])%list (before_path st) (after_path st)).
Definition set_fs (f : FileSystem -> FileSystem) : M unit :=
  fun st => (Ok tt, mkState (f (fs st)) (trace st) (before_path st) (after_path st)).
Definition set_before_path (p : string) : M unit :=
  fun st => (Ok tt, mkState (fs st) (trace st) (Some p) (after_path st)).
Definition set_after_path (p : string) : M unit :=
  fun st => (Ok tt, mkState (fs st) (trace st) (before_path st) (Some p)).

Notation "'do!' x ':=' m 'in' k" := (bind m (fun x => k))
  (at level 10, x pattern, m at level 100, k at level 200) : py_scope.

(** [try: body except Exception as e: handler e]. *)
Definition try_except {A} (body : M A) (handler : exn -> M A) : M A :=
  fun st =>
    match body st with
    | (Ok a, st') => (Ok a, st')
    | (Raise e, st') => handler e st'
    end.

(** [try: body finally: final]: [final] runs in both cases, and the
    outcome is that of [body] unless [final] raises. *)
Definition try_finally {A} (body : M A) (final : M unit) : M A :=
  fun st =>
    let '(r, st') := body st in
    match final st' with
    | (Ok _, st'') => (r, st'')
    | (Raise e, st'') => (Raise e, st'')
    end.

Definition fail_if (err : option exn) : M unit :=
  match err with
  | Some e => raise e
  | None => ret tt
  end.

Section Endpoint.
Context {B : Backend}.
Variable env : Env.

(** [os.makedirs(path, exist_ok=True)]. *)
Definition os_makedirs (path : string) : M unit :=
  do! _ := log (EvMakedirs path) in
  fail_if (makedirs_error env).

(** [open(path, "wb")]: the file exists and is empty afterwards. *)
Definition open_wb (path : string) : M unit :=
  do! _ := log (EvOpen path) in
  do! _ := fail_if (open_error env path) in
  set_fs (fun f => <[path := []]> f).

Definition file_write (path : string) (data : Bytes) : M unit :=
  do! _ := log (EvWrite path) in
  do! _ := fail_if (write_error env path) in
  set_fs (fun f => <[path := data]> f).

(** [with open(path, "wb") as f: f.write(await upload.read())]. *)
Definition save_upload (path : string) (upload : UploadFile) : M unit :=
  do! _ := open_wb path in
  do! data := lift (read upload) in
  file_write path data.

Definition os_path_exists (path : string) : M bool :=
  do! _ := log (EvExists path) in
  do! st := get_state in
  ret (bool_decide (is_Some (fs st !! path))).

Definition os_remove (path : string) : M unit :=
  do! _ := log (EvRemove path) in
  do! _ := fail_if (remove_error env path) in
  set_fs (fun f => delete path f).

(** [os.path.splitext(upload.filename or "")[1] or ".jpg"]. *)
Definition suffix_of (upload : UploadFile) : string :=
  let ext := snd (splitext (default "" (filename upload))) in
  if String.eqb ext "" then ".jpg" else ext.

Definition try_body (before after : UploadFile) : M AnalyzeResponse :=
  let tmp_dir := "/tmp" in
  do! _ := os_makedirs tmp_dir in
  let before_suffix := suffix_of before in
  let after_suffix := suffix_of after in
  let bp := os_path_join tmp_dir ("before_" +:+ fst (uuid4_hex env) +:+ before_suffix) in
  do! _ := set_before_path bp in
  let ap := os_path_join tmp_dir ("after_" +:+ snd (uuid4_hex env) +:+ after_suffix) in
  do! _ := set_after_path ap in
  do! _ := save_upload bp before in
  do! _ := save_upload ap after in
  do! st := get_state in
  lift (analyze_pair (fs st) bp ap).

Definition except_handler (e : exn) : M AnalyzeResponse :=
  do! _ := log (EvPrint e) in
  raise (HTTPException 500 "AI analysis failed.").

(** One round of the loop of the [finally] clause. *)
Definition cleanup_path (p : option string) : M unit :=
  match p with
  | None => ret tt
  | Some p =>
      if String.eqb p "" then ret tt
      else
        do! there := os_path_exists p in
        if there
        then try_except (os_remove p) (fun _ => ret tt)
        else ret tt
  end.

Definition finally_clause : M unit :=
  do! st := get_state in
  do! _ := cleanup_path (before_path st) in
  cleanup_path (after_path st).

Definition analyze_endpoint (before after : UploadFile) : M AnalyzeResponse :=
  try_finally
    (try_except (try_body before after) except_handler)
    finally_clause.

End Endpoint.

(** What FastAPI sends for the outcome of the handler. *)
Inductive HttpResponse : Type :=
| Response200 (body : AnalyzeResponse)
| ResponseError (status : Z) (detail : string).

Definition respond (r : result AnalyzeResponse) : HttpResponse :=
  match r with
  | Ok body => Response200 body
  | Raise (HTTPException status detail) => ResponseError status detail
  | Raise (PyErr _ _) => ResponseError 500 "Internal Server Error"
  end.

Definition initial_state (files : FileSystem) : State :=
  mkState files [] None None.

(** The response to one request and the state the request leaves. *)
Definition serve {B : Backend} (env : Env) (files : FileSystem)
    (before after : UploadFile) : HttpResponse * State :=
  let '(r, st) := analyze_endpoint env before after (initial_state files) in
  (respond r, st).

(** ** A test double for the models and libraries

    Used to run the model on concrete requests.  An image is its size
    (width, height) and a tensor likewise.  [crop] and [resize] do what
    Pillow's do with the sizes: [crop] refuses a box whose right side is
    less than its left or whose lower side is less than its upper, rounds
    the corners to integers and returns an image of the size between them,
    which is empty for a box without area; [resize] returns an image of
    the size asked for, also when the image it is given is empty.  The
    detector reports one box per byte of the file, the byte being the
    class index; the classifier answers with fixed scores. *)

Definition f32 (n : Z) : spec_float := float_of_int binary32 n.

Definition demo_box (b : Byte.byte) : Box :=
  let c := Z.of_N (Byte.to_N b) in
  {| xyxy := (f32 c, f32 (2 * c), f32 (100 + c), f32 (200 + 2 * c)); cls := c |}.

Definition demo_names : gmap Z string :=
  {[ 0 := "dent"; 1 := " crushed_panel "; 2 := "BROKEN lamp" ]}.

(** [m * 2^e] as an [np.float32]. *)
Definition f32_scaled (m e : Z) : spec_float := binary_normalize 24 128 m e false.

(** 0.125, 0.625 and 0.25. *)
Definition demo_scores : list spec_float :=
  [f32_scaled 1 (-3); f32_scaled 5 (-3); f32_scaled 1 (-2)].

(** Python's [int(round(x))] for a float: the nearest integer, the even
    one of two that are equally near. *)
Definition py_round (x : spec_float) : result Z :=
  match x with
  | S754_zero _ => Ok 0
  | S754_finite s m e =>
      let n :=
        if (0 <=? e)%Z then Z.pos m * 2 ^ e
        else
          let d := 2 ^ (- e) in
          let q := Z.pos m / d in
          let r := Z.pos m mod d in
          if (2 * r <? d)%Z then q
          else if (d <? 2 * r)%Z then q + 1
          else if Z.even q then q else q + 1 in
      Ok (if s then - n else n)
  | S754_infinity _ =>
      Raise (PyErr "OverflowError" "cannot convert float infinity to integer")
  | S754_nan => Raise (ValueError "cannot convert float NaN to integer")
  end.

(** [Image.crop]: the two checks of [crop], then [_crop]'s rounding. *)
Definition demo_crop (img : Z * Z)
    (box : spec_float * spec_float * spec_float * spec_float) : result (Z * Z) :=
  let '(x1, y1, x2, y2) := box in
  if SFltb x2 x1 then Raise (ValueError "Coordinate 'right' is less than 'left'")
  else if SFltb y2 y1 then Raise (ValueError "Coordinate 'lower' is less than 'upper'")
  else
    let! x0 := py_round x1 in
    let! y0 := py_round y1 in
    let! x1 := py_round x2 in
    let! y1 := py_round y2 in
    Ok (x1 - x0, y1 - y0).

(** [Image.resize]: only the size asked for can be refused. *)
Definition demo_resize (img size : Z * Z) : result (Z * Z) :=
  if (fst size <=? 0)%Z || (snd size <=? 0)%Z
  then Raise (ValueError "height and width must be > 0")
  else Ok size.

Definition demo_open (data : Bytes) : result (Z * Z) :=
  match data with
  | [] => Raise (PyErr "UnidentifiedImageError" "cannot identify image file")
  | _ => Ok (640, 480)
  end.

Definition demo_yolo (data : Bytes) : result Results :=
  Ok {| orig_shape := (480, 640); boxes := map demo_box data; names := demo_names |}.

Definition demo_backend_with (yolo : Bytes -> result Results)
    (scores : list spec_float) (F : fmt) : Backend :=
  {| Image := Z * Z;
     Tensor := Z * Z;
     pil_open_rgb := demo_open;
     pil_crop := demo_crop;
     pil_resize := demo_resize;
     np_array := Ok;
     np_expand_dims := Ok;
     eff_preprocess := Ok;
     yolo_model := yolo;
     severity_model_predict := fun _ => Ok scores;
     scalar_div_fmt := F |}.

Definition demo_backend (F : fmt) : Backend :=
  demo_backend_with demo_yolo demo_scores F.

(** Three scores close to the smallest positive [np.float32]. *)
Definition low_scores : list spec_float :=
  [f32_scaled 1 (-149); f32_scaled 3 (-149); f32_scaled 2 (-149)].

Definition demo_env : Env :=
  {| makedirs_error := None;
     uuid4_hex := ("0a", "0b");
     open_error := fun _ => None;
     write_error := fun _ => None;
     remove_error := fun _ => None |}.

Definition demo_upload (name : string) (data : Bytes) : UploadFile :=
  {| filename := Some name; read := Ok data |}.

(** A box without area (its left and right sides coincide) and a
    detector that reports it for every image. *)
Definition thin_box : Box :=
  {| xyxy := (f32 10, f32 20, f32 10, f32 80); cls := 0 |}.

Definition thin_yolo (data : Bytes) : result Results :=
  Ok {| orig_shape := (480, 640); boxes := [thin_box]; names := demo_names |}.

(** ** Vocabulary of the properties *)

Section Vocabulary.
Context {B : Backend}.

(** The detector's answer for the file at [path]. *)
Definition detect (fs : FileSystem) (path : string) : result Results :=
  let! data := read_file fs path in
  yolo_model data.

(** What a record returned for the box at index [i] looks like. *)
Definition record_of (results : Results) (image_type : ImageType) (i : nat)
    (box : Box) (label : string) : Damage :=
  {| id := image_type_str image_type +:+ "-" +:+ str_of_int (Z.of_nat i);
     imageType := image_type;
     area := "Unknown area";
     type := title (strip (raw_type_name results (cls box)));
     severity := label;
     bbox := bbox_norm scalar_div_fmt (fst (orig_shape results))
               (snd (orig_shape results)) (xyxy box) |}.

(** The decision table for the summary message, by the number of
    detections in the before and in the after image. *)
Definition summary_table (detections_before detections_after : nat) : string :=
  match detections_before, detections_after with
  | O, O => "No damage detected in either image."
  | O, S _ => "No damage detected in BEFORE image."
  | S _, O => "No damage detected in AFTER image."
  | S _, S _ => "Damage detected successfully."
  end.

End Vocabulary.

Definition demo_files : FileSystem :=
  {[ "/in/b.jpg" := [Byte.x01; Byte.x07]; "/in/a.jpg" := [Byte.x02] ]}.

(** *** Words about strings *)

Fixpoint string_forall (P : ascii -> bool) (s : string) : bool :=
  match s with
  | EmptyString => true
  | String c s' => P c && string_forall P s'
  end.

Definition first_char (s : string) : option ascii :=
  match s with
  | EmptyString => None
  | String c _ => Some c
  end.

Fixpoint last_char (s : string) : option ascii :=
  match s with
  | EmptyString => None
  | String c EmptyString => Some c
  | String _ s' => last_char s'
  end.

(** [core] is [s] with the white space around it taken off. *)
Definition stripped_of (s core : string) : Prop :=
  exists l r,
    s = l +:+ core +:+ r /\
    string_forall py_isspace l = true /\
    string_forall py_isspace r = true /\
    (forall c, first_char core = Some c -> py_isspace c = false) /\
    (forall c, last_char core = Some c -> py_isspace c = false).

(** A word is a maximal run of letters: the character at [k] starts one
    when no letter stands before it. *)
Definition starts_word (s : string) (k : nat) : bool :=
  match k with
  | O => true
  | S k' =>
      match String.get k' s with
      | Some p => negb (is_cased p)
      | None => true
      end
  end.

(** [t] is [s] with the first letter of each word in upper case, the
    other letters in lower case and everything else as it was. *)
Definition title_cased (s t : string) : Prop :=
  String.length t = String.length s /\
  forall k c, String.get k s = Some c ->
    String.get k t =
      Some (if is_cased c
            then if starts_word s k then to_title c else to_lower c
            else c).

Definition is_digit_or_dash (c : ascii) : bool :=
  in_range 48 57 c || Ascii.eqb c "-".

(** The strings on which the model of [str] is Python's. *)
Definition is_ascii_char (c : ascii) : bool := in_range 0 127 c.

Definition is_ascii (s : string) : bool := string_forall is_ascii_char s.

(** The name that the lookup has for a class, if it has one, is ASCII. *)
Definition ascii_name (results : Results) (cls_id : Z) : Prop :=
  forall name, names results !! cls_id = Some name -> is_ascii name = true.

(** *** Words about the patch extractor *)

(** One of the library calls that [crop_patch] makes for this image and
    box raises [e] (the calls before it having returned). *)
Inductive library_failure {B : Backend} (pil_img : Image)
    (box : spec_float * spec_float * spec_float * spec_float) (e : exn) : Prop :=
| crop_fails :
    pil_crop pil_img box = Raise e -> library_failure pil_img box e
| resize_fails crop :
    pil_crop pil_img box = Ok crop ->
    pil_resize crop IMG_SIZE = Raise e -> library_failure pil_img box e
| array_fails crop crop' :
    pil_crop pil_img box = Ok crop ->
    pil_resize crop IMG_SIZE = Ok crop' ->
    np_array crop' = Raise e -> library_failure pil_img box e
| expand_dims_fails crop crop' arr :
    pil_crop pil_img box = Ok crop ->
    pil_resize crop IMG_SIZE = Ok crop' ->
    np_array crop' = Ok arr ->
    np_expand_dims arr = Raise e -> library_failure pil_img box e
| preprocess_fails crop crop' arr arr' :
    pil_crop pil_img box = Ok crop ->
    pil_resize crop IMG_SIZE = Ok crop' ->
    np_array crop' = Ok arr ->
    np_expand_dims arr = Ok arr' ->
    eff_preprocess arr' = Raise e -> library_failure pil_img box e.

(** All the library calls that [crop_patch] makes for this image and box
    return, the last of them with [patch]. *)
Definition library_success {B : Backend} (pil_img : Image)
    (box : spec_float * spec_float * spec_float * spec_float) (patch : Tensor) : Prop :=
  exists crop crop' arr arr',
    pil_crop pil_img box = Ok crop /\
    pil_resize crop IMG_SIZE = Ok crop' /\
    np_array crop' = Ok arr /\
    np_expand_dims arr = Ok arr' /\
    eff_preprocess arr' = Ok patch.

(** A box with no area: two opposite sides coincide. *)
Definition zero_area (box : spec_float * spec_float * spec_float * spec_float) : bool :=
  let '(x1, y1, x2, y2) := box in SFeqb x1 x2 || SFeqb y1 y2.

(** *** Words about scores *)

(** The place of a float other than NaN in the order of the floats:
    class (infinities outside, zeros in the middle), then exponent, then
    mantissa, the latter two counted downwards for negative numbers. *)
Definition sf_key (x : spec_float) : Z * Z * Z :=
  match x with
  | S754_infinity true => (-2, 0, 0)
  | S754_finite true m e => (-1, - e, - Z.pos m)
  | S754_zero _ | S754_nan => (0, 0, 0)
  | S754_finite false m e => (1, e, Z.pos m)
  | S754_infinity false => (2, 0, 0)
  end.

(** A score the classifier can give: a zero or a finite number that is
    a valid [np.float32]. *)
Definition finite_float32 (p : spec_float) : bool :=
  valid_binary 24 128 p &&
  match p with
  | S754_zero _ | S754_finite _ _ _ => true
  | S754_infinity _ | S754_nan => false
  end.

Definition lex_le (a b : Z * Z * Z) : Prop :=
  a.1.1 < b.1.1 \/
  (a.1.1 = b.1.1 /\ (a.1.2 < b.1.2 \/ (a.1.2 = b.1.2 /\ a.2 <= b.2))).

(** *** Words about the endpoint *)

(** The same environment with other outcomes for [os.remove]. *)
Definition with_remove_error (env : Env) (re : string -> option exn) : Env :=
  mkEnv (makedirs_error env) (uuid4_hex env) (open_error env) (write_error env) re.

(** The two temporary paths of a request. *)
Definition tmp_before (env : Env) (before : UploadFile) : string :=
  "/tmp/before_" +:+ fst (uuid4_hex env) +:+ suffix_of before.
Definition tmp_after (env : Env) (after : UploadFile) : string :=
  "/tmp/after_" +:+ snd (uuid4_hex env) +:+ suffix_of after.

(** A request during which the second upload cannot be written and the
    first temporary file cannot be removed. *)
Definition failing_env : Env :=
  {| makedirs_error := None;
     uuid4_hex := ("0a", "0b");
     open_error := fun _ => None;
     write_error := fun p =>
       if String.eqb p "/tmp/after_0b.jpg"
       then Some (PyErr "OSError" "No space left on device") else None;
     remove_error := fun p =>
       if String.eqb p "/tmp/before_0a.png"
       then Some (PyErr "PermissionError" "Operation not permitted") else None |}.

(** *** Words about floats

    [SpecFloat] is written with the arithmetic of [Corelib]; this puts
    the Standard Library's names, which [lia] knows, in its place. *)
Ltac zfold :=
  change IntDef.Z.add with Z.add in *;
  change IntDef.Z.sub with Z.sub in *;
  change IntDef.Z.mul with Z.mul in *;
  change IntDef.Z.opp with Z.opp in *;
  change IntDef.Z.max with Z.max in *;
  change IntDef.Z.min with Z.min in *;
  change IntDef.Z.leb with Z.leb in *;
  change IntDef.Z.eqb with Z.eqb in *;
  change IntDef.Z.compare with Z.compare in *;
  change IntDef.Z.even with Z.even in *;
  change IntDef.Z.shiftl with Z.shiftl in *;
  change IntDef.Z.div_eucl with Z.div_eucl in *;
  change PosDef.Pos.succ with Pos.succ in *;
  change PosDef.Pos.mul with Pos.mul in *;
  change @PosDef.Pos.iter with @Pos.iter in *.

Section FloatVocabulary.
Local Open Scope Q_scope.

(** Powers of two as rationals. *)
Definition pow2 (e : Z) : Q := (2 ^ e)%Q.

(** What a mantissa with its round and sticky bits says about the number
    [t] it stands for, in units of the last place. *)
Definition located (mrs : shr_record) (t : Q) : Prop :=
  match shr_r mrs, shr_s mrs with
  | false, false => t == inject_Z (shr_m mrs)
  | false, true => inject_Z (shr_m mrs) < t /\ t < inject_Z (shr_m mrs) + (1 # 2)
  | true, false => t == inject_Z (shr_m mrs) + (1 # 2)
  | true, true => inject_Z (shr_m mrs) + (1 # 2) < t /\ t < inject_Z (shr_m mrs) + 1
  end.

(** [x] is a non-negative finite float and denotes [q]. *)
Definition has_value (x : spec_float) (q : Q) : Prop :=
  match x with
  | S754_zero _ => q == 0
  | S754_finite false m e => q == inject_Z (Z.pos m) * pow2 e
  | _ => False
  end.

(** The largest rounding error of [np.float32] relative to the value. *)
Definition c24 : Q := 1 # 16777216.

(** The detector's box is valid for an image of the given shape
    [(height, width)]: the corners are finite numbers with
    [0 <= x1 <= x2 <= width] and [0 <= y1 <= y2 <= height], and the
    dimensions are positive (and C ints, as Pillow has them). *)
Definition valid_detection (shape : Z * Z)
    (box : spec_float * spec_float * spec_float * spec_float) : Prop :=
  (0 < snd shape < 2 ^ 31)%Z /\ (0 < fst shape < 2 ^ 31)%Z /\
  exists x1 y1 x2 y2 : Q,
    SF2Q box.1.1.1 = Some x1 /\ SF2Q box.1.1.2 = Some y1 /\
    SF2Q box.1.2 = Some x2 /\ SF2Q box.2 = Some y2 /\
    0 <= x1 /\ x1 <= x2 /\ x2 <= inject_Z (snd shape) /\
    0 <= y1 /\ y1 <= y2 /\ y2 <= inject_Z (fst shape).

(** The box lies in the unit square, up to [tol] at the far edges. *)
Definition within_unit_square (tol : Q) (b : BBox) : Prop :=
  exists x y width height : Q,
    SF2Q (bbox_x b) = Some x /\ SF2Q (bbox_y b) = Some y /\
    SF2Q (bbox_width b) = Some width /\ SF2Q (bbox_height b) = Some height /\
    0 <= x /\ 0 <= y /\ 0 <= width /\ 0 <= height /\
    x + width <= 1 + tol /\ y + height <= 1 + tol.

End FloatVocabulary.

(** A detection that reaches the right and the lower edge of a 640x480
    image and starts at x = 0.1 (as an [np.float32]), and a detector that
    reports it for every image. *)
Definition edge_box : spec_float * spec_float * spec_float * spec_float :=
  (S754_finite false 13421773 (-27), S754_zero false, f32 640, f32 480).

Definition edge_yolo (data : Bytes) : result Results :=
  Ok {| orig_shape := (480, 640);
        boxes := [{| xyxy := edge_box; cls := 0 |}];
        names := demo_names |}.

Definition edge_backend (F : fmt) : Backend :=
  demo_backend_with edge_yolo demo_scores F.

(** ** Further vocabulary *)

Definition image_type_eqb (a b : ImageType) : bool :=
  match a, b with
  | before, before | after, after => true
  | _, _ => false
  end.

(** The records of a list that carry the tag [t], in their order. *)
Definition tagged (t : ImageType) (ds : list Damage) : list Damage :=
  List.filter (fun d => image_type_eqb (imageType d) t) ds.

(** Two records that say the same about a detection, whatever their
    identifiers and tags. *)
Definition same_finding (d1 d2 : Damage) : Prop :=
  area d1 = area d2 /\ type d1 = type d2 /\
  severity d1 = severity d2 /\ bbox d1 = bbox d2.

(** [is_not c] holds of every character but [c]. *)
Definition is_not (c : ascii) (a : ascii) : bool := negb (Ascii.eqb a c).

(** A digit of [uuid4().hex]. *)
Definition is_hex_digit (c : ascii) : bool := in_range 48 57 c || in_range 97 102 c.

(** What [print] was called with, in order. *)
Definition printed (tr : list Event) : list exn :=
  omap (fun ev => match ev with EvPrint e => Some e | _ => None end) tr.

(** Four scores, the largest of them last: the answer of a classifier
    with one class more than SEVERITY_CLASSES names. *)
Definition four_scores : list spec_float :=
  [f32_scaled 1 (-3); f32_scaled 1 (-3); f32_scaled 1 (-3); f32_scaled 5 (-3)].

(** Scores with a NaN in the middle. *)
Definition nan_scores : list spec_float :=
  [f32_scaled 7 (-3); S754_nan; f32_scaled 1 (-3)].

(** A detector that reports an image of width 0. *)
Definition flat_yolo (data : Bytes) : result Results :=
  Ok {| orig_shape := (480, 0); boxes := map demo_box data; names := demo_names |}.

(** A file with two detections of classes that [demo_names] does not
    name. *)
Definition unnamed_files : FileSystem :=
  {[ "/in/c.jpg" := [Byte.x07; Byte.x08] ]}.

(** [str.lower()]. *)
Fixpoint lower (s : string) : string :=
  match s with
  | EmptyString => EmptyString
  | String c s' => String (to_lower c) (lower s')
  end.

(** A detector whose lookup names two classes alike, up to case and
    white space, and a file with one detection of each. *)
Definition alias_names : gmap Z string :=
  {[ 1 := " crushed_panel "; 2 := "CRUSHED_Panel" ]}.

Definition alias_yolo (data : Bytes) : result Results :=
  Ok {| orig_shape := (480, 640); boxes := map demo_box data; names := alias_names |}.

Definition alias_files : FileSystem :=
  {[ "/in/d.jpg" := [Byte.x01; Byte.x02] ]}.

(** The float [x] is the number [q], up to [tol]. *)
Definition approximates (tol : Q) (x : spec_float) (q : Q) : Prop :=
  exists v : Q, SF2Q x = Some v /\ (q - tol <= v)%Q /\ (v <= q + tol)%Q.

(** * Verification *)

(** ** The exception monad *)

Lemma rbind_Ok {A C} (m : result A) (k : A -> result C) (c : C) :
  rbind m k = Ok c -> exists a, m = Ok a /\ k a = Ok c.
Proof. destruct m as [a|e]; simpl; [eauto | discriminate]. Qed.

(** ** The detection loop *)

Section LoopFacts.
Context {B : Backend}.

Lemma damage_of_box_Ok pil_img results image_type i box d :
  damage_of_box pil_img results image_type i box = Ok d ->
  exists patch label conf,
    crop_patch pil_img (xyxy box) = Ok patch /\
    predict_severity patch = Ok (label, conf) /\
    d = record_of results image_type i box label.
Proof.
  unfold damage_of_box, record_of.
  destruct (xyxy box) as [[[x1 y1] x2] y2].
  intros H. apply rbind_Ok in H as (patch & Hpatch & H).
  apply rbind_Ok in H as ([label conf] & Hsev & H).
  destruct (orig_shape results) as [h w]. injection H as <-.
  exists patch, label, conf. auto.
Qed.

(** The loop appends one record per box, in the order of the boxes. *)
Lemma damages_loop_Ok pil_img results image_type bs :
  forall i acc ds,
    damages_loop pil_img results image_type i bs acc = Ok ds ->
    exists new,
      ds = (acc ++ new)%list /\
      List.length new = List.length bs /\
      forall k d, new !! k = Some d ->
        exists box, bs !! k = Some box /\
          damage_of_box pil_img results image_type (i + k) box = Ok d.
Proof.
  induction bs as [|box bs IH]; simpl; intros i acc ds H.
  - injection H as <-. exists []. rewrite app_nil_r.
    repeat split; auto. intros k d Hk. destruct k; discriminate.
  - apply rbind_Ok in H as (d0 & Hd0 & H).
    apply IH in H as (new & -> & Hlen & Hnew).
    exists (d0 :: new). rewrite <- app_assoc. simpl.
    repeat split; auto.
    intros [|k] d Hk; simpl in Hk.
    + injection Hk as <-. exists box. rewrite Nat.add_0_r. auto.
    + apply Hnew in Hk as (box' & Hb & Hd). exists box'.
      replace (i + S k)%nat with (S i + k)%nat by lia. auto.
Qed.

Lemma run_yolo_on_image_Ok fs image_path image_type ds :
  run_yolo_on_image fs image_path image_type = Ok ds ->
  exists pil_img results,
    load_image fs image_path = Ok pil_img /\
    detect fs image_path = Ok results /\
    List.length ds = List.length (boxes results) /\
    forall k d, ds !! k = Some d ->
      exists box, boxes results !! k = Some box /\
        damage_of_box pil_img results image_type k box = Ok d.
Proof.
  unfold run_yolo_on_image, detect. intros H.
  apply rbind_Ok in H as (pil_img & Himg & H).
  apply rbind_Ok in H as (data & Hdata & H).
  apply rbind_Ok in H as (results & Hres & H).
  apply damages_loop_Ok in H as (new & -> & Hlen & Hnew).
  exists pil_img, results. rewrite Hdata. simpl.
  repeat split; auto.
Qed.

Lemma run_yolo_on_image_record fs image_path image_type ds k d :
  run_yolo_on_image fs image_path image_type = Ok ds ->
  ds !! k = Some d ->
  exists results box label,
    detect fs image_path = Ok results /\
    boxes results !! k = Some box /\
    d = record_of results image_type k box label.
Proof.
  intros H Hk. apply run_yolo_on_image_Ok in H as (img & res & _ & Hres & _ & Hrec).
  apply Hrec in Hk as (box & Hbox & Hd).
  apply damage_of_box_Ok in Hd as (patch & label & conf & _ & _ & ->).
  eauto 6.
Qed.

Lemma run_yolo_on_image_fields fs image_path image_type ds k d :
  run_yolo_on_image fs image_path image_type = Ok ds ->
  ds !! k = Some d ->
  id d = image_type_str image_type +:+ "-" +:+ str_of_int (Z.of_nat k) /\
  imageType d = image_type /\
  area d = "Unknown area".
Proof.
  intros H Hk.
  destruct (run_yolo_on_image_record _ _ _ _ _ _ H Hk) as (res & box & label & _ & _ & ->).
  auto.
Qed.

Lemma analyze_pair_Ok fs bp ap r :
  analyze_pair fs bp ap = Ok r ->
  exists bd ad,
    run_yolo_on_image fs bp before = Ok bd /\
    run_yolo_on_image fs ap after = Ok ad /\
    damages r = (bd ++ ad)%list /\
    inspectionId r = "AUTO-DEMO-001".
Proof.
  unfold analyze_pair. intros H.
  apply rbind_Ok in H as (bd & Hbd & H).
  apply rbind_Ok in H as (ad & Had & H).
  injection H as <-. exists bd, ad. auto.
Qed.

End LoopFacts.

(** ** The pair analyzer *)

Section PairAnalyzer.
Context {B : Backend}.

Lemma message_is_table (bd ad : list Damage) :
  (if (List.length bd =? 0)%nat && (List.length ad =? 0)%nat
   then "No damage detected in either image."
   else if (List.length bd =? 0)%nat && (0 <? List.length ad)%nat
   then "No damage detected in BEFORE image."
   else if (0 <? List.length bd)%nat && (List.length ad =? 0)%nat
   then "No damage detected in AFTER image."
   else "Damage detected successfully.")
  = summary_table (List.length bd) (List.length ad).
Proof. destruct bd, ad; reflexivity. Qed.

(** C1. Whenever a pair of images is analysed, the summary message is the
    entry of the 2x2 decision table for the two detection counts (the
    numbers of boxes the detector reports for the before and for the after
    image), and hence one of the four messages of the table. *)
Theorem C1_message_decision_table fs bp ap r :
  analyze_pair fs bp ap = Ok r ->
  exists rb ra,
    detect fs bp = Ok rb /\ detect fs ap = Ok ra /\
    message r = Some (summary_table (List.length (boxes rb)) (List.length (boxes ra))) /\
    (message r = Some "No damage detected in either image." \/
     message r = Some "No damage detected in BEFORE image." \/
     message r = Some "No damage detected in AFTER image." \/
     message r = Some "Damage detected successfully.").
Proof.
  unfold analyze_pair. intros H.
  apply rbind_Ok in H as (bd & Hbd & H).
  apply rbind_Ok in H as (ad & Had & H).
  injection H as <-. cbn [message].
  apply run_yolo_on_image_Ok in Hbd as (_ & rb & _ & Hrb & Hlb & _).
  apply run_yolo_on_image_Ok in Had as (_ & ra & _ & Hra & Hla & _).
  exists rb, ra. rewrite message_is_table, Hlb, Hla.
  repeat split; auto.
  destruct (boxes rb), (boxes ra); simpl; auto.
Qed.

End PairAnalyzer.

Lemma C1_message_decision_table_witness :
  exists r rb ra,
    analyze_pair (B := demo_backend binary32) demo_files "/in/b.jpg" "/in/a.jpg" = Ok r /\
    detect (B := demo_backend binary32) demo_files "/in/b.jpg" = Ok rb /\
    detect (B := demo_backend binary32) demo_files "/in/a.jpg" = Ok ra /\
    message r = Some (summary_table (List.length (boxes rb)) (List.length (boxes ra))).
Proof.
  eexists.
  assert (E : analyze_pair (B := demo_backend binary32) demo_files "/in/b.jpg" "/in/a.jpg"
              = Ok _) by (vm_compute; reflexivity).
  destruct (C1_message_decision_table _ _ _ _ E) as (rb & ra & Hb & Ha & Hm & _).
  exists rb, ra. auto.
Defined.

Section PairAnalyzerRecords.
Context {B : Backend}.

(** C2. The damages of an analysis result are the before-image records
    followed by the after-image records: all of the former are tagged
    "before", all of the latter "after", so every record tagged "before"
    stands before every record tagged "after" whatever the order of the
    detections within an image, and the sequence is as long as the two
    detection counts together. *)
Theorem C2_damages_before_then_after fs bp ap r :
  analyze_pair fs bp ap = Ok r ->
  exists bd ad rb ra,
    run_yolo_on_image fs bp before = Ok bd /\
    run_yolo_on_image fs ap after = Ok ad /\
    detect fs bp = Ok rb /\ detect fs ap = Ok ra /\
    damages r = (bd ++ ad)%list /\
    Forall (fun d => imageType d = before) bd /\
    Forall (fun d => imageType d = after) ad /\
    (forall i j di dj,
        damages r !! i = Some di -> damages r !! j = Some dj ->
        imageType di = before -> imageType dj = after -> (i < j)%nat) /\
    List.length (damages r) = (List.length (boxes rb) + List.length (boxes ra))%nat.
Proof.
  intros H. apply analyze_pair_Ok in H as (bd & ad & Hbd & Had & Hr & _).
  destruct (run_yolo_on_image_Ok _ _ _ _ Hbd) as (_ & rb & _ & Hrb & Hlb & _).
  destruct (run_yolo_on_image_Ok _ _ _ _ Had) as (_ & ra & _ & Hra & Hla & _).
  assert (Fb : Forall (fun d => imageType d = before) bd).
  { apply Forall_lookup. intros k d Hk.
    apply (run_yolo_on_image_fields _ _ _ _ _ _ Hbd Hk). }
  assert (Fa : Forall (fun d => imageType d = after) ad).
  { apply Forall_lookup. intros k d Hk.
    apply (run_yolo_on_image_fields _ _ _ _ _ _ Had Hk). }
  exists bd, ad, rb, ra. repeat split; auto.
  - intros i j di dj Hi Hj Ti Tj. rewrite Hr in Hi, Hj.
    apply lookup_app_Some in Hi as [Hi | [_ Hi]].
    + apply lookup_lt_Some in Hi.
      apply lookup_app_Some in Hj as [Hj | [Hj _]]; [|lia].
      rewrite Forall_lookup in Fb. apply Fb in Hj. congruence.
    + rewrite Forall_lookup in Fa. apply Fa in Hi. congruence.
  - rewrite Hr, length_app. congruence.
Qed.

(** C7. Within one analysis result no two damage records have the same
    identifier, however many detections either image has. *)
Theorem C7_identifiers_distinct fs bp ap r :
  analyze_pair fs bp ap = Ok r ->
  NoDup (map id (damages r)).
Proof.
  intros H. apply analyze_pair_Ok in H as (bd & ad & Hbd & Had & -> & _).
  apply NoDup_alt. intros i j x Hi Hj.
  rewrite list_lookup_fmap in Hi, Hj.
  destruct ((bd ++ ad)%list !! i) as [di|] eqn:Ei; [|discriminate].
  destruct ((bd ++ ad)%list !! j) as [dj|] eqn:Ej; [|discriminate].
  simpl in Hi, Hj. injection Hi as Hi. injection Hj as Hj.
  apply lookup_app_Some in Ei as [Ei | [Li Ei]];
    apply lookup_app_Some in Ej as [Ej | [Lj Ej]].
  - apply (run_yolo_on_image_fields _ _ _ _ _ _ Hbd) in Ei as (Ii & _).
    apply (run_yolo_on_image_fields _ _ _ _ _ _ Hbd) in Ej as (Ij & _).
    rewrite <- Hj, Ii, Ij in Hi. simpl in Hi. injection Hi as Hi.
    apply pretty_Z_inj in Hi. lia.
  - apply (run_yolo_on_image_fields _ _ _ _ _ _ Hbd) in Ei as (Ii & _).
    apply (run_yolo_on_image_fields _ _ _ _ _ _ Had) in Ej as (Ij & _).
    rewrite <- Hj, Ii, Ij in Hi. discriminate.
  - apply (run_yolo_on_image_fields _ _ _ _ _ _ Had) in Ei as (Ii & _).
    apply (run_yolo_on_image_fields _ _ _ _ _ _ Hbd) in Ej as (Ij & _).
    rewrite <- Hj, Ii, Ij in Hi. discriminate.
  - apply (run_yolo_on_image_fields _ _ _ _ _ _ Had) in Ei as (Ii & _).
    apply (run_yolo_on_image_fields _ _ _ _ _ _ Had) in Ej as (Ij & _).
    rewrite <- Hj, Ii, Ij in Hi. simpl in Hi. injection Hi as Hi.
    apply pretty_Z_inj in Hi. lia.
Qed.

End PairAnalyzerRecords.

(** C8. The inspection identifier of every analysis result is the one
    fixed placeholder, the same for any two requests whatever their images
    and models, and the area label of every damage record is the one
    constant placeholder. *)
Theorem C8_placeholders (B1 B2 : Backend) fs1 bp1 ap1 r1 fs2 bp2 ap2 r2 :
  analyze_pair (B := B1) fs1 bp1 ap1 = Ok r1 ->
  analyze_pair (B := B2) fs2 bp2 ap2 = Ok r2 ->
  inspectionId r1 = "AUTO-DEMO-001" /\
  inspectionId r2 = inspectionId r1 /\
  Forall (fun d => area d = "Unknown area") (damages r1).
Proof.
  intros H1 H2.
  apply analyze_pair_Ok in H1 as (bd & ad & Hbd & Had & Hd & Hi1).
  apply analyze_pair_Ok in H2 as (_ & _ & _ & _ & _ & Hi2).
  repeat split; [auto | congruence |].
  rewrite Hd. apply Forall_app. split; apply Forall_lookup; intros k d Hk.
  - apply (run_yolo_on_image_fields _ _ _ _ _ _ Hbd Hk).
  - apply (run_yolo_on_image_fields _ _ _ _ _ _ Had Hk).
Qed.

Lemma C2_damages_before_then_after_witness :
  exists r bd ad,
    analyze_pair (B := demo_backend binary32) demo_files "/in/b.jpg" "/in/a.jpg" = Ok r /\
    damages r = (bd ++ ad)%list /\
    Forall (fun d => imageType d = before) bd /\
    Forall (fun d => imageType d = after) ad.
Proof.
  eexists.
  assert (E : analyze_pair (B := demo_backend binary32) demo_files "/in/b.jpg" "/in/a.jpg"
              = Ok _) by (vm_compute; reflexivity).
  destruct (C2_damages_before_then_after _ _ _ _ E)
    as (bd & ad & _ & _ & _ & _ & _ & _ & Hd & Fb & Fa & _).
  exists bd, ad. auto.
Defined.

Lemma C7_identifiers_distinct_witness :
  exists r,
    analyze_pair (B := demo_backend binary32) demo_files "/in/b.jpg" "/in/a.jpg" = Ok r /\
    NoDup (map id (damages r)).
Proof.
  eexists.
  assert (E : analyze_pair (B := demo_backend binary32) demo_files "/in/b.jpg" "/in/a.jpg"
              = Ok _) by (vm_compute; reflexivity).
  split; [exact E | exact (C7_identifiers_distinct _ _ _ _ E)].
Defined.

Lemma C8_placeholders_witness :
  exists r1 r2,
    analyze_pair (B := demo_backend binary32) demo_files "/in/b.jpg" "/in/a.jpg" = Ok r1 /\
    analyze_pair (B := demo_backend binary64) demo_files "/in/a.jpg" "/in/a.jpg" = Ok r2 /\
    inspectionId r2 = inspectionId r1 /\
    Forall (fun d => area d = "Unknown area") (damages r1).
Proof.
  eexists. eexists.
  assert (E1 : analyze_pair (B := demo_backend binary32) demo_files "/in/b.jpg" "/in/a.jpg"
               = Ok _) by (vm_compute; reflexivity).
  assert (E2 : analyze_pair (B := demo_backend binary64) demo_files "/in/a.jpg" "/in/a.jpg"
               = Ok _) by (vm_compute; reflexivity).
  destruct (C8_placeholders _ _ _ _ _ _ _ _ _ _ E1 E2) as (_ & Hi & Ha).
  auto.
Defined.

(** ** [str.strip] and [str.title] *)

Lemma append_String a s t : String a s +:+ t = String a (s +:+ t).
Proof. reflexivity. Qed.

Lemma append_empty_l t : "" +:+ t = t.
Proof. reflexivity. Qed.

Lemma lstrip_spec s :
  exists l, s = l +:+ lstrip s /\ string_forall py_isspace l = true /\
    (forall c, first_char (lstrip s) = Some c -> py_isspace c = false).
Proof.
  induction s as [|a s (l & E & Hl & Hf)]; simpl.
  - exists "". repeat split; auto. discriminate.
  - destruct (py_isspace a) eqn:Ea.
    + exists (String a l). simpl. rewrite append_String, Ea, Hl, <- E. auto.
    + exists "". rewrite append_empty_l. simpl. repeat split; auto.
      intros c [= <-]. exact Ea.
Qed.

Lemma rstrip_spec s :
  exists r, s = rstrip s +:+ r /\ string_forall py_isspace r = true /\
    (forall c, last_char (rstrip s) = Some c -> py_isspace c = false) /\
    (rstrip s <> "" -> first_char (rstrip s) = first_char s).
Proof.
  induction s as [|a s (r & E & Hr & Hl & Hf)]; simpl.
  - exists "". repeat split; auto. discriminate.
  - destruct (rstrip s) as [|b t] eqn:Et.
    + destruct (py_isspace a) eqn:Ea.
      * exists (String a r). rewrite append_empty_l in *. simpl.
        rewrite Ea, Hr, <- E. repeat split; auto; try discriminate; try congruence.
      * exists r. rewrite append_String, <- E. simpl. repeat split; auto.
        intros c [= <-]. exact Ea.
    + exists r. rewrite append_String, <- E. repeat split; auto.
Qed.

Lemma strip_spec s : stripped_of s (strip s).
Proof.
  unfold stripped_of, strip.
  destruct (lstrip_spec s) as (l & El & Hl & Hf).
  destruct (rstrip_spec (lstrip s)) as (r & Er & Hr & Hlast & Hfirst).
  exists l, r. repeat split; auto.
  - rewrite <- Er. exact El.
  - intros c Hc. apply Hf. rewrite <- Hfirst; auto.
    intros E. rewrite E in Hc. discriminate.
Qed.

Example strip_title_example :
  title (strip "  front_bumper dent ") = "Front_Bumper Dent".
Proof. reflexivity. Qed.

Lemma to_lower_uncased c : is_cased c = false -> to_lower c = c.
Proof.
  unfold is_cased, to_lower. intros H. apply orb_false_iff in H as [-> _]. auto.
Qed.

Lemma to_title_uncased c : is_cased c = false -> to_title c = c.
Proof.
  unfold is_cased, to_title. intros H. apply orb_false_iff in H as [_ ->]. auto.
Qed.

Lemma title_go_length s : forall b, String.length (title_go b s) = String.length s.
Proof. induction s; simpl; intros; auto. Qed.

Lemma title_go_get s :
  forall b k c, String.get k s = Some c ->
    String.get k (title_go b s) =
      Some (if match k with
               | O => b
               | S k' => match String.get k' s with
                         | Some p => is_cased p
                         | None => false
                         end
               end
            then to_lower c else to_title c).
Proof.
  induction s as [|a s IH]; intros b k c Hk; [destruct k; discriminate|].
  destruct k as [|k]; simpl in *.
  - injection Hk as <-. auto.
  - rewrite (IH _ _ _ Hk). destruct k as [|k]; auto.
Qed.

Lemma title_spec s : title_cased s (title s).
Proof.
  split; [apply title_go_length|].
  intros k c Hk. unfold title. rewrite (title_go_get _ _ _ _ Hk).
  unfold starts_word. f_equal.
  destruct (is_cased c) eqn:Ec.
  - destruct k as [|k]; auto. destruct (String.get k s) as [p|] eqn:Ep.
    + destruct (is_cased p); auto.
    + auto.
  - rewrite to_lower_uncased, to_title_uncased by auto.
    destruct k as [|k]; auto. destruct (String.get k s); auto.
    destruct (is_cased a); auto.
Qed.

(** *** The decimal rendering of an [int] has no letter and no space *)

Lemma pretty_N_char_digit x : is_digit_or_dash (pretty_N_char x) = true.
Proof. unfold pretty_N_char. repeat case_match; reflexivity. Qed.

Lemma pretty_N_go_digits x :
  forall s, string_forall is_digit_or_dash s = true ->
    string_forall is_digit_or_dash (pretty_N_go x s) = true.
Proof.
  induction (N.lt_wf_0 x) as [x _ IH]. intros s Hs.
  destruct (decide (0 < x)%N) as [Hx|Hx].
  - rewrite pretty_N_go_step by done. apply IH.
    + by apply N.div_lt.
    + simpl. by rewrite pretty_N_char_digit, Hs.
  - assert (x = 0%N) as -> by lia. by rewrite pretty_N_go_0.
Qed.

Lemma pretty_N_digits (x : N) : string_forall is_digit_or_dash (pretty x) = true.
Proof.
  unfold pretty, pretty_N. case_decide; [reflexivity|].
  by apply pretty_N_go_digits.
Qed.

Lemma str_of_int_digits n : string_forall is_digit_or_dash (str_of_int n) = true.
Proof.
  unfold str_of_int, pretty, pretty_Z. destruct n as [|q|q].
  - reflexivity.
  - apply pretty_N_digits.
  - rewrite append_String, append_empty_l. simpl. apply pretty_N_digits.
Qed.

Lemma digit_not_space c : is_digit_or_dash c = true -> py_isspace c = false.
Proof. destruct c as [[] [] [] [] [] [] [] []]; vm_compute; congruence. Qed.

Lemma digit_not_cased c : is_digit_or_dash c = true -> is_cased c = false.
Proof. destruct c as [[] [] [] [] [] [] [] []]; vm_compute; congruence. Qed.

Lemma rstrip_digits s :
  string_forall is_digit_or_dash s = true -> rstrip s = s.
Proof.
  induction s as [|a s IH]; simpl; [auto|].
  intros H. apply andb_true_iff in H as [Ha Hs].
  rewrite (IH Hs), (digit_not_space _ Ha). destruct s; auto.
Qed.

Lemma title_go_digits s :
  string_forall is_digit_or_dash s = true -> forall b, title_go b s = s.
Proof.
  induction s as [|a s IH]; simpl; [auto|].
  intros H b. apply andb_true_iff in H as [Ha Hs].
  pose proof (digit_not_cased _ Ha) as Hc.
  rewrite (IH Hs), to_lower_uncased, to_title_uncased by auto.
  destruct b; auto.
Qed.

Lemma lstrip_class_prefix p : lstrip ("class_" +:+ p) = "class_" +:+ p.
Proof. reflexivity. Qed.

Lemma rstrip_class_prefix p : rstrip p = p -> rstrip ("class_" +:+ p) = "class_" +:+ p.
Proof.
  intros H. rewrite !append_String, append_empty_l. cbn [rstrip]. rewrite H.
  destruct p; reflexivity.
Qed.

Lemma title_class_prefix p : title ("class_" +:+ p) = "Class_" +:+ title_go false p.
Proof. reflexivity. Qed.

(** The label made from the fallback name of class [n]. *)
Lemma fallback_label n :
  title (strip ("class_" +:+ str_of_int n)) = "Class_" +:+ str_of_int n.
Proof.
  pose proof (str_of_int_digits n) as Hd.
  unfold strip.
  rewrite lstrip_class_prefix, (rstrip_class_prefix _ (rstrip_digits _ Hd)).
  rewrite title_class_prefix, (title_go_digits _ Hd). reflexivity.
Qed.

(** *** ASCII names stay ASCII *)

Lemma is_ascii_char_to_lower c : is_ascii_char (to_lower c) = is_ascii_char c.
Proof. destruct c as [[] [] [] [] [] [] [] []]; reflexivity. Qed.

Lemma is_ascii_char_to_title c : is_ascii_char (to_title c) = is_ascii_char c.
Proof. destruct c as [[] [] [] [] [] [] [] []]; reflexivity. Qed.

Lemma digit_is_ascii c : is_digit_or_dash c = true -> is_ascii_char c = true.
Proof. destruct c as [[] [] [] [] [] [] [] []]; vm_compute; congruence. Qed.

Lemma is_ascii_lstrip s : is_ascii s = true -> is_ascii (lstrip s) = true.
Proof.
  unfold is_ascii. induction s as [|a s IH]; [reflexivity|]. cbn [lstrip].
  intros H. destruct (py_isspace a); [|exact H].
  cbn [string_forall] in H. apply andb_true_iff in H as [_ Hs]. auto.
Qed.

Lemma is_ascii_rstrip s : is_ascii s = true -> is_ascii (rstrip s) = true.
Proof.
  unfold is_ascii. induction s as [|a s IH]; [reflexivity|]. cbn [rstrip string_forall].
  intros H. apply andb_true_iff in H as [Ha Hs]. specialize (IH Hs).
  destruct (rstrip s) as [|b r].
  - destruct (py_isspace a); [reflexivity|]. cbn [string_forall]. rewrite Ha. reflexivity.
  - cbn [string_forall] in *. rewrite Ha. exact IH.
Qed.

Lemma is_ascii_strip s : is_ascii s = true -> is_ascii (strip s) = true.
Proof. intros H. apply is_ascii_rstrip, is_ascii_lstrip, H. Qed.

Lemma is_ascii_title_go s : forall b, is_ascii s = true -> is_ascii (title_go b s) = true.
Proof.
  unfold is_ascii. induction s as [|a s IH]; intros b; [reflexivity|].
  cbn [title_go string_forall]. intros H. apply andb_true_iff in H as [Ha Hs].
  rewrite (IH _ Hs), andb_true_r.
  destruct b; [rewrite is_ascii_char_to_lower | rewrite is_ascii_char_to_title]; exact Ha.
Qed.

Lemma is_ascii_title s : is_ascii s = true -> is_ascii (title s) = true.
Proof. apply is_ascii_title_go. Qed.

Lemma is_ascii_str_of_int n : is_ascii (str_of_int n) = true.
Proof.
  pose proof (str_of_int_digits n) as H. unfold is_ascii.
  induction (str_of_int n) as [|a s IH]; [reflexivity|].
  cbn [string_forall] in *. apply andb_true_iff in H as [Ha Hs].
  rewrite (digit_is_ascii _ Ha), (IH Hs). reflexivity.
Qed.

(** The fallback name is ASCII, so a class name is when the lookup's is. *)
Lemma is_ascii_raw_type_name results cls_id :
  ascii_name results cls_id -> is_ascii (raw_type_name results cls_id) = true.
Proof.
  unfold ascii_name, raw_type_name. intros H.
  destruct (names results !! cls_id) as [name|]; cbn.
  - apply H. reflexivity.
  - apply is_ascii_str_of_int.
Qed.

(** ** The damage-type label *)

Section TypeLabel.
Context {B : Backend}.

(** C6 (amended). The label of a detection whose class index has no entry
    in the model's name lookup is "Class_<id>", the fallback name
    "class_<id>" after [strip().title()]; for a mapped index it is the
    lookup's name stripped and title-cased in the same way. *)
Theorem C6_type_label_amended fs path t ds k d :
  run_yolo_on_image fs path t = Ok ds ->
  ds !! k = Some d ->
  exists res box,
    detect fs path = Ok res /\
    boxes res !! k = Some box /\
    match names res !! cls box with
    | None => type d = "Class_" +:+ str_of_int (cls box)
    | Some name => type d = title (strip name)
    end.
Proof.
  intros H Hk.
  destruct (run_yolo_on_image_record _ _ _ _ _ _ H Hk)
    as (res & box & label & Hres & Hbox & ->).
  exists res, box. repeat split; auto.
  cbn [type record_of]. unfold raw_type_name.
  destruct (names res !! cls box) as [name|]; simpl; [reflexivity|].
  apply fallback_label.
Qed.

(** C10. The label of a detection is made from the detector's class name
    (the lookup's name, or the fallback "class_<id>" when the index is
    unmapped) by taking the white space around it off and then
    title-casing what is left: the first letter of each word in upper
    case, the other letters in lower case.  This is shown for class names
    that are ASCII strings, as the fallback always is; the label is then
    ASCII too. *)
Theorem C10_label_stripped_and_title_cased fs path t ds k d res box :
  run_yolo_on_image fs path t = Ok ds ->
  ds !! k = Some d ->
  detect fs path = Ok res ->
  boxes res !! k = Some box ->
  ascii_name res (cls box) ->
  exists raw core,
    raw = match names res !! cls box with
          | Some name => name
          | None => "class_" +:+ str_of_int (cls box)
          end /\
    is_ascii raw = true /\
    stripped_of raw core /\
    title_cased core (type d) /\
    is_ascii (type d) = true.
Proof.
  intros H Hk Hres Hbox Hascii.
  destruct (run_yolo_on_image_record _ _ _ _ _ _ H Hk)
    as (res' & box' & label & Hres' & Hbox' & ->).
  rewrite Hres in Hres'. injection Hres' as <-.
  rewrite Hbox in Hbox'. injection Hbox' as <-.
  pose proof (is_ascii_raw_type_name _ _ Hascii) as Hraw.
  exists (raw_type_name res (cls box)), (strip (raw_type_name res (cls box))).
  split.
  - unfold raw_type_name. destruct (names res !! cls box); reflexivity.
  - split; [exact Hraw|]. split; [apply strip_spec|]. split; [apply title_spec|].
    cbn [type record_of]. apply is_ascii_title, is_ascii_strip, Hraw.
Qed.

End TypeLabel.

(** C6 as stated fails: in the run below the second detection of the
    before image has the unmapped class 7 and is labelled "Class_7", not
    "class_7", and the first has the mapped class 1 and is labelled
    "Crushed_Panel", not the lookup's " crushed_panel ". *)
Lemma C6_counterexample :
  exists res d0 d1,
    detect (B := demo_backend binary32) demo_files "/in/b.jpg" = Ok res /\
    run_yolo_on_image (B := demo_backend binary32) demo_files "/in/b.jpg" before
      = Ok [d0; d1] /\
    map cls (boxes res) = [1; 7] /\
    names res !! 7 = None /\
    type d1 = "Class_7" /\
    type d1 <> "class_" +:+ str_of_int 7 /\
    names res !! 1 = Some " crushed_panel " /\
    type d0 = "Crushed_Panel" /\
    type d0 <> " crushed_panel ".
Proof.
  do 3 eexists. repeat split; try (vm_compute; reflexivity); vm_compute; discriminate.
Qed.

Lemma C6_type_label_amended_witness :
  exists ds d,
    run_yolo_on_image (B := demo_backend binary32) demo_files "/in/b.jpg" before = Ok ds /\
    ds !! 1%nat = Some d /\
    type d = "Class_7".
Proof.
  eexists. eexists.
  assert (E : run_yolo_on_image (B := demo_backend binary32) demo_files "/in/b.jpg" before
              = Ok _) by (vm_compute; reflexivity).
  assert (Ek : forall d0 d1 : Damage, [d0; d1] !! 1%nat = Some d1) by reflexivity.
  destruct (C6_type_label_amended _ _ _ _ _ _ E (Ek _ _)) as (res & box & Hres & Hbox & Hty).
  vm_compute in Hres. injection Hres as <-.
  vm_compute in Hbox. injection Hbox as <-.
  split; [exact E|]. split; [reflexivity|]. exact Hty.
Defined.

Lemma C10_label_stripped_and_title_cased_witness :
  exists ds d core,
    run_yolo_on_image (B := demo_backend binary32) demo_files "/in/b.jpg" before = Ok ds /\
    ds !! 0%nat = Some d /\
    is_ascii " crushed_panel " = true /\
    stripped_of " crushed_panel " core /\
    title_cased core (type d).
Proof.
  eexists. eexists.
  assert (E : run_yolo_on_image (B := demo_backend binary32) demo_files "/in/b.jpg" before
              = Ok _) by (vm_compute; reflexivity).
  assert (Ek : forall d0 d1 : Damage, [d0; d1] !! 0%nat = Some d0) by reflexivity.
  assert (R : detect (B := demo_backend binary32) demo_files "/in/b.jpg"
              = Ok {| orig_shape := (480, 640);
                      boxes := [demo_box Byte.x01; demo_box Byte.x07];
                      names := demo_names |}) by reflexivity.
  assert (A : ascii_name {| orig_shape := (480, 640);
                            boxes := [demo_box Byte.x01; demo_box Byte.x07];
                            names := demo_names |} (cls (demo_box Byte.x01))).
  { intros name Hn. vm_compute in Hn. injection Hn as <-. reflexivity. }
  destruct (C10_label_stripped_and_title_cased (B := demo_backend binary32)
              _ _ _ _ 0%nat _ _ _ E (Ek _ _) R eq_refl A)
    as (raw & core & Hraw & Hasc & Hs & Ht & _).
  vm_compute in Hraw. subst raw.
  exists core. split; [exact E|]. split; [reflexivity|]. split; [exact Hasc|].
  split; [exact Hs | exact Ht].
Defined.

(** ** The patch extractor *)

Section PatchExtractor.
Context {B : Backend}.

Lemma crop_patch_Raise pil_img box e :
  crop_patch pil_img box = Raise e <-> library_failure pil_img box e.
Proof.
  unfold crop_patch. split.
  - destruct (pil_crop pil_img box) as [crop|e0] eqn:E1; simpl;
      [|intros [= ->]; by apply crop_fails].
    destruct (pil_resize crop IMG_SIZE) as [crop'|e0] eqn:E2; simpl;
      [|intros [= ->]; by eapply resize_fails].
    destruct (np_array crop') as [arr|e0] eqn:E3; simpl;
      [|intros [= ->]; by eapply array_fails].
    destruct (np_expand_dims arr) as [arr'|e0] eqn:E4; simpl;
      [|intros [= ->]; by eapply expand_dims_fails].
    destruct (eff_preprocess arr') as [arr''|e0] eqn:E5; simpl;
      [discriminate|intros [= ->]; by eapply preprocess_fails].
  - intros [H|? H1 H|? ? H1 H2 H|? ? ? H1 H2 H3 H|? ? ? ? H1 H2 H3 H4 H];
      repeat match goal with Hx : _ = _ |- _ => rewrite Hx; clear Hx; simpl end;
      reflexivity.
Qed.

Lemma crop_patch_Ok pil_img box patch :
  crop_patch pil_img box = Ok patch <-> library_success pil_img box patch.
Proof.
  unfold crop_patch, library_success. split.
  - intros H.
    apply rbind_Ok in H as (crop & H1 & H). apply rbind_Ok in H as (crop' & H2 & H).
    apply rbind_Ok in H as (arr & H3 & H). apply rbind_Ok in H as (arr' & H4 & H).
    apply rbind_Ok in H as (arr'' & H5 & H). injection H as <-.
    exists crop, crop', arr, arr'. auto.
  - intros (crop & crop' & arr & arr' & H1 & H2 & H3 & H4 & H5).
    rewrite H1. cbn [rbind]. rewrite H2. cbn [rbind]. rewrite H3. cbn [rbind].
    rewrite H4. cbn [rbind]. rewrite H5. reflexivity.
Qed.

(** C9 (amended). For a box without area the patch extractor checks
    nothing and handles nothing itself: what it does is what its library
    calls do.  It returns a patch exactly when all of them return, and the
    detection then gets a record like any other; it raises exactly what
    the first of them that fails raises, and then the loop body of its
    caller, the loop and [run_yolo_on_image] raise the same exception and
    return no record.  Nothing is caught and no default patch is put in
    place of a failure. *)
Theorem C9_zero_area_box_outcomes pil_img box :
  zero_area box = true ->
  (forall patch,
      crop_patch pil_img box = Ok patch <-> library_success pil_img box patch) /\
  (forall e, crop_patch pil_img box = Raise e <-> library_failure pil_img box e) /\
  (forall patch label conf results image_type i b,
      xyxy b = box ->
      library_success pil_img box patch ->
      predict_severity patch = Ok (label, conf) ->
      damage_of_box pil_img results image_type i b
      = Ok (record_of results image_type i b label)) /\
  (forall e results image_type i b bs acc,
      xyxy b = box ->
      library_failure pil_img box e ->
      damage_of_box pil_img results image_type i b = Raise e /\
      damages_loop pil_img results image_type i (b :: bs) acc = Raise e) /\
  (forall e fs path image_type results b bs,
      load_image fs path = Ok pil_img ->
      detect fs path = Ok results ->
      boxes results = b :: bs ->
      xyxy b = box ->
      library_failure pil_img box e ->
      run_yolo_on_image fs path image_type = Raise e).
Proof.
  intros _.
  assert (Hfail : forall e results image_type i b,
             xyxy b = box -> library_failure pil_img box e ->
             damage_of_box pil_img results image_type i b = Raise e).
  { intros e results image_type i b Hb Hf. apply crop_patch_Raise in Hf.
    unfold damage_of_box. rewrite Hb.
    destruct box as [[[x1 y1] x2] y2]. rewrite Hf. reflexivity. }
  split; [intros patch; apply crop_patch_Ok|].
  split; [intros e; apply crop_patch_Raise|].
  split; [|split].
  - intros patch label conf results image_type i b Hb Hs Hp.
    apply crop_patch_Ok in Hs.
    unfold damage_of_box, record_of. rewrite Hb.
    destruct box as [[[x1 y1] x2] y2]. rewrite Hs. cbn [rbind]. rewrite Hp. cbn [rbind].
    destruct (orig_shape results) as [h w]. reflexivity.
  - intros e results image_type i b bs acc Hb Hf.
    pose proof (Hfail e results image_type i b Hb Hf) as Hd.
    split; [exact Hd|]. cbn [damages_loop]. rewrite Hd. reflexivity.
  - intros e fs path image_type results b bs Himg Hres Hbs Hb Hf.
    unfold run_yolo_on_image. rewrite Himg. cbn [rbind].
    unfold detect in Hres.
    destruct (read_file fs path) as [data|e0]; [|discriminate]. cbn [rbind] in *.
    rewrite Hres. cbn [rbind]. rewrite Hbs. cbn [damages_loop].
    rewrite (Hfail e results image_type 0%nat b Hb Hf). reflexivity.
Qed.

End PatchExtractor.

Lemma C9_zero_area_box_outcomes_witness :
  zero_area (xyxy thin_box) = true /\
  crop_patch (B := demo_backend binary32) (640, 480) (xyxy thin_box) = Ok (224, 224) /\
  exists d,
    damage_of_box (B := demo_backend binary32) (640, 480)
      {| orig_shape := (480, 640); boxes := [thin_box]; names := demo_names |}
      before 0 thin_box = Ok d /\
    severity d = "moderate".
Proof.
  destruct (C9_zero_area_box_outcomes (B := demo_backend binary32) (640, 480)
              (xyxy thin_box) eq_refl) as (Hok & _ & Hrec & _).
  assert (S : library_success (B := demo_backend binary32) (640, 480) (xyxy thin_box)
                (224, 224)).
  { exists (0, 60), (224, 224), (224, 224), (224, 224). repeat split; reflexivity. }
  split; [reflexivity|]. split; [apply Hok; exact S|].
  eexists. split.
  - apply (Hrec (224, 224) "moderate" (f32_scaled 5 (-3)) _ before 0%nat thin_box
             eq_refl S).
    reflexivity.
  - reflexivity.
Defined.

(** C9 as stated fails: no failure arises from a box without area.  For
    [thin_box], whose left and right sides coincide, the crop is an empty
    image, which [resize] turns into an image of IMG_SIZE as Pillow's
    does; [crop_patch] returns a patch and raises nothing, and
    [run_yolo_on_image] returns a record for the detection. *)
Lemma C9_counterexample :
  zero_area (xyxy thin_box) = true /\
  crop_patch (B := demo_backend binary32) (640, 480) (xyxy thin_box) = Ok (224, 224) /\
  (forall e,
      crop_patch (B := demo_backend binary32) (640, 480) (xyxy thin_box) <> Raise e) /\
  (exists d,
      run_yolo_on_image (B := demo_backend_with thin_yolo demo_scores binary32)
        demo_files "/in/a.jpg" before = Ok [d] /\
      id d = "before-0" /\ severity d = "moderate").
Proof.
  split; [reflexivity|]. split; [reflexivity|]. split; [discriminate|].
  eexists. split; [vm_compute; reflexivity|]. split; reflexivity.
Qed.

(** A box that a library call does refuse goes the other way: a corner
    that is not a number cannot be rounded, and the exception of the crop
    is the outcome of [crop_patch]. *)
Example crop_patch_nan_corner :
  crop_patch (B := demo_backend binary32) (640, 480) (S754_nan, f32 20, f32 10, f32 80)
  = Raise (ValueError "cannot convert float NaN to integer").
Proof. reflexivity. Qed.

(** ** The endpoint *)

Section PathCleanup.
Context {B : Backend}.
Variable env : Env.

Lemma cleanup_path_spec (p : option string) (st : State) :
  exists st',
    cleanup_path env p st = (Ok tt, st') /\
    before_path st' = before_path st /\
    after_path st' = after_path st /\
    (exists evs, trace st' = (trace st ++ evs)%list /\
       forall q, p = Some q -> q <> "" ->
         In (EvExists q) evs /\ (is_Some (fs st !! q) -> In (EvRemove q) evs)) /\
    (forall q, p = Some q -> q <> "" ->
       fs st' !! q = None \/ is_Some (remove_error env q)) /\
    (forall q, fs st' !! q = fs st !! q \/ (p = Some q /\ fs st' !! q = None)).
Proof.
  destruct p as [q|]; cbn [cleanup_path].
  2:{ exists st. repeat split; auto.
      - exists []. rewrite app_nil_r. split; auto. discriminate.
      - discriminate. }
  destruct (String.eqb_spec q "") as [->|Hq].
  { exists st. repeat split; auto.
    - exists []. rewrite app_nil_r. split; auto. intros ? [= <-]. congruence.
    - intros ? [= <-]. congruence. }
  unfold os_path_exists, bind, log, get_state, ret. cbn.
  destruct (fs st !! q) as [data|] eqn:Eq.
  - rewrite bool_decide_eq_true_2 by eauto.
    unfold try_except, os_remove, bind, log, fail_if. cbn.
    destruct (remove_error env q) as [e|] eqn:Er; cbn.
    + eexists. split; [reflexivity|]. cbn. repeat split; auto.
      * exists [EvExists q; EvRemove q]. rewrite <- app_assoc. split; [reflexivity|].
        intros ? [= <-] _. cbn. auto.
      * intros ? [= <-] _. right. rewrite Er. eauto.
    + eexists. split; [reflexivity|]. cbn. repeat split; auto.
      * exists [EvExists q; EvRemove q]. rewrite <- app_assoc. split; [reflexivity|].
        intros ? [= <-] _. cbn. auto.
      * intros ? [= <-] _. left. apply lookup_delete_eq.
      * intros q'. destruct (decide (q = q')) as [<-|Hne].
        -- right. split; auto. apply lookup_delete_eq.
        -- left. apply lookup_delete_ne. auto.
  - rewrite bool_decide_eq_false_2 by (intros [? ?]; discriminate).
    eexists. split; [reflexivity|]. cbn. repeat split; auto.
    + exists [EvExists q]. split; [reflexivity|].
      intros ? [= <-] _. cbn. split; auto. intros [? ?]. congruence.
    + intros ? [= <-] _. auto.
Qed.
End PathCleanup.

Section HandlerFacts.
Context {B : Backend}.
Variable env : Env.

Lemma finally_clause_spec (st : State) :
  exists st',
    finally_clause env st = (Ok tt, st') /\
    (exists evs, trace st' = (trace st ++ evs)%list /\
       forall q, before_path st = Some q \/ after_path st = Some q -> q <> "" ->
         In (EvExists q) evs /\ (is_Some (fs st !! q) -> In (EvRemove q) evs)) /\
    (forall q, before_path st = Some q \/ after_path st = Some q -> q <> "" ->
       fs st' !! q = None \/ is_Some (remove_error env q)) /\
    (forall q, fs st' !! q = fs st !! q \/
       ((before_path st = Some q \/ after_path st = Some q) /\ fs st' !! q = None)).
Proof.
  unfold finally_clause, bind, get_state. cbv beta iota.
  destruct (cleanup_path_spec env (before_path st) st)
    as (st1 & E1 & Hb1 & Ha1 & (ev1 & T1 & V1) & G1 & K1).
  destruct (cleanup_path_spec env (after_path st) st1)
    as (st2 & E2 & Hb2 & Ha2 & (ev2 & T2 & V2) & G2 & K2).
  rewrite E1, E2. exists st2. split; [reflexivity|]. split; [|split].
  - exists (ev1 ++ ev2)%list. rewrite T2, T1, <- app_assoc. split; [reflexivity|].
    intros q [Hq|Hq] Hne.
    + destruct (V1 q Hq Hne) as [X R]. split.
      * apply in_or_app. auto.
      * intros Hs. apply in_or_app. auto.
    + destruct (V2 q Hq Hne) as [X R]. split.
      * apply in_or_app. auto.
      * intros Hs. apply in_or_app.
        destruct (K1 q) as [Same | [Hq' _]].
        -- right. apply R. rewrite Same. exact Hs.
        -- left. apply (V1 q Hq' Hne). exact Hs.
  - intros q [Hq|Hq] Hne.
    + destruct (G1 q Hq Hne) as [Gone | Err]; [|auto].
      left. destruct (K2 q) as [Same | [_ N]]; [congruence | exact N].
    + apply (G2 q Hq Hne).
  - intros q. destruct (K2 q) as [S2 | [P2 N2]]; [|auto].
    destruct (K1 q) as [S1 | [P1 N1]]; [left; congruence | right].
    split; [auto | congruence].
Qed.

Lemma tmp_before_eq before :
  os_path_join "/tmp" ("before_" +:+ fst (uuid4_hex env) +:+ suffix_of before)
  = tmp_before env before.
Proof. reflexivity. Qed.

Lemma tmp_after_eq after :
  os_path_join "/tmp" ("after_" +:+ snd (uuid4_hex env) +:+ suffix_of after)
  = tmp_after env after.
Proof. reflexivity. Qed.

Lemma try_body_paths before after files r st :
  try_body env before after (initial_state files) = (r, st) ->
  match makedirs_error env with
  | None => before_path st = Some (tmp_before env before) /\
            after_path st = Some (tmp_after env after)
  | Some e => before_path st = None /\ after_path st = None /\ fs st = files /\ r = Raise e
  end.
Proof.
  unfold try_body. rewrite tmp_before_eq, tmp_after_eq.
  unfold os_makedirs, bind at 1 2, log, fail_if. cbn.
  destruct (makedirs_error env) as [e|]; cbn.
  - intros [= <- <-]. auto.
  - unfold save_upload, open_wb, file_write, bind, log, fail_if, lift, get_state, set_fs,
      set_before_path, set_after_path, ret, raise. cbn.
    repeat (match goal with
            | |- context [match ?x with _ => _ end] =>
                match x with
                | open_error _ _ => destruct x
                | write_error _ _ => destruct x
                | read _ => destruct x
                end
            end; cbn);
    intros [= <- <-]; auto.
Qed.
End HandlerFacts.

Section EndpointTheorem.
Context {B : Backend}.

Lemma serve_eq env files before after :
  exists st,
    serve env files before after
    = (respond (fst (try_except (try_body env before after) except_handler
                       (initial_state files))), st) /\
    finally_clause env
      (snd (try_except (try_body env before after) except_handler (initial_state files)))
    = (Ok tt, st).
Proof.
  unfold serve, analyze_endpoint, try_finally.
  destruct (try_except _ _ _) as [r1 st1]. cbn [fst snd].
  destruct (finally_clause_spec env st1) as (st2 & Ef & _).
  rewrite Ef. eauto.
Qed.

(** C4. If the body of the handler raises at any point (while the
    uploads are written or in the analysis, that is in detection, cropping
    or classification), the response is status 500 with the detail
    "AI analysis failed." and nothing else; otherwise it is the analysis
    result.  In both cases the [finally] clause then goes through the
    temporary paths assigned so far (both, once the directory exists):
    it tests each for existence, calls [os.remove] on each that exists,
    and leaves a file behind only where [os.remove] failed; if no path was
    assigned, no file was written.  What [os.remove] does never changes
    the response. *)
Theorem C4_endpoint_failure_and_cleanup env files before after :
  let tried := try_body env before after (initial_state files) in
  let caught := try_except (try_body env before after) except_handler (initial_state files) in
  let served := serve env files before after in
  match fst tried with
  | Ok body => fst served = Response200 body
  | Raise _ => fst served = ResponseError 500 "AI analysis failed."
  end /\
  (forall p,
      before_path (snd caught) = Some p \/ after_path (snd caught) = Some p ->
      In (EvExists p) (trace (snd served)) /\
      (is_Some (fs (snd caught) !! p) -> In (EvRemove p) (trace (snd served))) /\
      (fs (snd served) !! p = None \/ is_Some (remove_error env p))) /\
  match makedirs_error env with
  | None => before_path (snd caught) = Some (tmp_before env before) /\
            after_path (snd caught) = Some (tmp_after env after)
  | Some _ => fs (snd served) = files
  end /\
  (forall re, fst (serve (with_remove_error env re) files before after) = fst served).
Proof.
  intros tried caught served.
  destruct (serve_eq env files before after) as (st & Es & Ef).
  fold caught in Es, Ef. fold served in Es.
  destruct tried as [r0 st0] eqn:Etried.
  pose proof (try_body_paths env before after files r0 st0 Etried) as Hpaths.
  assert (Ecaught : fst caught = match r0 with
                                 | Ok body => Ok body
                                 | Raise _ => Raise (HTTPException 500 "AI analysis failed.")
                                 end /\
                    before_path (snd caught) = before_path st0 /\
                    after_path (snd caught) = after_path st0 /\
                    fs (snd caught) = fs st0).
  { subst caught. unfold try_except. fold tried. rewrite Etried.
    destruct r0; cbn; auto. }
  destruct Ecaught as (Er & Eb & Ea & Efs).
  destruct (finally_clause_spec env (snd caught)) as (st' & Ef' & (evs & Et & V) & G & K).
  rewrite Ef in Ef'. injection Ef' as <-.
  rewrite Es. cbn [fst snd]. split; [|split; [|split]].
  - rewrite Er. destruct r0; reflexivity.
  - intros p Hp.
    assert (Hne : p <> "").
    { rewrite Eb, Ea in Hp. destruct (makedirs_error env).
      - destruct Hpaths as (Hb & Ha & _). rewrite Hb, Ha in Hp.
        destruct Hp; discriminate.
      - destruct Hpaths as (Hb & Ha). rewrite Hb, Ha in Hp.
        destruct Hp as [[= <-]|[= <-]]; discriminate. }
    destruct (V p Hp Hne) as [X R]. rewrite Et. split; [|split].
    + apply in_or_app. auto.
    + intros Hs. apply in_or_app. auto.
    + apply (G p Hp Hne).
  - rewrite Eb, Ea. destruct (makedirs_error env); [|exact Hpaths].
    destruct Hpaths as (Hb & Ha & Hf & _).
    apply map_eq. intros q. destruct (K q) as [Same | [Hq _]].
    + rewrite Same, Efs, Hf. reflexivity.
    + rewrite Eb, Ea, Hb, Ha in Hq. destruct Hq; discriminate.
  - intros re.
    destruct (serve_eq (with_remove_error env re) files before after) as (st'' & Es' & _).
    rewrite Es'. reflexivity.
Qed.
End EndpointTheorem.

Example serve_when_write_and_remove_fail :
  let served := serve (B := demo_backend binary32) failing_env ∅
                  (demo_upload "a.png" [Byte.x01]) (demo_upload "b" [Byte.x02]) in
  fst served = ResponseError 500 "AI analysis failed." /\
  trace (snd served) =
    [EvMakedirs "/tmp";
     EvOpen "/tmp/before_0a.png"; EvWrite "/tmp/before_0a.png";
     EvOpen "/tmp/after_0b.jpg"; EvWrite "/tmp/after_0b.jpg";
     EvPrint (PyErr "OSError" "No space left on device");
     EvExists "/tmp/before_0a.png"; EvRemove "/tmp/before_0a.png";
     EvExists "/tmp/after_0b.jpg"; EvRemove "/tmp/after_0b.jpg"] /\
  fs (snd served) !! "/tmp/before_0a.png" = Some [Byte.x01] /\
  fs (snd served) !! "/tmp/after_0b.jpg" = None.
Proof. vm_compute. auto. Qed.

(** ** Floating point: how far rounding moves a value *)

Section FloatFacts.

Lemma pow2_pos e : (0 < pow2 e)%Q.
Proof. apply Qpower_0_lt. reflexivity. Qed.

Lemma pow2_add a b : (pow2 (a + b) == pow2 a * pow2 b)%Q.
Proof. apply Qpower_plus. discriminate. Qed.

Lemma pow2_1 : (pow2 1 == 2)%Q.
Proof. reflexivity. Qed.

Lemma pow2_succ a : (pow2 (a + 1) == 2 * pow2 a)%Q.
Proof. rewrite pow2_add, pow2_1. ring. Qed.

Lemma pow2_pred a : (pow2 (a - 1) == pow2 a * (1 # 2))%Q.
Proof.
  pose proof (pow2_succ (a - 1)) as H. replace (a - 1 + 1) with a in H by lia.
  rewrite H. field.
Qed.

Lemma pow2_le a b : a <= b -> (pow2 a <= pow2 b)%Q.
Proof. intros H. apply Qpower_le_compat_l; [exact H | discriminate]. Qed.

Lemma pow2_inject e : 0 <= e -> (pow2 e == inject_Z (2 ^ e))%Q.
Proof. intros H. unfold pow2. rewrite Zpower_Qpower by exact H. reflexivity. Qed.

Lemma digits2_pos_bounds p :
  2 ^ (Z.pos (digits2_pos p) - 1) <= Z.pos p < 2 ^ Z.pos (digits2_pos p).
Proof.
  induction p as [p IH|p IH|]; cbn [digits2_pos].
  - rewrite Pos2Z.inj_succ. replace (Z.succ (Z.pos (digits2_pos p)) - 1) with (Z.succ (Z.pos (digits2_pos p) - 1)) by lia.
    rewrite !Z.pow_succ_r by lia. lia.
  - rewrite Pos2Z.inj_succ. replace (Z.succ (Z.pos (digits2_pos p)) - 1) with (Z.succ (Z.pos (digits2_pos p) - 1)) by lia.
    rewrite !Z.pow_succ_r by lia. lia.
  - cbn. lia.
Qed.

Lemma Zdigits2_bounds m :
  0 < m -> 2 ^ (Zdigits2 m - 1) <= m < 2 ^ Zdigits2 m.
Proof. destruct m as [|p|p]; try lia. intros _. apply digits2_pos_bounds. Qed.

Lemma Zdigits2_nonneg m : 0 <= Zdigits2 m.
Proof. destruct m; cbn; lia. Qed.

Lemma Zdigits2_pos m : 0 < m -> 0 < Zdigits2 m.
Proof. destruct m; cbn; lia. Qed.

(** [m < 2^k] bounds the number of digits *)
Lemma Zdigits2_le m k : 0 <= m < 2 ^ k -> 0 <= k -> Zdigits2 m <= k.
Proof.
  intros [H0 Hk] Hk0. destruct (Z.eq_dec m 0) as [->|Hm]; [cbn; lia|].
  pose proof (Zdigits2_bounds m ltac:(lia)) as [Hl _].
  destruct (Z_le_gt_dec (Zdigits2 m) k) as [|Hgt]; [auto|exfalso].
  assert (2 ^ k <= 2 ^ (Zdigits2 m - 1)) by (apply Z.pow_le_mono_r; lia). lia.
Qed.

Lemma Zdigits2_ge m k : 2 ^ k <= m -> 0 <= k -> k + 1 <= Zdigits2 m.
Proof.
  intros Hk Hk0. assert (0 < m) by (pose proof (Z.pow_pos_nonneg 2 k); lia).
  pose proof (Zdigits2_bounds m ltac:(lia)) as [_ Hu].
  destruct (Z_le_gt_dec (k + 1) (Zdigits2 m)) as [|Hgt]; [auto|exfalso].
  assert (2 ^ Zdigits2 m <= 2 ^ k) by (apply Z.pow_le_mono_r; lia). lia.
Qed.

Local Open Scope Q_scope.

Lemma inject_Z_xO p : inject_Z (Z.pos p~0) == 2 * inject_Z (Z.pos p).
Proof. rewrite Pos2Z.inj_xO, inject_Z_mult. reflexivity. Qed.

Lemma inject_Z_xI p : inject_Z (Z.pos p~1) == 2 * inject_Z (Z.pos p) + 1.
Proof. rewrite Pos2Z.inj_xI, inject_Z_plus, inject_Z_mult. reflexivity. Qed.

Lemma located_bounds mrs t :
  located mrs t -> inject_Z (shr_m mrs) <= t /\ t < inject_Z (shr_m mrs) + 1.
Proof.
  unfold located. destruct (shr_r mrs), (shr_s mrs); intros H; lra.
Qed.

Lemma shr_1_located mrs t :
  (0 <= shr_m mrs)%Z -> located mrs t ->
  (0 <= shr_m (shr_1 mrs))%Z /\ located (shr_1 mrs) (t * (1 # 2)).
Proof.
  destruct mrs as [m r s]. cbn [shr_m]. intros Hm H.
  destruct m as [|[p|p|]|p]; try lia; unfold located in *; cbn [shr_1 shr_m shr_r shr_s] in *.
  - split; [lia|]. change (inject_Z 0) with 0 in *.
    destruct r, s; cbn [orb]; lra.
  - split; [lia|]. pose proof (inject_Z_xI p) as E.
    destruct r, s; cbn [orb]; lra.
  - split; [lia|]. pose proof (inject_Z_xO p) as E.
    destruct r, s; cbn [orb]; lra.
  - split; [lia|]. change (inject_Z 1) with 1 in H. change (inject_Z 0) with 0.
    destruct r, s; cbn [orb]; lra.
Qed.

Lemma iter_pos_ind {A} (f : A -> A) (P : Z -> A -> Prop) :
  (forall k x, P k x -> P (k + 1)%Z (f x)) ->
  forall p k x, P k x -> P (k + Z.pos p)%Z (SpecFloat.iter_pos f p x).
Proof.
  intros Hf. induction p as [p IH|p IH|]; intros k x Hx; cbn [SpecFloat.iter_pos].
  - replace (k + Z.pos p~1)%Z with (k + 1 + Z.pos p + Z.pos p)%Z by lia. auto.
  - replace (k + Z.pos p~0)%Z with (k + Z.pos p + Z.pos p)%Z by lia. auto.
  - auto.
Qed.

Lemma located_ext mrs t t' : t == t' -> located mrs t -> located mrs t'.
Proof.
  intros E. unfold located. destruct (shr_r mrs), (shr_s mrs); rewrite E; auto.
Qed.

Lemma pow2_opp_succ k : pow2 (- (k + 1)) == pow2 (- k) * (1 # 2).
Proof.
  replace (- (k + 1))%Z with (- k - 1)%Z by lia. rewrite pow2_pred. reflexivity.
Qed.

Lemma shr_located mrs e n t :
  (0 <= n)%Z -> (0 <= shr_m mrs)%Z -> located mrs t ->
  (0 <= shr_m (fst (shr mrs e n)))%Z /\
  located (fst (shr mrs e n)) (t * pow2 (- n)) /\
  snd (shr mrs e n) = (e + n)%Z.
Proof.
  intros Hn Hm H. destruct n as [|p|p]; try lia; cbn [shr fst snd].
  - split; [exact Hm|]. split; [|lia].
    eapply located_ext; [|exact H]. change (pow2 (- 0)) with 1. ring.
  - pose proof (iter_pos_ind shr_1
      (fun k x => (0 <= shr_m x)%Z /\ located x (t * pow2 (- k)))) as I.
    cbv beta in I.
    assert (Step : forall k x,
               (0 <= shr_m x)%Z /\ located x (t * pow2 (- k)) ->
               (0 <= shr_m (shr_1 x))%Z /\ located (shr_1 x) (t * pow2 (- (k + 1)))).
    { intros k x [Hx Lx]. destruct (shr_1_located x _ Hx Lx) as [Hx' Lx'].
      split; [exact Hx'|].
      eapply located_ext; [|exact Lx']. rewrite pow2_opp_succ. ring. }
    destruct (I Step p 0%Z mrs) as [A C].
    + split; [exact Hm|].
      eapply located_ext; [|exact H]. change (pow2 (- 0)) with 1. ring.
    + auto.
Qed.

Lemma shr_m_of_loc m l : shr_m (shr_record_of_loc m l) = m.
Proof. destruct l as [|[]]; reflexivity. Qed.

Lemma round_nearest_even_located mrs t :
  located mrs t ->
  (shr_m mrs <= round_nearest_even (shr_m mrs) (loc_of_shr_record mrs) <= shr_m mrs + 1)%Z /\
  inject_Z (round_nearest_even (shr_m mrs) (loc_of_shr_record mrs)) - (1 # 2) <= t /\
  t <= inject_Z (round_nearest_even (shr_m mrs) (loc_of_shr_record mrs)) + (1 # 2).
Proof.
  destruct mrs as [m r s]. unfold located. cbn [shr_m shr_r shr_s].
  assert (E1 : inject_Z (m + 1) == inject_Z m + 1)
    by (rewrite inject_Z_plus; reflexivity).
  destruct r, s; cbn; zfold; intros H.
  - split; [clear; lia|]. lra.
  - destruct (Z.even m); (split; [clear; lia|]); lra.
  - split; [clear; lia|]. lra.
  - split; [clear; lia|]. lra.
Qed.

Lemma pow2_digits mx : (0 <= mx)%Z -> inject_Z mx + 1 <= pow2 (Zdigits2 mx).
Proof.
  intros H. destruct (Z.eq_dec mx 0%Z) as [->|Hne].
  - change (pow2 (Zdigits2 0)) with 1. change (inject_Z 0) with 0. lra.
  - pose proof (Zdigits2_bounds mx ltac:(lia)) as [_ Hu].
    rewrite pow2_inject by apply Zdigits2_nonneg.
    replace 1 with (inject_Z 1) by reflexivity. rewrite <- inject_Z_plus.
    rewrite <- Zle_Qle. lia.
Qed.

Lemma pow2_digits_lower mx : (0 < mx)%Z -> pow2 (Zdigits2 mx - 1) <= inject_Z mx.
Proof.
  intros H. pose proof (Zdigits2_bounds mx H) as [Hl _].
  pose proof (Zdigits2_pos mx H).
  rewrite pow2_inject by lia. rewrite <- Zle_Qle. lia.
Qed.

Lemma shr_nonpos mrs e n : (n <= 0)%Z -> shr mrs e n = (mrs, e).
Proof. destruct n; intros H; try reflexivity. lia. Qed.

Lemma Pos_iter_xO mx d : Z.pos (Pos.iter xO mx d) = (Z.pos mx * 2 ^ Z.pos d)%Z.
Proof.
  induction d as [|d IH] using Pos.peano_ind.
  - cbn [Pos.iter]. rewrite Pos2Z.inj_xO. change (2 ^ 1)%Z with 2%Z. lia.
  - rewrite Pos.iter_succ, Pos2Z.inj_xO, IH, Pos2Z.inj_succ, Z.pow_succ_r by lia. lia.
Qed.

Lemma shl_align_spec mx ex ex' :
  snd (shl_align mx ex ex') = Z.min ex ex' /\
  Z.pos (fst (shl_align mx ex ex')) = (Z.pos mx * 2 ^ (ex - Z.min ex ex'))%Z.
Proof.
  unfold shl_align. zfold. destruct (ex' - ex)%Z as [|d|d] eqn:Ed; cbn [fst snd].
  - rewrite Z.min_l by lia. replace (ex - ex)%Z with 0%Z by lia. split; lia.
  - rewrite Z.min_l by lia. replace (ex - ex)%Z with 0%Z by lia. split; lia.
  - rewrite Z.min_r by lia. split; [reflexivity|].
    rewrite Pos_iter_xO. f_equal. f_equal. lia.
Qed.

Lemma Zdigits2_shift m k :
  (0 < m)%Z -> (0 <= k)%Z -> Zdigits2 (m * 2 ^ k) = (Zdigits2 m + k)%Z.
Proof.
  intros Hm Hk. pose proof (Zdigits2_bounds m Hm) as [Hl Hu].
  pose proof (Zdigits2_pos m Hm) as Hd.
  pose proof (Z.pow_pos_nonneg 2 k ltac:(lia) Hk) as Hp.
  apply Z.le_antisymm.
  - apply Zdigits2_le; [|lia]. rewrite Z.pow_add_r by lia. nia.
  - replace (Zdigits2 m + k)%Z with (Zdigits2 m - 1 + k + 1)%Z by lia.
    apply Zdigits2_ge; [|lia]. rewrite Z.pow_add_r by lia. nia.
Qed.

(** The location computed from a remainder says where the quotient lies. *)
Lemma new_location_located m2 r q t :
  (0 < m2)%Z -> (0 <= r < m2)%Z ->
  (t - inject_Z q) * inject_Z m2 == inject_Z r ->
  located (shr_record_of_loc q (new_location m2 r)) t.
Proof.
  intros Hm2 Hr Ht.
  assert (HM : 0 < inject_Z m2) by (replace 0 with (inject_Z 0) by reflexivity; rewrite <- Zlt_Qlt; lia).
  assert (HR : 0 <= inject_Z r) by (replace 0 with (inject_Z 0) by reflexivity; rewrite <- Zle_Qle; lia).
  assert (Q2 : forall a, inject_Z (2 * a) == 2 * inject_Z a) by (intros; rewrite inject_Z_mult; reflexivity).
  assert (HRM : inject_Z r < inject_Z m2) by (rewrite <- Zlt_Qlt; lia).
  unfold new_location.
  destruct (IntDef.Z.even m2) eqn:Heven;
    unfold new_location_even, new_location_odd; zfold;
    (destruct (Z.eqb_spec r 0) as [->|Hr0];
     [ assert (t - inject_Z q == 0)
         by (change (inject_Z 0) with 0 in Ht; destruct (Qmult_integral _ _ Ht); [auto|lra]);
       unfold located; cbn; lra |]).
  - destruct (Z.compare_spec (2 * r) m2) as [He|Hl|Hg]; unfold located; cbn.
    + assert (H2 : 2 * inject_Z r == inject_Z m2) by (rewrite <- Q2, He; reflexivity).
      assert (H0 : (t - inject_Z q - (1 # 2)) * inject_Z m2 == 0) by lra.
      destruct (Qmult_integral _ _ H0); lra.
    + assert (2 * inject_Z r < inject_Z m2) by (rewrite <- Q2, <- Zlt_Qlt; lia).
      assert (0 < inject_Z r) by (replace 0 with (inject_Z 0) by reflexivity; rewrite <- Zlt_Qlt; lia).
      split; nra.
    + assert (inject_Z m2 < 2 * inject_Z r) by (rewrite <- Q2, <- Zlt_Qlt; lia).
      split; nra.
  - assert (Hodd : Z.odd m2 = true) by (rewrite <- Z.negb_even, Heven; reflexivity).
    apply Z.odd_spec in Hodd as [k Hk].
    assert (0 < inject_Z r) by (replace 0 with (inject_Z 0) by reflexivity; rewrite <- Zlt_Qlt; lia).
    destruct (Z.compare_spec (2 * r + 1) m2) as [He|Hl|Hg]; unfold located; cbn.
    + assert (2 * inject_Z r < inject_Z m2) by (rewrite <- Q2, <- Zlt_Qlt; lia).
      split; nra.
    + assert (2 * inject_Z r < inject_Z m2) by (rewrite <- Q2, <- Zlt_Qlt; lia).
      split; nra.
    + assert (inject_Z m2 < 2 * inject_Z r) by (rewrite <- Q2, <- Zlt_Qlt; lia).
      split; nra.
Qed.

Lemma scaled_value m e ez :
  (ez <= e)%Z -> inject_Z (m * 2 ^ (e - ez)) * pow2 ez == inject_Z m * pow2 e.
Proof.
  intros H. rewrite inject_Z_mult, <- pow2_inject by lia.
  rewrite <- Qmult_assoc, <- pow2_add. replace (e - ez + ez)%Z with e by lia. reflexivity.
Qed.

Lemma has_value_SF2Q x q :
  has_value x q -> exists q', SF2Q x = Some q' /\ q' == q.
Proof.
  destruct x as [s|s| |[] m e]; cbn; intros H; try contradiction.
  - exists 0. split; [reflexivity|]. symmetry. exact H.
  - eexists. split; [reflexivity|]. rewrite H. unfold pow2. ring.
Qed.

Lemma SF2Q_has_value x q : SF2Q x = Some q -> 0 <= q -> has_value x q.
Proof.
  destruct x as [s|s| |[] m e]; cbn; intros [= <-] Hq; try reflexivity.
  exfalso. pose proof (pow2_pos e) as P. unfold pow2 in P.
    assert (0 < inject_Z (Z.pos m)) by (replace 0 with (inject_Z 0) by reflexivity; rewrite <- Zlt_Qlt; lia).
    nra.
Qed.

Lemma has_value_nonneg x q : has_value x q -> 0 <= q.
Proof.
  destruct x as [s|s| |[] m e]; cbn; intros H; try contradiction.
  - lra.
  - pose proof (pow2_pos e).
    assert (0 < inject_Z (Z.pos m)) by (replace 0 with (inject_Z 0) by reflexivity; rewrite <- Zlt_Qlt; lia).
    nra.
Qed.

Section Rounding.
Variables prec emax : Z.
Hypothesis Hprec : (0 < prec)%Z.
Hypothesis Hemax : (2 <= emax)%Z.

Lemma fexp_eq e : fexp prec emax e = Z.max (e - prec) (3 - emax - prec).
Proof. reflexivity. Qed.

Lemma fexp_ge_emin e : (3 - emax - prec <= fexp prec emax e)%Z.
Proof. rewrite fexp_eq. lia. Qed.

Lemma binary_round_aux_correct mx ex lx t :
  (0 <= mx)%Z ->
  located (shr_record_of_loc mx lx) t ->
  (ex <= fexp prec emax (Zdigits2 mx + ex))%Z ->
  exists q,
    t * pow2 ex - pow2 (fexp prec emax (Zdigits2 mx + ex) - 1) <= q /\
    q <= t * pow2 ex + pow2 (fexp prec emax (Zdigits2 mx + ex) - 1) /\
    0 <= q /\
    match binary_round_aux prec emax false mx ex lx with
    | S754_zero false => q == 0
    | S754_finite false m e => q == inject_Z (Z.pos m) * pow2 e
    | S754_infinity false => pow2 (emax - 1) <= t * pow2 ex
    | _ => False
    end.
Proof.
  intros Hmx Hloc Hex.
  set (E := fexp prec emax (Zdigits2 mx + ex)) in *.
  unfold binary_round_aux, shr_fexp. fold E.
  destruct (shr_located (shr_record_of_loc mx lx) ex (E - ex) t)
    as (Hm' & Hloc' & He'); [lia | rewrite shr_m_of_loc; exact Hmx | exact Hloc |].
  destruct (shr (shr_record_of_loc mx lx) ex (E - ex)) as [mrs' e'].
  cbn [fst snd] in Hm', Hloc', He'. replace (ex + (E - ex))%Z with E in He' by lia. subst e'.
  set (t' := t * pow2 (- (E - ex))) in *.
  assert (Ev : t * pow2 ex == t' * pow2 E).
  { unfold t'. rewrite <- Qmult_assoc, <- pow2_add.
    replace (- (E - ex) + E)%Z with ex by lia. reflexivity. }
  destruct (round_nearest_even_located mrs' t' Hloc') as (Hr & Hlo & Hhi).
  set (m'' := round_nearest_even (shr_m mrs') (loc_of_shr_record mrs')) in *.
  pose proof (located_bounds _ _ Hloc') as [Hb1 Hb2].
  pose proof (located_bounds _ _ Hloc) as [Hc1 Hc2]. rewrite shr_m_of_loc in Hc1, Hc2.
  pose proof (pow2_pos E) as HE. pose proof (pow2_pred E) as HE1.
  (* the shifted mantissa has at most [prec] digits *)
  assert (Hm'lt : (shr_m mrs' < 2 ^ prec)%Z).
  { rewrite Zlt_Qlt, <- pow2_inject by lia.
    pose proof (pow2_digits mx Hmx) as Hd.
    assert (Ht' : t' < pow2 (Zdigits2 mx - (E - ex))).
    { unfold t'. replace (Zdigits2 mx - (E - ex))%Z with (Zdigits2 mx + - (E - ex))%Z by lia.
      rewrite pow2_add. pose proof (pow2_pos (- (E - ex))). nra. }
    assert (pow2 (Zdigits2 mx - (E - ex)) <= pow2 prec).
    { apply pow2_le. unfold E. rewrite fexp_eq. lia. }
    lra. }
  exists (inject_Z m'' * pow2 E).
  assert (Hm''0 : (0 <= m'')%Z) by lia.
  assert (Hq0 : 0 <= inject_Z m'' * pow2 E).
  { apply Qmult_le_0_compat; [|lra]. replace 0 with (inject_Z 0) by reflexivity.
    rewrite <- Zle_Qle. lia. }
  split; [rewrite Ev; nra|]. split; [rewrite Ev; nra|]. split; [exact Hq0|].
  (* an overflow needs a large value *)
  assert (Hov : (emax - prec <= E)%Z -> pow2 (emax - 1) <= t * pow2 ex).
  { intros HEbig. unfold E in HEbig. rewrite fexp_eq in HEbig.
    assert (Hd : (emax <= Zdigits2 mx + ex)%Z) by lia.
    assert (Hpos : (0 < mx)%Z).
    { destruct (Z.eq_dec mx 0%Z) as [->|]; [|lia]. exfalso.
      unfold E in Hex. rewrite fexp_eq in Hex. change (Zdigits2 0) with 0%Z in *. lia. }
    pose proof (pow2_digits_lower mx Hpos) as Hl.
    assert (pow2 (emax - 1) <= pow2 (Zdigits2 mx - 1 + ex)) by (apply pow2_le; lia).
    rewrite pow2_add in H. pose proof (pow2_pos ex). pose proof (pow2_pos (Zdigits2 mx - 1)).
    nra. }
  zfold.
  destruct (Z_lt_le_dec m'' (2 ^ prec)) as [Hlt|Hge].
  - (* no carry: the mantissa still fits *)
    assert (Hd'' : (Zdigits2 m'' <= prec)%Z) by (apply Zdigits2_le; lia).
    rewrite shr_nonpos by (rewrite fexp_eq; pose proof (fexp_ge_emin (Zdigits2 mx + ex)); fold E in H; lia).
    cbn [shr_record_of_loc shr_m].
    destruct m'' as [|p|p] eqn:Em; [| |lia].
    + change (inject_Z 0) with 0. ring.
    + destruct (Z.leb_spec E (emax - prec)); [reflexivity|]. apply Hov. lia.
  - (* carry: the mantissa is [2^prec] and loses its last bit, a zero *)
    assert (Em : m'' = (2 ^ prec)%Z) by lia.
    assert (Hd'' : Zdigits2 m'' = (prec + 1)%Z).
    { apply Z.le_antisymm.
      - apply Zdigits2_le; [|lia]. rewrite Em, Z.pow_add_r by lia. lia.
      - apply Zdigits2_ge; lia. }
    rewrite Hd''.
    replace (fexp prec emax (prec + 1 + E) - E)%Z with 1%Z
      by (rewrite fexp_eq; pose proof (fexp_ge_emin (Zdigits2 mx + ex)); fold E in H; lia).
    assert (Ehalf : exists p0, (2 ^ (prec - 1))%Z = Z.pos p0).
    { pose proof (Z.pow_pos_nonneg 2 (prec - 1) ltac:(lia) ltac:(lia)).
      destruct (2 ^ (prec - 1))%Z as [|p0|p0]; try lia. eauto. }
    destruct Ehalf as [p0 Ep0].
    assert (Em' : m'' = Z.pos p0~0).
    { rewrite Em. replace prec with (prec - 1 + 1)%Z at 1 by lia.
      rewrite Z.pow_add_r, Ep0 by lia. change (2 ^ 1)%Z with 2%Z. lia. }
    rewrite Em'. cbn [shr_record_of_loc shr SpecFloat.iter_pos shr_1 shr_m]. zfold.
    destruct (Z.leb_spec (E + 1) (emax - prec)).
    + rewrite inject_Z_xO, pow2_succ. ring.
    + apply Hov. lia.
Qed.

(** The same in relative terms: the result is within
    [v * 2^-prec + 2^(emin-1)] of the value [v] it rounds. *)
Lemma binary_round_aux_error mx ex lx t :
  (0 <= mx)%Z ->
  located (shr_record_of_loc mx lx) t ->
  (ex <= fexp prec emax (Zdigits2 mx + ex))%Z ->
  exists q,
    t * pow2 ex - (t * pow2 ex * pow2 (- prec) + pow2 (2 - emax - prec)) <= q /\
    q <= t * pow2 ex + (t * pow2 ex * pow2 (- prec) + pow2 (2 - emax - prec)) /\
    0 <= q /\
    match binary_round_aux prec emax false mx ex lx with
    | S754_zero false => q == 0
    | S754_finite false m e => q == inject_Z (Z.pos m) * pow2 e
    | S754_infinity false => pow2 (emax - 1) <= t * pow2 ex
    | _ => False
    end.
Proof.
  intros Hmx Hloc Hex.
  destruct (binary_round_aux_correct mx ex lx t Hmx Hloc Hex) as (q & Hlo & Hhi & Hq & Hm).
  exists q.
  pose proof (located_bounds _ _ Hloc) as [Hc1 _]. rewrite shr_m_of_loc in Hc1.
  assert (Ht0 : 0 <= t).
  { assert (0 <= inject_Z mx) by (replace 0 with (inject_Z 0) by reflexivity; rewrite <- Zle_Qle; lia).
    lra. }
  pose proof (pow2_pos ex) as Pex. pose proof (pow2_pos (- prec)) as Pp.
  pose proof (pow2_pos (2 - emax - prec)) as Pe.
  assert (Hv0 : 0 <= t * pow2 ex) by nra.
  assert (Hb : pow2 (fexp prec emax (Zdigits2 mx + ex) - 1)
               <= t * pow2 ex * pow2 (- prec) + pow2 (2 - emax - prec)).
  { rewrite fexp_eq in *.
    destruct (Z_le_gt_dec (Zdigits2 mx + ex - prec) (3 - emax - prec)) as [Hsub|Hnorm].
    - rewrite Z.max_r by lia. replace (3 - emax - prec - 1)%Z with (2 - emax - prec)%Z by lia.
      nra.
    - rewrite Z.max_l in * by lia.
      assert (Hpos : (0 < mx)%Z).
      { destruct (Z.eq_dec mx 0%Z) as [->|]; [|lia]. exfalso.
        change (Zdigits2 0) with 0%Z in *. lia. }
      pose proof (pow2_digits_lower mx Hpos) as Hl.
      replace (Zdigits2 mx + ex - prec - 1)%Z with (Zdigits2 mx - 1 + ex + - prec)%Z by lia.
      rewrite !pow2_add. pose proof (pow2_pos (Zdigits2 mx - 1)).
      assert (pow2 (Zdigits2 mx - 1) * pow2 ex <= t * pow2 ex) by nra.
      nra. }
  split; [lra|]. split; [lra|]. split; [exact Hq | exact Hm].
Qed.

(** Rounding the number [m * 2^e] to the format. *)
Lemma binary_round_error m e :
  exists q,
    inject_Z (Z.pos m) * pow2 e
      - (inject_Z (Z.pos m) * pow2 e * pow2 (- prec) + pow2 (2 - emax - prec)) <= q /\
    q <= inject_Z (Z.pos m) * pow2 e
      + (inject_Z (Z.pos m) * pow2 e * pow2 (- prec) + pow2 (2 - emax - prec)) /\
    0 <= q /\
    match binary_round prec emax false m e with
    | S754_zero false => q == 0
    | S754_finite false m' e' => q == inject_Z (Z.pos m') * pow2 e'
    | S754_infinity false => pow2 (emax - 1) <= inject_Z (Z.pos m) * pow2 e
    | _ => False
    end.
Proof.
  unfold binary_round. zfold.
  change (Z.pos (digits2_pos m)) with (Zdigits2 (Z.pos m)).
  set (ex' := fexp prec emax (Zdigits2 (Z.pos m) + e)).
  destruct (shl_align_spec m e ex') as [Hez Hmz].
  destruct (shl_align m e ex') as [mz ez]. cbn [fst snd] in Hez, Hmz.
  assert (Hd : (Zdigits2 (Z.pos mz) + ez = Zdigits2 (Z.pos m) + e)%Z).
  { rewrite Hmz, Zdigits2_shift by lia. lia. }
  assert (Ev : inject_Z (Z.pos mz) * pow2 ez == inject_Z (Z.pos m) * pow2 e).
  { rewrite Hmz, inject_Z_mult, <- pow2_inject by lia.
    rewrite <- Qmult_assoc, <- pow2_add. replace (e - Z.min e ex' + ez)%Z with e by lia.
    reflexivity. }
  destruct (binary_round_aux_error (Z.pos mz) ez loc_Exact (inject_Z (Z.pos mz)))
    as (q & Hlo & Hhi & Hq & Hm); [lia | reflexivity | rewrite Hd; fold ex'; lia |].
  exists q. rewrite Ev in Hlo, Hhi.
  split; [exact Hlo|]. split; [exact Hhi|]. split; [exact Hq|].
  destruct (binary_round_aux prec emax false (Z.pos mz) ez loc_Exact) as [[]|[]| |[] ? ?];
    try exact Hm. rewrite <- Ev. exact Hm.
Qed.

Lemma fexp_mono a b : (a <= b)%Z -> (fexp prec emax a <= fexp prec emax b)%Z.
Proof. rewrite !fexp_eq. lia. Qed.

(** The quotient of two positive floats: [v] is its exact value. *)
Lemma SFdiv_finite_error m1 e1 m2 e2 v :
  v * (inject_Z (Z.pos m2) * pow2 e2) == inject_Z (Z.pos m1) * pow2 e1 ->
  exists q,
    v - (v * pow2 (- prec) + pow2 (2 - emax - prec)) <= q /\
    q <= v + (v * pow2 (- prec) + pow2 (2 - emax - prec)) /\
    0 <= q /\
    match SFdiv prec emax (S754_finite false m1 e1) (S754_finite false m2 e2) with
    | S754_zero false => q == 0
    | S754_finite false m e => q == inject_Z (Z.pos m) * pow2 e
    | S754_infinity false => pow2 (emax - 1) <= v
    | _ => False
    end.
Proof.
  intros Hv. unfold SFdiv, SFdiv_core_binary. zfold. cbn [xorb].
  set (d1 := Zdigits2 (Z.pos m1)). set (d2 := Zdigits2 (Z.pos m2)).
  set (e' := Z.min (fexp prec emax (d1 + e1 - (d2 + e2))) (e1 - e2)).
  set (s := (e1 - e2 - e')%Z).
  assert (Hs : (0 <= s)%Z) by (unfold s, e'; lia).
  assert (Em' : match s with
                | Z.pos _ => Z.shiftl (Z.pos m1) s
                | 0%Z => Z.pos m1
                | Z.neg _ => 0%Z
                end = (Z.pos m1 * 2 ^ s)%Z).
  { destruct s as [|ps|ps] eqn:Es; [lia | | lia]. apply Z.shiftl_mul_pow2. lia. }
  rewrite Em'. clear Em'.
  pose proof (Z_div_mod (Z.pos m1 * 2 ^ s) (Z.pos m2) ltac:(lia)) as Hdm.
  destruct (Z.div_eucl (Z.pos m1 * 2 ^ s) (Z.pos m2)) as [q r]. destruct Hdm as [Hdm Hr].
  pose proof (Z.pow_pos_nonneg 2 s ltac:(lia) Hs) as Hps.
  assert (Hq : (0 <= q)%Z) by nia.
  pose proof (Zdigits2_bounds (Z.pos m1) ltac:(lia)) as [Hl1 Hu1]. fold d1 in Hl1, Hu1.
  pose proof (Zdigits2_bounds (Z.pos m2) ltac:(lia)) as [Hl2 Hu2]. fold d2 in Hl2, Hu2.
  pose proof (Zdigits2_pos (Z.pos m1) ltac:(lia)) as Hd1. fold d1 in Hd1.
  pose proof (Zdigits2_pos (Z.pos m2) ltac:(lia)) as Hd2. fold d2 in Hd2.
  (* the quotient has enough digits *)
  assert (Hdq : (d1 - d2 + s <= Zdigits2 q)%Z).
  { destruct (Z_lt_le_dec (d1 - 1 + s - d2) 0) as [Hk|Hk].
    - pose proof (Zdigits2_nonneg q). lia.
    - replace (d1 - d2 + s)%Z with (d1 - 1 + s - d2 + 1)%Z by lia.
      apply Zdigits2_ge; [|lia].
      assert (Hpow : (2 ^ (d1 - 1 + s - d2) * 2 ^ d2 = 2 ^ (d1 - 1) * 2 ^ s)%Z).
      { rewrite <- !Z.pow_add_r by lia. f_equal. lia. }
      pose proof (Z.pow_pos_nonneg 2 (d1 - 1 + s - d2) ltac:(lia) Hk).
      nia. }
  assert (Hex : (e' <= fexp prec emax (Zdigits2 q + e'))%Z).
  { transitivity (fexp prec emax (d1 + e1 - (d2 + e2))); [unfold e'; lia|].
    apply fexp_mono. unfold s in Hdq. lia. }
  set (t := v * pow2 (- e')).
  assert (Et : t * pow2 e' == v).
  { unfold t. rewrite <- Qmult_assoc, <- pow2_add. replace (- e' + e')%Z with 0%Z by lia.
    change (pow2 0) with 1. ring. }
  assert (Hloc : located (shr_record_of_loc q (new_location (Z.pos m2) r)) t).
  { apply new_location_located; [lia | exact Hr |].
    assert (Ht : t * inject_Z (Z.pos m2) == inject_Z (Z.pos m1 * 2 ^ s)).
    { rewrite inject_Z_mult, <- pow2_inject by exact Hs.
      unfold t, s. replace (e1 - e2 - e')%Z with (e1 + (- e2 + - e'))%Z by lia.
      rewrite !pow2_add.
      pose proof (pow2_pos e2) as P2.
      assert (E2 : pow2 e2 * pow2 (- e2) == 1).
      { rewrite <- pow2_add. replace (e2 + - e2)%Z with 0%Z by lia. reflexivity. }
      transitivity (v * (inject_Z (Z.pos m2) * pow2 e2) * pow2 (- e2) * pow2 (- e')).
      - transitivity (v * inject_Z (Z.pos m2) * (pow2 e2 * pow2 (- e2)) * pow2 (- e')); [|ring].
        rewrite E2. ring.
      - rewrite Hv. ring. }
    rewrite Hdm, inject_Z_plus, inject_Z_mult in Ht. lra. }
  destruct (binary_round_aux_error q e' (new_location (Z.pos m2) r) t Hq Hloc Hex)
    as (q' & Hlo & Hhi & Hq' & Hm).
  exists q'. rewrite Et in Hlo, Hhi.
  split; [exact Hlo|]. split; [exact Hhi|]. split; [exact Hq'|].
  destruct (binary_round_aux prec emax false q e' (new_location (Z.pos m2) r))
    as [[]|[]| |[] ? ?]; try exact Hm. rewrite <- Et. exact Hm.
Qed.

(** A positive [int] as a float. *)
Lemma binary_normalize_pos_error n :
  (0 < n)%Z ->
  inject_Z n < pow2 (emax - 1) ->
  exists q,
    inject_Z n - (inject_Z n * pow2 (- prec) + pow2 (2 - emax - prec)) <= q /\
    q <= inject_Z n + (inject_Z n * pow2 (- prec) + pow2 (2 - emax - prec)) /\
    has_value (binary_normalize prec emax n 0 false) q.
Proof.
  intros Hn Hbig. destruct n as [|m|m]; try lia. cbn [binary_normalize].
  destruct (binary_round_error m 0) as (q & Hlo & Hhi & Hq & Hm).
  change (pow2 0) with 1 in *. rewrite !Qmult_1_r in Hlo, Hhi.
  exists q. split; [exact Hlo|]. split; [exact Hhi|].
  unfold has_value.
  destruct (binary_round prec emax false m 0) as [[]|[]| |[] ? ?]; try contradiction.
  - exact Hm.
  - lra.
  - exact Hm.
Qed.

(** A non-negative float divided by a positive one, where the quotient
    does not overflow. *)
Lemma SFdiv_error a b qa qb v :
  has_value a qa -> has_value b qb -> 0 < qb ->
  v * qb == qa ->
  v < pow2 (emax - 1) ->
  exists q,
    v - (v * pow2 (- prec) + pow2 (2 - emax - prec)) <= q /\
    q <= v + (v * pow2 (- prec) + pow2 (2 - emax - prec)) /\
    has_value (SFdiv prec emax a b) q.
Proof.
  intros Ha Hb Hqb Hv Hbig.
  pose proof (pow2_pos (- prec)) as Pp. pose proof (pow2_pos (2 - emax - prec)) as Pe.
  destruct b as [sb|sb| |[] mb eb]; cbn in Hb; try contradiction; [lra|].
  destruct a as [sa|sa| |[] ma ea]; cbn in Ha; try contradiction.
  - (* zero divided by a positive float *)
    assert (Hv0 : v == 0).
    { rewrite Ha in Hv. destruct (Qmult_integral _ _ Hv); [auto|lra]. }
    exists 0. cbn. rewrite Hv0. split; [lra|]. split; [lra|]. reflexivity.
  - destruct (SFdiv_finite_error ma ea mb eb v) as (q & Hlo & Hhi & Hq & Hm).
    { rewrite <- Hb, <- Ha. exact Hv. }
    exists q. split; [exact Hlo|]. split; [exact Hhi|].
    unfold has_value.
    destruct (SFdiv prec emax (S754_finite false ma ea) (S754_finite false mb eb))
      as [[]|[]| |[] ? ?]; try contradiction.
    + exact Hm.
    + lra.
    + exact Hm.
Qed.

(** The difference of two non-negative floats, the larger first. *)
Lemma SFsub_error a b qa qb :
  has_value a qa -> has_value b qb -> qb <= qa ->
  qa - qb < pow2 (emax - 1) ->
  exists q,
    qa - qb - ((qa - qb) * pow2 (- prec) + pow2 (2 - emax - prec)) <= q /\
    q <= qa - qb + ((qa - qb) * pow2 (- prec) + pow2 (2 - emax - prec)) /\
    has_value (SFsub prec emax a b) q.
Proof.
  intros Ha Hb Hle Hbig.
  pose proof (pow2_pos (- prec)) as Pp. pose proof (pow2_pos (2 - emax - prec)) as Pe.
  pose proof (has_value_nonneg _ _ Hb) as Hb0.
  destruct a as [sa|sa| |[] ma ea]; cbn in Ha; try contradiction;
    destruct b as [sb|sb| |[] mb eb]; cbn in Hb; try contradiction.
  - exists 0. split; [nra|]. split; [nra|]. destruct sa, sb; reflexivity.
  - exfalso. pose proof (pow2_pos eb).
    assert (0 < inject_Z (Z.pos mb)) by (replace 0 with (inject_Z 0) by reflexivity; rewrite <- Zlt_Qlt; lia).
    nra.
  - exists qa. assert (0 <= qa) by lra. split; [nra|]. split; [nra|]. exact Ha.
  - cbn [SFsub cond_Zopp]. zfold. set (ez := Z.min ea eb).
    destruct (shl_align_spec ma ea ez) as [_ Ema]. destruct (shl_align_spec mb eb ez) as [_ Emb].
    rewrite Z.min_r in Ema, Emb by (unfold ez; lia).
    rewrite Ema, Emb.
    set (D := (Z.pos ma * 2 ^ (ea - ez) - Z.pos mb * 2 ^ (eb - ez))%Z).
    assert (ED : inject_Z D * pow2 ez == qa - qb).
    { unfold D. unfold Z.sub at 1. rewrite inject_Z_plus, inject_Z_opp.
      pose proof (scaled_value (Z.pos ma) ea ez ltac:(unfold ez; lia)) as Sa.
      pose proof (scaled_value (Z.pos mb) eb ez ltac:(unfold ez; lia)) as Sb.
      rewrite Ha, Hb, <- Sa, <- Sb. ring. }
    pose proof (pow2_pos ez) as Pz.
    assert (HD : (0 <= D)%Z).
    { rewrite Zle_Qle. change (inject_Z 0) with 0. nra. }
    destruct D as [|d|d] eqn:EqD; [| |lia].
    + cbn [binary_normalize]. exists 0. change (inject_Z 0) with 0 in ED.
      split; [nra|]. split; [nra|]. reflexivity.
    + cbn [binary_normalize].
      destruct (binary_round_error d ez) as (q & Hlo & Hhi & Hq & Hm).
      rewrite ED in Hlo, Hhi.
      exists q. split; [exact Hlo|]. split; [exact Hhi|].
      unfold has_value.
      destruct (binary_round prec emax false d ez) as [[]|[]| |[] ? ?]; try contradiction.
      * exact Hm.
      * lra.
      * exact Hm.
Qed.

End Rounding.

Lemma pow2_m24 : pow2 (-24) == c24.
Proof. reflexivity. Qed.

Lemma pow2_m48 : pow2 (-48) == c24 * c24.
Proof. reflexivity. Qed.

Section Axis.
Variable F : fmt.
Hypothesis HFprec : (24 <= fprec F)%Z.
Hypothesis HFemax : (128 <= femax F)%Z.

Lemma eps_le : pow2 (- fprec F) <= c24.
Proof. rewrite <- pow2_m24. apply pow2_le. lia. Qed.

Lemma eta_le : pow2 (2 - femax F - fprec F) <= c24 * c24.
Proof. rewrite <- pow2_m48. apply pow2_le. lia. Qed.

Lemma big_le : 4 <= pow2 (femax F - 1).
Proof. change 4 with (pow2 2). apply pow2_le. lia. Qed.

(** One axis of the box: the start [a1] and the end [a2] of the side, in
    pixels, against the image size [n]. *)
Lemma axis_bound a1 a2 q1 q2 n :
  (0 < n < 2 ^ 31)%Z ->
  has_value a1 q1 -> has_value a2 q2 ->
  q1 <= q2 -> q2 <= inject_Z n ->
  exists x wd,
    has_value (fdiv_int F a1 n) x /\
    has_value (fdiv_int F (fsub32 a2 a1) n) wd /\
    x + wd <= 1 + 4 * c24.
Proof.
  intros Hn H1 H2 H12 H2n.
  pose proof eps_le as He. pose proof eta_le as Ht. pose proof big_le as Hbig.
  pose proof (pow2_pos (- fprec F)) as Pe. pose proof (pow2_pos (2 - femax F - fprec F)) as Pt.
  pose proof (has_value_nonneg _ _ H1) as Hq1.
  assert (HN1 : 1 <= inject_Z n) by (change 1 with (inject_Z 1); rewrite <- Zle_Qle; lia).
  assert (HN31 : inject_Z n < pow2 31).
  { rewrite pow2_inject by lia. rewrite <- Zlt_Qlt. lia. }
  assert (H31 : pow2 31 <= pow2 (femax F - 1)) by (apply pow2_le; lia).
  assert (H31' : pow2 31 <= pow2 (128 - 1)) by (apply pow2_le; lia).
  unfold c24 in *.
  (* the image size as a float *)
  destruct (binary_normalize_pos_error (fprec F) (femax F) ltac:(lia) ltac:(lia) n)
    as (w' & Hwlo & Hwhi & Hw); [lia | lra |].
  fold (float_of_int F n) in Hw.
  assert (Hw' : inject_Z n * (1 - (1 # 16777216) - (1 # 16777216) * (1 # 16777216)) <= w').
  { assert (inject_Z n * pow2 (- fprec F) <= inject_Z n * (1 # 16777216))
      by (clear - He HN1; nra).
    clear - H Hwlo Ht HN1. nra. }
  assert (Hw0 : 0 < w') by (clear - Hw' HN1; lra).
  (* the side *)
  destruct (SFsub_error 24 128 ltac:(lia) ltac:(lia) a2 a1 q2 q1 H2 H1 H12)
    as (qd & Hdlo & Hdhi & Hd); [lra|].
  fold (fsub32 a2 a1) in Hd.
  change (pow2 (- (24))) with (1 # 16777216) in Hdhi.
  assert (Hd150 : pow2 (2 - 128 - 24) <= (1 # 16777216) * (1 # 16777216))
    by (change ((1 # 16777216) * (1 # 16777216)) with (pow2 (-48)); apply pow2_le; lia).
  pose proof (has_value_nonneg _ _ Hd) as Hqd.
  assert (Hqd' : q1 + qd <= inject_Z n * (1 + (1 # 16777216)) + (1 # 16777216) * (1 # 16777216)).
  { clear - Hdhi Hd150 H12 H2n Hq1. lra. }
  (* the two quotients *)
  set (v1 := q1 * / w'). set (v2 := qd * / w').
  assert (Ev1 : v1 * w' == q1) by (unfold v1; field; lra).
  assert (Ev2 : v2 * w' == qd) by (unfold v2; field; lra).
  assert (Hv1 : 0 <= v1) by (unfold v1; apply Qmult_le_0_compat; [lra | apply Qinv_le_0_compat; lra]).
  assert (Hv2 : 0 <= v2) by (unfold v2; apply Qmult_le_0_compat; [lra | apply Qinv_le_0_compat; lra]).
  assert (HV : v1 + v2 <= 1 + 2 * (1 # 16777216) + 5 * ((1 # 16777216) * (1 # 16777216))).
  { destruct (Qlt_le_dec (1 + 2 * (1 # 16777216) + 5 * ((1 # 16777216) * (1 # 16777216))) (v1 + v2))
      as [Hgt|]; [exfalso|assumption].
    assert (A1 : (v1 + v2) * w' <= inject_Z n * (1 + (1 # 16777216)) + (1 # 16777216) * (1 # 16777216))
      by (clear - Ev1 Ev2 Hqd'; nra).
    assert (A2 : (1 + 2 * (1 # 16777216) + 5 * ((1 # 16777216) * (1 # 16777216))) * w' < (v1 + v2) * w')
      by (clear - Hgt Hw0; nra).
    clear - A1 A2 Hw' HN1. nra. }
  destruct (SFdiv_error (fprec F) (femax F) ltac:(lia) ltac:(lia) a1 (float_of_int F n) q1 w' v1 H1 Hw Hw0 Ev1)
    as (x & Hxlo & Hxhi & Hx); [lra|].
  destruct (SFdiv_error (fprec F) (femax F) ltac:(lia) ltac:(lia) (fsub32 a2 a1) (float_of_int F n) qd w' v2 Hd Hw Hw0 Ev2)
    as (wd & Hwdlo & Hwdhi & Hwd); [lra|].
  exists x, wd. split; [exact Hx|]. split; [exact Hwd|].
  assert (B1 : v1 * pow2 (- fprec F) <= v1 * (1 # 16777216)) by (clear - He Hv1; nra).
  assert (B2 : v2 * pow2 (- fprec F) <= v2 * (1 # 16777216)) by (clear - He Hv2; nra).
  clear - B1 B2 Hxhi Hwdhi HV Ht Hv1 Hv2. nra.
Qed.

End Axis.

Lemma bbox_norm_within_tolerance F h w box :
  (24 <= fprec F)%Z -> (128 <= femax F)%Z ->
  valid_detection (h, w) box ->
  within_unit_square (1 # 4194304) (bbox_norm F h w box).
Proof.
  intros HFp HFe (Hw & Hh & x1 & y1 & x2 & y2 & E1 & E2 & E3 & E4 & Hx1 & Hx12 & Hx2 & Hy1 & Hy12 & Hy2).
  destruct box as [[[a1 b1] a2] b2]. cbn [fst snd] in *.
  pose proof (SF2Q_has_value _ _ E1 Hx1) as V1.
  pose proof (SF2Q_has_value _ _ E2 Hy1) as V2.
  pose proof (SF2Q_has_value _ _ E3 ltac:(lra)) as V3.
  pose proof (SF2Q_has_value _ _ E4 ltac:(lra)) as V4.
  destruct (axis_bound F HFp HFe a1 a2 x1 x2 w Hw V1 V3 Hx12 Hx2) as (x & wd & Vx & Vwd & Hxs).
  destruct (axis_bound F HFp HFe b1 b2 y1 y2 h Hh V2 V4 Hy12 Hy2) as (y & ht & Vy & Vht & Hys).
  pose proof (has_value_nonneg _ _ Vx). pose proof (has_value_nonneg _ _ Vy).
  pose proof (has_value_nonneg _ _ Vwd). pose proof (has_value_nonneg _ _ Vht).
  apply has_value_SF2Q in Vx as (x' & Ex & Qx). apply has_value_SF2Q in Vy as (y' & Ey & Qy).
  apply has_value_SF2Q in Vwd as (wd' & Ewd & Qwd). apply has_value_SF2Q in Vht as (ht' & Eht & Qht).
  exists x', y', wd', ht'. cbn [bbox_norm bbox_x bbox_y bbox_width bbox_height].
  unfold c24 in *.
  repeat (split; [first [assumption | lra]|]). lra.
Qed.

Lemma edge_box_valid : valid_detection (480%Z, 640%Z) edge_box.
Proof.
  split; [cbn; lia|]. split; [cbn; lia|].
  do 4 eexists. repeat (split; [reflexivity|]).
  repeat split; vm_compute; discriminate.
Qed.

Section Compare.
Variables prec emax : Z.
Hypothesis Hprec : (0 < prec)%Z.

(** Canonical mantissas: a larger exponent means a larger number. *)
Lemma canonical_lt m1 e1 m2 e2 :
  canonical_mantissa prec emax m1 e1 = true ->
  canonical_mantissa prec emax m2 e2 = true ->
  (e1 < e2)%Z ->
  inject_Z (Z.pos m1) * pow2 e1 < inject_Z (Z.pos m2) * pow2 e2.
Proof.
  unfold canonical_mantissa. zfold. intros C1 C2 He.
  apply Z.eqb_eq in C1, C2. rewrite fexp_eq in C1, C2.
  change (Z.pos (digits2_pos m1)) with (Zdigits2 (Z.pos m1)) in C1.
  change (Z.pos (digits2_pos m2)) with (Zdigits2 (Z.pos m2)) in C2.
  pose proof (Zdigits2_bounds (Z.pos m1) ltac:(lia)) as [_ Hu1].
  pose proof (pow2_digits_lower (Z.pos m2) ltac:(lia)) as Hl2.
  assert (Hd1 : (Zdigits2 (Z.pos m1) <= prec)%Z) by lia.
  assert (Hd2 : Zdigits2 (Z.pos m2) = prec) by lia.
  rewrite Hd2 in Hl2.
  assert (H1 : inject_Z (Z.pos m1) < pow2 prec).
  { rewrite pow2_inject by lia. rewrite <- Zlt_Qlt.
    assert (2 ^ Zdigits2 (Z.pos m1) <= 2 ^ prec)%Z by (apply Z.pow_le_mono_r; lia). lia. }
  assert (H2 : pow2 (prec + e1) <= pow2 (prec - 1 + e2)) by (apply pow2_le; lia).
  rewrite !pow2_add in H2.
  pose proof (pow2_pos e1). pose proof (pow2_pos e2). pose proof (pow2_pos prec).
  pose proof (pow2_pos (prec - 1)).
  assert (inject_Z (Z.pos m1) * pow2 e1 < pow2 prec * pow2 e1) by nra.
  assert (pow2 (prec - 1) * pow2 e2 <= inject_Z (Z.pos m2) * pow2 e2) by nra.
  lra.
Qed.


(** On the valid floats of a format, [<=] is the order of the numbers. *)
Lemma SFleb_SF2Q x y qx qy :
  valid_binary prec emax x = true -> valid_binary prec emax y = true ->
  SF2Q x = Some qx -> SF2Q y = Some qy ->
  SFleb x y = true <-> qx <= qy.
Proof.
  intros Vx Vy Ex Ey.
  destruct x as [sx|sx| |sx mx ex]; try discriminate;
    destruct y as [sy|sy| |sy my ey]; try discriminate;
    cbn in Ex, Ey; injection Ex as <-; injection Ey as <-.
  - split; [intros _; lra | reflexivity].
  - pose proof (pow2_pos ey) as P. unfold pow2 in P.
    assert (0 < inject_Z (Z.pos my)) by (replace 0 with (inject_Z 0) by reflexivity; rewrite <- Zlt_Qlt; lia).
    destruct sy; cbn; (split; [try discriminate; intros _; nra | try reflexivity; intros; exfalso; nra]).
  - pose proof (pow2_pos ex) as P. unfold pow2 in P.
    assert (0 < inject_Z (Z.pos mx)) by (replace 0 with (inject_Z 0) by reflexivity; rewrite <- Zlt_Qlt; lia).
    destruct sx; cbn; (split; [try discriminate; intros _; nra | try reflexivity; intros; exfalso; nra]).
  - cbn in Vx, Vy. unfold bounded in Vx, Vy.
    apply andb_true_iff in Vx as [Cx _]. apply andb_true_iff in Vy as [Cy _].
    pose proof (pow2_pos ex) as Px. pose proof (pow2_pos ey) as Py.
    assert (Hmx : 0 < inject_Z (Z.pos mx)) by (replace 0 with (inject_Z 0) by reflexivity; rewrite <- Zlt_Qlt; lia).
    assert (Hmy : 0 < inject_Z (Z.pos my)) by (replace 0 with (inject_Z 0) by reflexivity; rewrite <- Zlt_Qlt; lia).
    fold (pow2 ex). fold (pow2 ey).
    assert (Hlt : (ex < ey)%Z -> inject_Z (Z.pos mx) * pow2 ex < inject_Z (Z.pos my) * pow2 ey)
      by (apply canonical_lt; assumption).
    assert (Hgt : (ey < ex)%Z -> inject_Z (Z.pos my) * pow2 ey < inject_Z (Z.pos mx) * pow2 ex)
      by (apply canonical_lt; assumption).
    unfold SFleb, SFcompare. zfold. rewrite Pos.compare_cont_spec. cbn [Pos.switch_Eq].
    destruct sx, sy.
    + destruct (Z.compare_spec ex ey) as [->|He|He].
      * destruct (Pos.compare_spec mx my) as [->|Hc|Hc]; cbn;
          [ | assert (inject_Z (Z.pos mx) < inject_Z (Z.pos my)) by (rewrite <- Zlt_Qlt; lia)
            | assert (inject_Z (Z.pos my) < inject_Z (Z.pos mx)) by (rewrite <- Zlt_Qlt; lia) ];
          (split; [try discriminate; intros _; nra | try reflexivity; intros; exfalso; nra]).
      * specialize (Hlt He). split; [discriminate | intros; exfalso; nra].
      * specialize (Hgt He). split; [intros _; nra | reflexivity].
    + split; [intros _; nra | reflexivity].
    + split; [discriminate | intros; exfalso; nra].
    + destruct (Z.compare_spec ex ey) as [->|He|He].
      * destruct (Pos.compare_spec mx my) as [->|Hc|Hc]; cbn;
          [ | assert (inject_Z (Z.pos mx) < inject_Z (Z.pos my)) by (rewrite <- Zlt_Qlt; lia)
            | assert (inject_Z (Z.pos my) < inject_Z (Z.pos mx)) by (rewrite <- Zlt_Qlt; lia) ];
          (split; [try discriminate; intros _; nra | try reflexivity; intros; exfalso; nra]).
      * specialize (Hlt He). split; [intros _; nra | reflexivity].
      * specialize (Hgt He). split; [discriminate | intros; exfalso; nra].
Qed.

End Compare.

End FloatFacts.

(** ** The severity classifier adapter *)

Lemma SFleb_key x y :
  is_nan x = false -> is_nan y = false ->
  SFleb x y = true <-> lex_le (sf_key x) (sf_key y).
Proof.
  unfold SFleb, lex_le.
  destruct x as [sx|sx| |sx mx ex], y as [sy|sy| |sy my ey]; try discriminate;
    intros _ _; try destruct sx; try destruct sy; cbn;
    try (split; [intros _; lia | reflexivity]);
    try (split; [discriminate | lia]).
  - rewrite Pos.compare_cont_spec. cbn.
    destruct (Z.compare_spec ex ey), (Pos.compare_spec mx my); cbn;
      (split; [try discriminate; intros _; lia | try reflexivity; lia]).
  - rewrite Pos.compare_cont_spec. cbn.
    destruct (Z.compare_spec ex ey), (Pos.compare_spec mx my); cbn;
      (split; [try discriminate; intros _; lia | try reflexivity; lia]).
Qed.

Lemma SFleb_nan_r x : SFleb x S754_nan = false.
Proof. destruct x; reflexivity. Qed.

Lemma SFleb_refl x : is_nan x = false -> SFleb x x = true.
Proof. intros H. apply SFleb_key; auto. unfold lex_le. lia. Qed.

Lemma SFleb_trans x y z :
  SFleb x y = true -> SFleb y z = true -> SFleb x z = true.
Proof.
  intros Hxy Hyz.
  assert (is_nan x = false) by (destruct x; auto; discriminate).
  assert (is_nan y = false) by (destruct y; auto; rewrite SFleb_nan_r in Hxy; discriminate).
  assert (is_nan z = false) by (destruct z; auto; rewrite SFleb_nan_r in Hyz; discriminate).
  rewrite SFleb_key in * by auto. unfold lex_le in *. lia.
Qed.

Lemma SFleb_total x y :
  is_nan x = false -> is_nan y = false ->
  SFleb x y = false -> SFleb y x = true.
Proof.
  intros Hx Hy H. apply SFleb_key; auto.
  assert (N : ~ lex_le (sf_key x) (sf_key y)).
  { rewrite <- SFleb_key by auto. congruence. }
  unfold lex_le in *. lia.
Qed.

Lemma argmax_go_lt ip :
  forall mp max_ind i,
    (max_ind < i)%nat ->
    (argmax_go mp max_ind i ip < i + List.length ip)%nat.
Proof.
  induction ip as [|x ip IH]; intros mp max_ind i Hi; simpl; [lia|].
  destruct (SFleb x mp); simpl.
  - specialize (IH mp max_ind (S i)). lia.
  - destruct (is_nan x); [lia|]. specialize (IH x i (S i)). lia.
Qed.

(** The scan keeps the first largest element seen so far. *)
Lemma argmax_go_max ip :
  forall pre mp max_ind,
    Forall (fun p => is_nan p = false) ip ->
    is_nan mp = false ->
    pre !! max_ind = Some mp ->
    (forall j p, pre !! j = Some p ->
       SFleb p mp = true /\ ((j < max_ind)%nat -> SFleb mp p = false)) ->
    exists m',
      (pre ++ ip)%list !! argmax_go mp max_ind (List.length pre) ip = Some m' /\
      forall j p, (pre ++ ip)%list !! j = Some p ->
        SFleb p m' = true /\
        ((j < argmax_go mp max_ind (List.length pre) ip)%nat -> SFleb m' p = false).
Proof.
  induction ip as [|x ip IH]; intros pre mp max_ind Hnan Hmp Hmax Hpre.
  - simpl. rewrite app_nil_r. eauto.
  - apply Forall_cons in Hnan as [Hx Hnan]. cbn [argmax_go].
    pose proof (lookup_lt_Some _ _ _ Hmax) as Hlt.
    replace (pre ++ x :: ip)%list with ((pre ++ [x]) ++ ip)%list
      by (rewrite <- app_assoc; reflexivity).
    replace (S (List.length pre)) with (List.length (pre ++ [x])%list)
      by (rewrite length_app; simpl; lia).
    destruct (SFleb x mp) eqn:Hle; cbn [negb].
    + apply IH; auto.
      * apply lookup_app_l_Some. exact Hmax.
      * intros j p Hj. apply lookup_app_Some in Hj as [Hj | [Hge Hj]]; [auto|].
        destruct (j - List.length pre)%nat eqn:Ej; [|destruct n; discriminate].
        injection Hj as <-. split; [exact Hle | lia].
    + rewrite Hx.
      assert (Hmx : SFleb mp x = true) by (apply SFleb_total; auto).
      apply IH; auto.
      * rewrite lookup_app_r by lia. rewrite Nat.sub_diag. reflexivity.
      * intros j p Hj. apply lookup_app_Some in Hj as [Hj | [Hge Hj]].
        -- destruct (Hpre _ _ Hj) as [Hp _]. split.
           ++ eapply SFleb_trans; eauto.
           ++ intros _. destruct (SFleb x p) eqn:Hxp; [|reflexivity].
              rewrite (SFleb_trans _ _ _ Hxp Hp) in Hle. discriminate.
        -- destruct (j - List.length pre)%nat eqn:Ej; [|destruct n; discriminate].
           injection Hj as <-. split; [apply SFleb_refl; auto | lia].
Qed.

Lemma np_argmax_Ok a idx :
  np_argmax a = Ok idx ->
  exists conf,
    a !! idx = Some conf /\
    (Forall (fun p => is_nan p = false) a ->
     forall j p, a !! j = Some p ->
       SFleb p conf = true /\ ((j < idx)%nat -> SFleb conf p = false)).
Proof.
  destruct a as [|x ip]; simpl; [discriminate|]. intros [= <-].
  destruct (is_nan x) eqn:Hx.
  - exists x. split; [reflexivity|]. intros H.
    apply Forall_cons in H as [H _]. congruence.
  - pose proof (argmax_go_lt ip x 0%nat 1%nat ltac:(lia)) as Hlt.
    destruct (lookup_lt_is_Some_2 (x :: ip) (argmax_go x 0 1 ip)) as [conf Hc];
      [simpl; lia|].
    exists conf. split; [exact Hc|]. intros H.
    apply Forall_cons in H as [_ H].
    destruct (argmax_go_max ip [x] x 0%nat H Hx eq_refl) as (m' & Hm' & Hall).
    + intros [|j] p Hj; [|discriminate]. injection Hj as <-.
      split; [apply SFleb_refl; auto | lia].
    + simpl in Hm', Hall. rewrite Hc in Hm'. injection Hm' as <-. exact Hall.
Qed.

Lemma np_argmax_lt a idx : np_argmax a = Ok idx -> (idx < List.length a)%nat.
Proof.
  intros H. apply np_argmax_Ok in H as (conf & Hc & _).
  eapply lookup_lt_Some; eauto.
Qed.

Lemma finite_float32_nan : finite_float32 S754_nan = false.
Proof. reflexivity. Qed.

Lemma finite_float32_SF2Q p :
  finite_float32 p = true ->
  valid_binary 24 128 p = true /\ exists q, SF2Q p = Some q.
Proof.
  unfold finite_float32. intros H. apply andb_true_iff in H as [V F].
  split; [exact V|]. destruct p; try discriminate; cbn; eauto.
Qed.

Section SeverityClassifier.
Context {B : Backend}.

(** C5. Let the model answer a patch with the scores [preds].  Whenever
    the adapter returns a label, it is the entry of SEVERITY_CLASSES at
    the index NumPy's argmax gives, hence one of "minor", "moderate" and
    "severe", and the confidence is the score at that index; if no score
    is a NaN, that score is greater than or equal to every score and
    strictly greater than those before it, and if the scores are finite
    [np.float32] numbers it is the largest of them as a number.  With
    three scores the adapter always returns, whatever their values:
    nothing is compared with a threshold. *)
Theorem C5_predict_severity patch_tensor preds :
  severity_model_predict patch_tensor = Ok preds ->
  (forall label conf,
      predict_severity patch_tensor = Ok (label, conf) ->
      exists idx,
        np_argmax preds = Ok idx /\
        SEVERITY_CLASSES !! idx = Some label /\
        preds !! idx = Some conf /\
        In label ["minor"; "moderate"; "severe"] /\
        (Forall (fun p => is_nan p = false) preds ->
         forall j p, preds !! j = Some p ->
           SFleb p conf = true /\ ((j < idx)%nat -> SFleb conf p = false)) /\
        (Forall (fun p => finite_float32 p = true) preds ->
         forall j p, preds !! j = Some p ->
           exists qp qconf,
             SF2Q p = Some qp /\ SF2Q conf = Some qconf /\ (qp <= qconf)%Q)) /\
  (List.length preds = 3%nat ->
   exists label conf, predict_severity patch_tensor = Ok (label, conf)).
Proof.
  intros Hpreds. unfold predict_severity. rewrite Hpreds. cbn [rbind]. split.
  - intros label conf H.
    destruct (np_argmax preds) as [idx|] eqn:Hidx; [|discriminate]. cbn [rbind] in H.
    unfold py_index in H.
    destruct (SEVERITY_CLASSES !! idx) as [l|] eqn:Hl; [|discriminate]. cbn [rbind] in H.
    destruct (preds !! idx) as [c|] eqn:Hc; [|discriminate]. cbn [rbind] in H.
    injection H as <- <-. exists idx.
    split; [reflexivity|]. split; [exact Hl|]. split; [exact Hc|]. split.
    + apply list_elem_of_lookup_2 in Hl. apply list_elem_of_In in Hl. exact Hl.
    + destruct (np_argmax_Ok _ _ Hidx) as (c' & Hc' & Hmax).
      rewrite Hc in Hc'. injection Hc' as <-. split; [exact Hmax|].
      intros Hfin j p Hj.
      assert (Hnan : Forall (fun p => is_nan p = false) preds).
      { eapply Forall_impl; [exact Hfin|]. intros [] Hq; try reflexivity.
        rewrite finite_float32_nan in Hq. discriminate. }
      destruct (Hmax Hnan j p Hj) as [Hle _].
      rewrite Forall_lookup in Hfin.
      destruct (finite_float32_SF2Q _ (Hfin _ _ Hj)) as (Vp & qp & Ep).
      destruct (finite_float32_SF2Q _ (Hfin _ _ Hc)) as (Vc & qc & Ec).
      exists qp, qc. split; [exact Ep|]. split; [exact Ec|].
      apply (SFleb_SF2Q 24 128 ltac:(lia) p c qp qc Vp Vc Ep Ec). exact Hle.
  - intros Hlen.
    destruct (np_argmax preds) as [idx|] eqn:Hidx.
    + pose proof (np_argmax_lt _ _ Hidx) as Hlt. rewrite Hlen in Hlt.
      destruct (lookup_lt_is_Some_2 SEVERITY_CLASSES idx) as [l Hl]; [simpl; lia|].
      destruct (lookup_lt_is_Some_2 preds idx) as [c Hc]; [lia|].
      exists l, c. cbn [rbind]. unfold py_index. rewrite Hl, Hc. reflexivity.
    + destruct preds; [discriminate Hlen | discriminate Hidx].
Qed.

End SeverityClassifier.

Lemma C5_predict_severity_witness :
  exists conf,
    predict_severity (B := demo_backend_with demo_yolo low_scores binary32) (1, 1)
      = Ok ("moderate", conf) /\
    low_scores !! 1%nat = Some conf /\
    Forall (fun p => SFleb p conf = true) low_scores.
Proof.
  destruct (C5_predict_severity (B := demo_backend_with demo_yolo low_scores binary32)
              (1, 1) low_scores eq_refl) as [HA HB].
  destruct (HB eq_refl) as (label & conf & H).
  destruct (HA _ _ H) as (idx & Hidx & Hl & Hc & _ & Hmax & _).
  vm_compute in Hidx. injection Hidx as <-.
  vm_compute in Hl. injection Hl as <-.
  exists conf. split; [exact H|]. split; [exact Hc|].
  apply Forall_lookup. intros j p Hj. apply (Hmax ltac:(repeat constructor) j p Hj).
Defined.

(** ** The normalized bounding box *)

Section BoundingBox.
Local Open Scope Q_scope.

(** C3 (amended). For a detection whose pixel-space box is valid detector
    output ([0 <= x1 <= x2 <= width] and [0 <= y1 <= y2 <= height] for
    positive image dimensions below 2^31), the normalized box of the
    damage record
    has [0 <= x], [0 <= y], [width >= 0] and [height >= 0], and
    [x + width] and [y + height] exceed 1 by at most the rounding of the
    floating-point operations: they are at most [1 + 2^-22]. *)
Theorem C3_bbox_within_rounding_tolerance {B : Backend}
    fs path t ds (k : nat) d res box :
  run_yolo_on_image fs path t = Ok ds ->
  ds !! k = Some d ->
  detect fs path = Ok res ->
  boxes res !! k = Some box ->
  scalar_div_fmt = binary32 \/ scalar_div_fmt = binary64 ->
  valid_detection (orig_shape res) (xyxy box) ->
  within_unit_square (1 # 4194304) (bbox d).
Proof.
  intros H Hk Hres Hbox HF Hvalid.
  destruct (run_yolo_on_image_record _ _ _ _ _ _ H Hk)
    as (res' & box' & label & Hres' & Hbox' & ->).
  rewrite Hres in Hres'. injection Hres' as <-.
  rewrite Hbox in Hbox'. injection Hbox' as <-.
  cbn [bbox record_of].
  apply bbox_norm_within_tolerance.
  - destruct HF as [-> | ->]; cbn; lia.
  - destruct HF as [-> | ->]; cbn; lia.
  - destruct (orig_shape res). exact Hvalid.
Qed.

Lemma C3_bbox_within_rounding_tolerance_witness :
  exists d,
    run_yolo_on_image (B := edge_backend binary32) demo_files "/in/a.jpg" before = Ok [d] /\
    valid_detection (480%Z, 640%Z) edge_box /\
    within_unit_square (1 # 4194304) (bbox d).
Proof.
  eexists.
  assert (E : run_yolo_on_image (B := edge_backend binary32) demo_files "/in/a.jpg" before
              = Ok [_]) by (vm_compute; reflexivity).
  split; [exact E|]. split; [exact edge_box_valid|].
  eapply (C3_bbox_within_rounding_tolerance (B := edge_backend binary32)
            demo_files "/in/a.jpg" before _ 0%nat _
            {| orig_shape := (480%Z, 640%Z);
               boxes := [{| xyxy := edge_box; cls := 0 |}];
               names := demo_names |}
            {| xyxy := edge_box; cls := 0 |} E).
  - reflexivity.
  - vm_compute. reflexivity.
  - reflexivity.
  - left. reflexivity.
  - exact edge_box_valid.
Defined.

(** C3 as stated fails.  For the valid detection [edge_box] in a 640x480
    image, x is 0.1f/640 and width is (640 - 0.1f)/640, each rounded; their
    sum is larger than 1, whether NumPy divides in binary32 or in
    binary64, so the record's box does not lie in the unit square. *)
Lemma C3_counterexample :
  valid_detection (480%Z, 640%Z) edge_box /\
  (exists d x width,
      run_yolo_on_image (B := edge_backend binary32) demo_files "/in/a.jpg" before = Ok [d] /\
      SF2Q (bbox_x (bbox d)) = Some x /\
      SF2Q (bbox_width (bbox d)) = Some width /\
      1 < x + width /\
      ~ within_unit_square 0 (bbox d)) /\
  (exists d x width,
      run_yolo_on_image (B := edge_backend binary64) demo_files "/in/a.jpg" before = Ok [d] /\
      SF2Q (bbox_x (bbox d)) = Some x /\
      SF2Q (bbox_width (bbox d)) = Some width /\
      1 < x + width /\
      ~ within_unit_square 0 (bbox d)).
Proof.
  split; [exact edge_box_valid|]. split.
  - do 3 eexists. split; [vm_compute; reflexivity|].
    split; [vm_compute; reflexivity|]. split; [vm_compute; reflexivity|].
    split; [vm_compute; reflexivity|].
    intros (x & y & wd & ht & Ex & _ & Ew & _ & _ & _ & _ & _ & Hs & _).
    vm_compute in Ex. injection Ex as <-. vm_compute in Ew. injection Ew as <-.
    vm_compute in Hs. apply Hs. reflexivity.
  - do 3 eexists. split; [vm_compute; reflexivity|].
    split; [vm_compute; reflexivity|]. split; [vm_compute; reflexivity|].
    split; [vm_compute; reflexivity|].
    intros (x & y & wd & ht & Ex & _ & Ew & _ & _ & _ & _ & _ & Hs & _).
    vm_compute in Ex. injection Ex as <-. vm_compute in Ew. injection Ew as <-.
    vm_compute in Hs. apply Hs. reflexivity.
Qed.

End BoundingBox.

(** * Further properties

    ** The detection loop, outcome by outcome *)

Section LoopOutcomes.
Context {B : Backend}.

Lemma damage_of_box_iff pil_img results image_type i box d :
  damage_of_box pil_img results image_type i box = Ok d <->
  exists patch label conf,
    crop_patch pil_img (xyxy box) = Ok patch /\
    predict_severity patch = Ok (label, conf) /\
    d = record_of results image_type i box label.
Proof.
  split; [apply damage_of_box_Ok|].
  intros (patch & label & conf & Hc & Hp & ->).
  unfold damage_of_box, record_of.
  destruct (xyxy box) as [[[x1 y1] x2] y2]. rewrite Hc. cbn [rbind]. rewrite Hp. cbn [rbind].
  destruct (orig_shape results) as [h w]. reflexivity.
Qed.

Lemma damage_of_box_Raise pil_img results image_type i box e :
  damage_of_box pil_img results image_type i box = Raise e <->
  crop_patch pil_img (xyxy box) = Raise e \/
  exists patch, crop_patch pil_img (xyxy box) = Ok patch /\
    predict_severity patch = Raise e.
Proof.
  unfold damage_of_box.
  destruct (xyxy box) as [[[x1 y1] x2] y2].
  destruct (crop_patch pil_img (x1, y1, x2, y2)) as [patch|e0]; cbn [rbind].
  - destruct (predict_severity patch) as [[label conf]|e1] eqn:Hp; cbn [rbind].
    + destruct (orig_shape results) as [h w]. split; [discriminate|].
      intros [H | (p & [= <-] & H)]; congruence.
    + split.
      * intros [= ->]. right. eauto.
      * intros [H | (p & [= <-] & H)]; congruence.
  - split.
    + intros [= ->]. auto.
    + intros [H | (p & H & _)]; congruence.
Qed.

(** The loop returns when the body returns for every box. *)
Lemma damages_loop_complete pil_img results image_type bs :
  forall i acc news,
    List.length news = List.length bs ->
    (forall k box, bs !! k = Some box ->
       exists d, news !! k = Some d /\
         damage_of_box pil_img results image_type (i + k) box = Ok d) ->
    damages_loop pil_img results image_type i bs acc = Ok (acc ++ news)%list.
Proof.
  induction bs as [|box bs IH]; intros i acc news Hlen H.
  - destruct news; [|discriminate]. rewrite app_nil_r. reflexivity.
  - destruct news as [|d news]; [discriminate|]. cbn [damages_loop].
    destruct (H 0%nat box eq_refl) as (d' & [= <-] & Hd).
    rewrite Nat.add_0_r in Hd. rewrite Hd. cbn [rbind].
    rewrite (IH (S i) (acc ++ [d])%list news).
    + rewrite <- app_assoc. reflexivity.
    + simpl in Hlen. lia.
    + intros k b Hk. destruct (H (S k) b Hk) as (d' & Hd' & Hb).
      exists d'. split; [exact Hd'|].
      replace (S i + k)%nat with (i + S k)%nat by lia. exact Hb.
Qed.

(** The loop raises what the body raises for the first box at which it
    fails. *)
Lemma damages_loop_Raise pil_img results image_type bs :
  forall i acc e,
    damages_loop pil_img results image_type i bs acc = Raise e <->
    exists k box,
      bs !! k = Some box /\
      (forall j b, (j < k)%nat -> bs !! j = Some b ->
         exists d, damage_of_box pil_img results image_type (i + j) b = Ok d) /\
      damage_of_box pil_img results image_type (i + k) box = Raise e.
Proof.
  induction bs as [|box bs IH]; intros i acc e; cbn [damages_loop].
  - split; [discriminate|]. intros (k & b & Hk & _). destruct k; discriminate.
  - destruct (damage_of_box pil_img results image_type i box) as [d|e0] eqn:Hd;
      cbn [rbind].
    + rewrite IH. split.
      * intros (k & b & Hk & Hbefore & Hfail). exists (S k), b.
        split; [exact Hk|]. split.
        -- intros [|j] b' Hj Hb'.
           ++ injection Hb' as <-. rewrite Nat.add_0_r. eauto.
           ++ replace (i + S j)%nat with (S i + j)%nat by lia.
              apply Hbefore; [lia | exact Hb'].
        -- replace (i + S k)%nat with (S i + k)%nat by lia. exact Hfail.
      * intros (k & b & Hk & Hbefore & Hfail). destruct k as [|k].
        -- injection Hk as <-. rewrite Nat.add_0_r in Hfail. congruence.
        -- exists k, b. split; [exact Hk|]. split.
           ++ intros j b' Hj Hb'.
              replace (S i + j)%nat with (i + S j)%nat by lia.
              apply (Hbefore (S j) b'); [lia | exact Hb'].
           ++ replace (S i + k)%nat with (i + S k)%nat by lia. exact Hfail.
    + split.
      * intros [= ->]. exists 0%nat, box. split; [reflexivity|]. split.
        -- intros j b Hj. lia.
        -- rewrite Nat.add_0_r. exact Hd.
      * intros (k & b & Hk & Hbefore & Hfail). destruct k as [|k].
        -- injection Hk as <-. rewrite Nat.add_0_r in Hfail. congruence.
        -- destruct (Hbefore 0%nat box ltac:(lia) eq_refl) as (d & Hd').
           rewrite Nat.add_0_r in Hd'. congruence.
Qed.

Lemma load_image_read_file fs path img :
  load_image fs path = Ok img -> exists data, read_file fs path = Ok data.
Proof.
  unfold load_image. destruct (read_file fs path) as [data|e]; simpl; [eauto | discriminate].
Qed.

(** X1. [run_yolo_on_image] returns a list exactly when the image loads,
    the detector answers, and cropping and classification succeed for
    every box; the list then has one record per box, in the detector's
    order: the record at index [k] is built from the box at index [k],
    with the severity label the classifier gave for that box's patch. *)
Theorem run_yolo_on_image_returns fs path t ds :
  run_yolo_on_image fs path t = Ok ds <->
  exists img res,
    load_image fs path = Ok img /\
    detect fs path = Ok res /\
    List.length ds = List.length (boxes res) /\
    forall k box, boxes res !! k = Some box ->
      exists patch label conf,
        crop_patch img (xyxy box) = Ok patch /\
        predict_severity patch = Ok (label, conf) /\
        ds !! k = Some (record_of res t k box label).
Proof.
  split.
  - intros H.
    destruct (run_yolo_on_image_Ok _ _ _ _ H) as (img & res & Himg & Hres & Hlen & Hrec).
    exists img, res. split; [exact Himg|]. split; [exact Hres|]. split; [exact Hlen|].
    intros k box Hk.
    destruct (lookup_lt_is_Some_2 ds k) as [d Hd].
    { rewrite Hlen. eapply lookup_lt_Some; eauto. }
    destruct (Hrec k d Hd) as (box' & Hk' & Hbox).
    rewrite Hk in Hk'. injection Hk' as <-.
    apply damage_of_box_iff in Hbox as (patch & label & conf & Hc & Hp & ->).
    exists patch, label, conf. auto.
  - intros (img & res & Himg & Hres & Hlen & Hrec).
    unfold run_yolo_on_image. rewrite Himg. cbn [rbind].
    unfold detect in Hres.
    destruct (read_file fs path) as [data|e]; [|discriminate]. cbn [rbind] in *.
    rewrite Hres. cbn [rbind].
    rewrite (damages_loop_complete img res t (boxes res) 0 [] ds Hlen); [reflexivity|].
    intros k box Hk. destruct (Hrec k box Hk) as (patch & label & conf & Hc & Hp & Hd).
    eexists. split; [exact Hd|]. apply damage_of_box_iff. eauto 6.
Qed.

(** X2. [run_yolo_on_image] raises [e] exactly when loading the image
    raises [e], or the image loads and the detector raises [e], or both
    succeed and [e] is raised by cropping or classifying the first box
    for which one of the two fails.  No record of the boxes before it is
    returned. *)
Theorem run_yolo_on_image_raises fs path t e :
  run_yolo_on_image fs path t = Raise e <->
  load_image fs path = Raise e \/
  (exists img, load_image fs path = Ok img /\ detect fs path = Raise e) \/
  (exists img res k box,
      load_image fs path = Ok img /\ detect fs path = Ok res /\
      boxes res !! k = Some box /\
      (forall j b, (j < k)%nat -> boxes res !! j = Some b ->
         exists d, damage_of_box img res t j b = Ok d) /\
      (crop_patch img (xyxy box) = Raise e \/
       exists patch, crop_patch img (xyxy box) = Ok patch /\
         predict_severity patch = Raise e)).
Proof.
  unfold run_yolo_on_image, detect.
  destruct (load_image fs path) as [img|e0] eqn:Himg; cbn [rbind].
  2:{ split.
      - intros [= ->]. auto.
      - intros [[= ->] | [(img & H & _) | (img & res & k & box & H & _)]];
          [reflexivity | discriminate | discriminate]. }
  destruct (load_image_read_file _ _ _ Himg) as (data & Hdata).
  rewrite Hdata. cbn [rbind].
  destruct (yolo_model data) as [res|e1] eqn:Hres; cbn [rbind].
  2:{ split.
      - intros [= ->]. right. left. eauto.
      - intros [H | [(img' & _ & [= ->]) | (img' & res & k & box & _ & H & _)]];
          [discriminate | reflexivity | discriminate]. }
  rewrite damages_loop_Raise. split.
  - intros (k & box & Hk & Hbefore & Hfail). right. right.
    exists img, res, k, box. split; [reflexivity|]. split; [reflexivity|].
    split; [exact Hk|]. split; [exact Hbefore|].
    apply damage_of_box_Raise in Hfail. exact Hfail.
  - intros [H | [(img' & _ & H) |
                 (img' & res' & k & box & [= <-] & [= <-] & Hk & Hbefore & Hfail)]];
      [discriminate | discriminate |].
    exists k, box. split; [exact Hk|]. split; [exact Hbefore|].
    apply damage_of_box_Raise. exact Hfail.
Qed.

Lemma predict_severity_label patch label conf :
  predict_severity patch = Ok (label, conf) -> In label SEVERITY_CLASSES.
Proof.
  unfold predict_severity. intros H.
  apply rbind_Ok in H as (preds & _ & H).
  apply rbind_Ok in H as (idx & _ & H).
  apply rbind_Ok in H as (l & Hl & H).
  apply rbind_Ok in H as (c & _ & H). injection H as <- <-.
  unfold py_index in Hl. destruct (SEVERITY_CLASSES !! idx) as [l'|] eqn:E; [|discriminate].
  injection Hl as <-. apply list_elem_of_lookup_2 in E. apply list_elem_of_In in E. exact E.
Qed.

Lemma run_yolo_on_image_severity fs path t ds :
  run_yolo_on_image fs path t = Ok ds ->
  Forall (fun d => In (severity d) SEVERITY_CLASSES) ds.
Proof.
  intros H. apply Forall_lookup. intros k d Hk.
  destruct (run_yolo_on_image_Ok _ _ _ _ H) as (img & res & _ & _ & _ & Hrec).
  destruct (Hrec k d Hk) as (box & _ & Hd).
  apply damage_of_box_Ok in Hd as (patch & label & conf & _ & Hp & ->).
  cbn [severity record_of]. eapply predict_severity_label; eauto.
Qed.

(** X3. Every damage record of an analysis result has one of the three
    severities "minor", "moderate" and "severe". *)
Theorem analyze_pair_severities fs bp ap r :
  analyze_pair fs bp ap = Ok r ->
  Forall (fun d => severity d = "minor" \/ severity d = "moderate" \/
                   severity d = "severe") (damages r).
Proof.
  intros H. apply analyze_pair_Ok in H as (bd & ad & Hbd & Had & -> & _).
  apply Forall_app. split.
  - eapply Forall_impl; [exact (run_yolo_on_image_severity _ _ _ _ Hbd)|].
    cbn. intros d [H|[H|[H|[]]]]; auto.
  - eapply Forall_impl; [exact (run_yolo_on_image_severity _ _ _ _ Had)|].
    cbn. intros d [H|[H|[H|[]]]]; auto.
Qed.

Lemma tagged_all t ds :
  Forall (fun d => imageType d = t) ds -> tagged t ds = ds.
Proof.
  induction 1 as [|d ds Hd _ IH]; [reflexivity|].
  unfold tagged in *. cbn [List.filter]. rewrite Hd, IH. destruct t; reflexivity.
Qed.

Lemma tagged_none t t' ds :
  t <> t' -> Forall (fun d => imageType d = t') ds -> tagged t ds = [].
Proof.
  intros Hne. induction 1 as [|d ds Hd _ IH]; [reflexivity|].
  unfold tagged in *. cbn [List.filter]. rewrite Hd, IH.
  destruct t, t'; try reflexivity; congruence.
Qed.

Lemma tagged_app t ds1 ds2 : tagged t (ds1 ++ ds2) = (tagged t ds1 ++ tagged t ds2)%list.
Proof. apply List.filter_app. Qed.

Lemma run_yolo_on_image_tags fs path t ds :
  run_yolo_on_image fs path t = Ok ds -> Forall (fun d => imageType d = t) ds.
Proof.
  intros H. apply Forall_lookup. intros k d Hk.
  apply (run_yolo_on_image_fields _ _ _ _ _ _ H Hk).
Qed.

(** The records with a given tag are those of that image. *)
Lemma analyze_pair_tagged fs bp ap r :
  analyze_pair fs bp ap = Ok r ->
  exists bd ad,
    run_yolo_on_image fs bp before = Ok bd /\
    run_yolo_on_image fs ap after = Ok ad /\
    tagged before (damages r) = bd /\ tagged after (damages r) = ad /\
    message r = Some (summary_table (List.length bd) (List.length ad)).
Proof.
  unfold analyze_pair. intros H.
  apply rbind_Ok in H as (bd & Hbd & H).
  apply rbind_Ok in H as (ad & Had & H).
  injection H as <-. cbn [message damages].
  pose proof (run_yolo_on_image_tags _ _ _ _ Hbd) as Tb.
  pose proof (run_yolo_on_image_tags _ _ _ _ Had) as Ta.
  exists bd, ad. rewrite !tagged_app, (tagged_all _ _ Tb), (tagged_all _ _ Ta).
  rewrite (tagged_none before after ad), (tagged_none after before bd) by (auto; discriminate).
  rewrite app_nil_r, app_nil_l, message_is_table. auto.
Qed.

(** X4. The message of an analysis result can be read off its damages:
    it is the table entry for the numbers of records tagged "before" and
    "after".  So the damages are empty exactly when the message is "No
    damage detected in either image.", and the message is "Damage detected
    successfully." exactly when there are records of both tags. *)
Theorem analyze_pair_message_from_damages fs bp ap r :
  analyze_pair fs bp ap = Ok r ->
  message r = Some (summary_table (List.length (tagged before (damages r)))
                                  (List.length (tagged after (damages r)))) /\
  (damages r = [] <-> message r = Some "No damage detected in either image.") /\
  (message r = Some "Damage detected successfully." <->
   tagged before (damages r) <> [] /\ tagged after (damages r) <> []).
Proof.
  intros H.
  destruct (analyze_pair_tagged _ _ _ _ H) as (bd & ad & Hbd & Had & -> & -> & ->).
  apply analyze_pair_Ok in H as (bd' & ad' & Hbd' & Had' & -> & _).
  rewrite Hbd in Hbd'. injection Hbd' as <-. rewrite Had in Had'. injection Had' as <-.
  split; [reflexivity|]. split.
  - destruct bd, ad; cbn; split; intros; try reflexivity; discriminate.
  - destruct bd, ad; cbn; split; try discriminate; try (intros [? ?]; congruence).
    intros _. split; discriminate.
Qed.

(** X5. The identifiers number the records of each image from 0: the
    record at index [k] among those tagged [t] has the identifier
    "<t>-<k>". *)
Theorem analyze_pair_identifiers fs bp ap r t k d :
  analyze_pair fs bp ap = Ok r ->
  tagged t (damages r) !! k = Some d ->
  id d = image_type_str t +:+ "-" +:+ str_of_int (Z.of_nat k).
Proof.
  intros H Hk.
  destruct (analyze_pair_tagged _ _ _ _ H) as (bd & ad & Hbd & Had & Eb & Ea & _).
  destruct t.
  - rewrite Eb in Hk. apply (run_yolo_on_image_fields _ _ _ _ _ _ Hbd Hk).
  - rewrite Ea in Hk. apply (run_yolo_on_image_fields _ _ _ _ _ _ Had Hk).
Qed.

(** The tag enters a record through [id] and [imageType] only. *)
Lemma damage_of_box_retag pil_img results t1 t2 i box :
  match damage_of_box pil_img results t1 i box with
  | Ok d1 =>
      exists d2, damage_of_box pil_img results t2 i box = Ok d2 /\ same_finding d1 d2
  | Raise e => damage_of_box pil_img results t2 i box = Raise e
  end.
Proof.
  unfold damage_of_box.
  destruct (xyxy box) as [[[x1 y1] x2] y2].
  destruct (crop_patch pil_img (x1, y1, x2, y2)) as [patch|e0]; cbn [rbind]; [|reflexivity].
  destruct (predict_severity patch) as [[label conf]|e1]; cbn [rbind]; [|reflexivity].
  destruct (orig_shape results) as [h w].
  eexists. split; [reflexivity|]. repeat split.
Qed.

Lemma damages_loop_retag pil_img results t1 t2 bs :
  forall i acc1 acc2,
    Forall2 same_finding acc1 acc2 ->
    match damages_loop pil_img results t1 i bs acc1 with
    | Ok ds1 =>
        exists ds2,
          damages_loop pil_img results t2 i bs acc2 = Ok ds2 /\
          Forall2 same_finding ds1 ds2
    | Raise e => damages_loop pil_img results t2 i bs acc2 = Raise e
    end.
Proof.
  induction bs as [|box bs IH]; intros i acc1 acc2 Hacc; cbn [damages_loop].
  - eauto.
  - pose proof (damage_of_box_retag pil_img results t1 t2 i box) as Hbox.
    destruct (damage_of_box pil_img results t1 i box) as [d1|e]; cbn [rbind].
    + destruct Hbox as (d2 & -> & Hsame). cbn [rbind].
      apply IH. apply Forall2_app; [exact Hacc|]. constructor; [exact Hsame | constructor].
    + rewrite Hbox. reflexivity.
Qed.

Lemma run_yolo_on_image_retag fs path t1 t2 :
  match run_yolo_on_image fs path t1 with
  | Ok ds1 =>
      exists ds2, run_yolo_on_image fs path t2 = Ok ds2 /\ Forall2 same_finding ds1 ds2
  | Raise e => run_yolo_on_image fs path t2 = Raise e
  end.
Proof.
  unfold run_yolo_on_image.
  destruct (load_image fs path) as [img|e]; cbn [rbind]; [|reflexivity].
  destruct (read_file fs path) as [data|e]; cbn [rbind]; [|reflexivity].
  destruct (yolo_model data) as [res|e]; cbn [rbind]; [|reflexivity].
  apply damages_loop_retag. constructor.
Qed.

(** X6. What [run_yolo_on_image] finds does not depend on the tag it is
    given: run on the same file with another tag, it raises the same
    exception or returns records that agree one by one in area, type,
    severity and bounding box. *)
Theorem run_yolo_on_image_tag_independent fs path t1 t2 :
  (forall ds1, run_yolo_on_image fs path t1 = Ok ds1 ->
     exists ds2,
       run_yolo_on_image fs path t2 = Ok ds2 /\ Forall2 same_finding ds1 ds2) /\
  (forall e, run_yolo_on_image fs path t1 = Raise e <->
             run_yolo_on_image fs path t2 = Raise e).
Proof.
  pose proof (run_yolo_on_image_retag fs path t1 t2) as H12.
  pose proof (run_yolo_on_image_retag fs path t2 t1) as H21.
  split.
  - intros ds1 H. rewrite H in H12. exact H12.
  - intros e. split; intros H.
    + rewrite H in H12. exact H12.
    + rewrite H in H21. exact H21.
Qed.

(** X7. When the same file is given as the before and as the after
    image, the damages are two lists of equal length whose records agree
    one by one in area, type, severity and bounding box, and the message
    is "No damage detected in either image." or "Damage detected
    successfully.", never one of the two that name a single image. *)
Theorem analyze_pair_same_image fs path r :
  analyze_pair fs path path = Ok r ->
  exists ds1 ds2,
    damages r = (ds1 ++ ds2)%list /\
    Forall2 same_finding ds1 ds2 /\
    (message r = Some "No damage detected in either image." \/
     message r = Some "Damage detected successfully.").
Proof.
  intros H.
  destruct (analyze_pair_tagged _ _ _ _ H) as (bd & ad & Hbd & Had & _ & _ & Hm).
  apply analyze_pair_Ok in H as (bd' & ad' & Hbd' & Had' & Hd & _).
  rewrite Hbd in Hbd'. injection Hbd' as <-. rewrite Had in Had'. injection Had' as <-.
  pose proof (run_yolo_on_image_retag fs path before after) as Hre.
  rewrite Hbd in Hre. destruct Hre as (ad' & Had' & Hsame).
  rewrite Had in Had'. injection Had' as <-.
  exists bd, ad. split; [exact Hd|]. split; [exact Hsame|].
  rewrite Hm. destruct Hsame; cbn; auto.
Qed.

End LoopOutcomes.

Lemma analyze_pair_severities_witness :
  exists r,
    analyze_pair (B := demo_backend binary32) demo_files "/in/b.jpg" "/in/a.jpg" = Ok r /\
    Forall (fun d => severity d = "minor" \/ severity d = "moderate" \/
                     severity d = "severe") (damages r).
Proof.
  eexists.
  assert (E : analyze_pair (B := demo_backend binary32) demo_files "/in/b.jpg" "/in/a.jpg"
              = Ok _) by (vm_compute; reflexivity).
  split; [exact E | exact (analyze_pair_severities _ _ _ _ E)].
Defined.

Lemma analyze_pair_message_from_damages_witness :
  exists r,
    analyze_pair (B := demo_backend binary32) demo_files "/in/b.jpg" "/in/a.jpg" = Ok r /\
    message r = Some "Damage detected successfully." /\
    tagged before (damages r) <> [] /\ tagged after (damages r) <> [].
Proof.
  eexists.
  assert (E : analyze_pair (B := demo_backend binary32) demo_files "/in/b.jpg" "/in/a.jpg"
              = Ok _) by (vm_compute; reflexivity).
  destruct (analyze_pair_message_from_damages _ _ _ _ E) as (_ & _ & Hiff).
  split; [exact E|]. split; [reflexivity|]. exact (proj1 Hiff eq_refl).
Defined.

Lemma analyze_pair_identifiers_witness :
  exists r d,
    analyze_pair (B := demo_backend binary32) demo_files "/in/b.jpg" "/in/a.jpg" = Ok r /\
    damages r !! 2%nat = Some d /\
    tagged after (damages r) !! 0%nat = Some d /\
    id d = "after-0".
Proof.
  eexists. eexists.
  assert (E : analyze_pair (B := demo_backend binary32) demo_files "/in/b.jpg" "/in/a.jpg"
              = Ok _) by (vm_compute; reflexivity).
  split; [exact E|]. split; [reflexivity|].
  match goal with |- ?T /\ _ => assert (Ht : T) by reflexivity end.
  split; [exact Ht|].
  exact (analyze_pair_identifiers _ _ _ _ after 0%nat _ E Ht).
Defined.

Lemma run_yolo_on_image_tag_independent_witness :
  exists ds1 ds2,
    run_yolo_on_image (B := demo_backend binary32) demo_files "/in/b.jpg" before = Ok ds1 /\
    run_yolo_on_image (B := demo_backend binary32) demo_files "/in/b.jpg" after = Ok ds2 /\
    Forall2 same_finding ds1 ds2.
Proof.
  eexists.
  assert (E : run_yolo_on_image (B := demo_backend binary32) demo_files "/in/b.jpg" before
              = Ok _) by (vm_compute; reflexivity).
  destruct (proj1 (run_yolo_on_image_tag_independent (B := demo_backend binary32)
                     demo_files "/in/b.jpg" before after) _ E) as (ds2 & H2 & Hs).
  exists ds2. auto.
Defined.

Lemma analyze_pair_same_image_witness :
  exists r ds1 ds2,
    analyze_pair (B := demo_backend binary32) demo_files "/in/b.jpg" "/in/b.jpg" = Ok r /\
    damages r = (ds1 ++ ds2)%list /\
    Forall2 same_finding ds1 ds2.
Proof.
  eexists.
  assert (E : analyze_pair (B := demo_backend binary32) demo_files "/in/b.jpg" "/in/b.jpg"
              = Ok _) by (vm_compute; reflexivity).
  destruct (analyze_pair_same_image _ _ _ E) as (ds1 & ds2 & Hd & Hs & _).
  exists ds1, ds2. auto.
Defined.

(** ** The severity classifier adapter, outcome by outcome *)

Lemma argmax_go_nan ip :
  forall mp max_ind i k,
    ip !! k = Some S754_nan ->
    (forall j p, (j < k)%nat -> ip !! j = Some p -> is_nan p = false) ->
    argmax_go mp max_ind i ip = (i + k)%nat.
Proof.
  induction ip as [|x ip IH]; intros mp max_ind i k Hk Hbefore; [destruct k; discriminate|].
  destruct k as [|k]; cbn [argmax_go].
  - injection Hk as ->. cbn. lia.
  - assert (Hx : is_nan x = false) by (apply (Hbefore 0%nat); [lia | reflexivity]).
    assert (Hrest : forall j p, (j < k)%nat -> ip !! j = Some p -> is_nan p = false).
    { intros j p Hj Hp. apply (Hbefore (S j)); [lia | exact Hp]. }
    rewrite Hx. destruct (negb (SFleb x mp)).
    + rewrite (IH x i (S i) k Hk Hrest). lia.
    + rewrite (IH mp max_ind (S i) k Hk Hrest). lia.
Qed.

(** [np.argmax] of scores with a NaN is the index of the first NaN. *)
Lemma np_argmax_nan a k :
  a !! k = Some S754_nan ->
  (forall j p, (j < k)%nat -> a !! j = Some p -> is_nan p = false) ->
  np_argmax a = Ok k.
Proof.
  destruct a as [|x ip]; [destruct k; discriminate|]. intros Hk Hbefore.
  cbn [np_argmax]. destruct k as [|k].
  - injection Hk as ->. reflexivity.
  - assert (Hx : is_nan x = false) by (apply (Hbefore 0%nat); [lia | reflexivity]).
    rewrite Hx. f_equal. apply (argmax_go_nan ip x 0%nat 1%nat k Hk).
    intros j p Hj Hp. apply (Hbefore (S j)); [lia | exact Hp].
Qed.

Section ClassifierOutcomes.
Context {B : Backend}.

(** X8. What [predict_severity] does with the scores the model returns:
    with no score, [np.argmax] raises ValueError; otherwise the index of
    the maximum lies within the scores, a label is returned if that index
    is below 3 and IndexError is raised if it is not (a model with more
    than three outputs).  With one to three scores a label is always
    returned. *)
Theorem predict_severity_outcomes patch_tensor preds :
  severity_model_predict patch_tensor = Ok preds ->
  (preds = [] ->
   predict_severity patch_tensor
   = Raise (ValueError "attempt to get argmax of an empty sequence")) /\
  (preds <> [] ->
   exists idx,
     np_argmax preds = Ok idx /\ (idx < List.length preds)%nat /\
     ((idx < 3)%nat ->
      exists label conf, predict_severity patch_tensor = Ok (label, conf)) /\
     ((3 <= idx)%nat ->
      predict_severity patch_tensor = Raise (IndexError "list index out of range"))) /\
  (preds <> [] -> (List.length preds <= 3)%nat ->
   exists label conf, predict_severity patch_tensor = Ok (label, conf)).
Proof.
  intros Hpreds. unfold predict_severity. rewrite Hpreds. cbn [rbind].
  assert (Hne : preds <> [] ->
     exists idx,
       np_argmax preds = Ok idx /\ (idx < List.length preds)%nat /\
       ((idx < 3)%nat ->
        exists label conf,
          (let! idx := np_argmax preds in
           let! label := py_index SEVERITY_CLASSES idx in
           let! conf := py_index preds idx in Ok (label, conf)) = Ok (label, conf)) /\
       ((3 <= idx)%nat ->
          (let! idx := np_argmax preds in
           let! label := py_index SEVERITY_CLASSES idx in
           let! conf := py_index preds idx in Ok (label, conf))
          = Raise (IndexError "list index out of range"))).
  { intros Hn. destruct (np_argmax preds) as [idx|e] eqn:Hidx.
    2:{ destruct preds; [congruence | discriminate]. }
    pose proof (np_argmax_lt _ _ Hidx) as Hlt.
    exists idx. split; [reflexivity|]. split; [exact Hlt|]. cbn [rbind]. split.
    - intros H3.
      destruct (lookup_lt_is_Some_2 SEVERITY_CLASSES idx) as [l Hl]; [simpl; lia|].
      destruct (lookup_lt_is_Some_2 preds idx) as [c Hc]; [lia|].
      exists l, c. unfold py_index. rewrite Hl, Hc. reflexivity.
    - intros H3. unfold py_index.
      rewrite (lookup_ge_None_2 SEVERITY_CLASSES idx) by (simpl; lia). reflexivity. }
  split; [intros ->; reflexivity|]. split; [exact Hne|].
  intros Hn Hlen. destruct (Hne Hn) as (idx & Hidx & Hlt & Hok & _).
  apply Hok. lia.
Qed.

(** X9. A NaN among the scores wins: the index chosen is that of the
    first NaN, and the label returned is the class at that index, with
    NaN as its confidence, whatever the other scores are. *)
Theorem predict_severity_nan patch_tensor preds k :
  severity_model_predict patch_tensor = Ok preds ->
  preds !! k = Some S754_nan ->
  (forall j p, (j < k)%nat -> preds !! j = Some p -> is_nan p = false) ->
  np_argmax preds = Ok k /\
  forall label, SEVERITY_CLASSES !! k = Some label ->
    predict_severity patch_tensor = Ok (label, S754_nan).
Proof.
  intros Hpreds Hk Hbefore.
  pose proof (np_argmax_nan _ _ Hk Hbefore) as Hidx.
  split; [exact Hidx|]. intros label Hl.
  unfold predict_severity. rewrite Hpreds. cbn [rbind]. rewrite Hidx. cbn [rbind].
  unfold py_index. rewrite Hl, Hk. reflexivity.
Qed.

End ClassifierOutcomes.

Lemma predict_severity_outcomes_witness :
  predict_severity (B := demo_backend_with demo_yolo four_scores binary32) (1, 1)
  = Raise (IndexError "list index out of range").
Proof.
  destruct (predict_severity_outcomes (B := demo_backend_with demo_yolo four_scores binary32)
              (1, 1) four_scores eq_refl) as (_ & H & _).
  destruct (H ltac:(discriminate)) as (idx & Hidx & _ & _ & Hge).
  vm_compute in Hidx. injection Hidx as <-. apply Hge. lia.
Defined.

Lemma predict_severity_nan_witness :
  predict_severity (B := demo_backend_with demo_yolo nan_scores binary32) (1, 1)
  = Ok ("moderate", S754_nan).
Proof.
  refine (proj2 (predict_severity_nan (B := demo_backend_with demo_yolo nan_scores binary32)
                   (1, 1) nan_scores 1%nat eq_refl eq_refl _) "moderate" eq_refl).
  intros [|j] p Hj Hp; [|lia]. injection Hp as <-. reflexivity.
Defined.

(** ** The damage-type label as a normal form *)

Lemma is_cased_to_lower c : is_cased (to_lower c) = is_cased c.
Proof. destruct c as [[] [] [] [] [] [] [] []]; reflexivity. Qed.

Lemma is_cased_to_title c : is_cased (to_title c) = is_cased c.
Proof. destruct c as [[] [] [] [] [] [] [] []]; reflexivity. Qed.

Lemma to_lower_idem c : to_lower (to_lower c) = to_lower c.
Proof. destruct c as [[] [] [] [] [] [] [] []]; reflexivity. Qed.

Lemma to_title_idem c : to_title (to_title c) = to_title c.
Proof. destruct c as [[] [] [] [] [] [] [] []]; reflexivity. Qed.

Lemma py_isspace_to_lower c : py_isspace (to_lower c) = py_isspace c.
Proof. destruct c as [[] [] [] [] [] [] [] []]; reflexivity. Qed.

Lemma py_isspace_to_title c : py_isspace (to_title c) = py_isspace c.
Proof. destruct c as [[] [] [] [] [] [] [] []]; reflexivity. Qed.

Lemma space_not_cased c : py_isspace c = true -> is_cased c = false.
Proof. destruct c as [[] [] [] [] [] [] [] []]; vm_compute; congruence. Qed.

Lemma title_go_idem s : forall b, title_go b (title_go b s) = title_go b s.
Proof.
  induction s as [|c s IH]; intros b; cbn [title_go]; [reflexivity|].
  destruct b.
  - rewrite to_lower_idem, is_cased_to_lower, IH. reflexivity.
  - rewrite to_title_idem, is_cased_to_title, IH. reflexivity.
Qed.

Lemma title_go_head_space (b : bool) c :
  py_isspace (if b then to_lower c else to_title c) = py_isspace c.
Proof. destruct b; [apply py_isspace_to_lower | apply py_isspace_to_title]. Qed.

(** White space in front is uncased, so the first word starts after it. *)
Lemma lstrip_title s : lstrip (title s) = title (lstrip s).
Proof.
  unfold title. induction s as [|c s IH]; [reflexivity|].
  cbn [title_go lstrip]. rewrite py_isspace_to_title.
  destruct (py_isspace c) eqn:Hc.
  - rewrite (space_not_cased _ Hc). exact IH.
  - reflexivity.
Qed.

Lemma rstrip_title_go s : forall b, rstrip (title_go b s) = title_go b (rstrip s).
Proof.
  induction s as [|c s IH]; intros b; [reflexivity|].
  cbn [title_go rstrip]. rewrite IH, title_go_head_space.
  destruct (rstrip s) as [|r rs] eqn:Er.
  - cbn [title_go]. destruct (py_isspace c); reflexivity.
  - cbn [title_go]. reflexivity.
Qed.

(** Stripping and title-casing commute. *)
Lemma strip_title s : strip (title s) = title (strip s).
Proof. unfold strip. rewrite lstrip_title. apply rstrip_title_go. Qed.

Lemma lstrip_fixed s :
  (forall c, first_char s = Some c -> py_isspace c = false) -> lstrip s = s.
Proof.
  destruct s as [|c s]; [reflexivity|]. intros H. cbn. rewrite (H c eq_refl). reflexivity.
Qed.

Lemma rstrip_fixed s :
  (forall c, last_char s = Some c -> py_isspace c = false) -> rstrip s = s.
Proof.
  induction s as [|c s IH]; [reflexivity|]. intros H. cbn [rstrip].
  destruct s as [|c' s'].
  - cbn. rewrite (H c eq_refl). reflexivity.
  - rewrite IH by (intros x Hx; apply H; exact Hx). reflexivity.
Qed.

Lemma strip_idem s : strip (strip s) = strip s.
Proof.
  destruct (strip_spec s) as (l & r & _ & _ & _ & Hf & Hl).
  unfold strip at 1. rewrite (lstrip_fixed _ Hf). apply rstrip_fixed. exact Hl.
Qed.

Lemma label_normal_form s : title (strip (title (strip s))) = title (strip s).
Proof.
  rewrite strip_title, strip_idem. unfold title. apply title_go_idem.
Qed.

Section Labels.
Context {B : Backend}.

(** X10. For a detection whose class name is an ASCII string (the
    fallback always is), the damage-type label is ASCII and in normal
    form: stripping and title-casing it again, as the code does with the
    detector's name, gives the label back. *)
Theorem type_label_normal_form fs path t ds res k d box :
  run_yolo_on_image fs path t = Ok ds ->
  detect fs path = Ok res ->
  ds !! k = Some d ->
  boxes res !! k = Some box ->
  ascii_name res (cls box) ->
  is_ascii (type d) = true /\ title (strip (type d)) = type d.
Proof.
  intros H Hres Hk Hbox Hascii.
  destruct (run_yolo_on_image_record _ _ _ _ _ _ H Hk)
    as (res' & box' & label & Hres' & Hbox' & ->).
  rewrite Hres in Hres'. injection Hres' as <-.
  rewrite Hbox in Hbox'. injection Hbox' as <-.
  cbn [type record_of]. split.
  - apply is_ascii_title, is_ascii_strip, is_ascii_raw_type_name, Hascii.
  - apply label_normal_form.
Qed.

(** X11. Detections of classes that the model's lookup does not name
    keep their classes apart: two such records of a run have the same
    damage-type label exactly when their class indices are equal. *)
Theorem unmapped_classes_keep_apart fs path t ds res k1 k2 d1 d2 b1 b2 :
  run_yolo_on_image fs path t = Ok ds ->
  detect fs path = Ok res ->
  ds !! k1 = Some d1 -> boxes res !! k1 = Some b1 ->
  ds !! k2 = Some d2 -> boxes res !! k2 = Some b2 ->
  names res !! cls b1 = None ->
  names res !! cls b2 = None ->
  (type d1 = type d2 <-> cls b1 = cls b2).
Proof.
  intros H Hres Hd1 Hb1 Hd2 Hb2 Hn1 Hn2.
  destruct (run_yolo_on_image_record _ _ _ _ _ _ H Hd1) as (res1 & b1' & l1 & Hr1 & Hb1' & ->).
  destruct (run_yolo_on_image_record _ _ _ _ _ _ H Hd2) as (res2 & b2' & l2 & Hr2 & Hb2' & ->).
  rewrite Hres in Hr1, Hr2. injection Hr1 as <-. injection Hr2 as <-.
  rewrite Hb1 in Hb1'. injection Hb1' as <-.
  rewrite Hb2 in Hb2'. injection Hb2' as <-.
  cbn [type record_of]. unfold raw_type_name. rewrite Hn1, Hn2. cbn [default].
  rewrite !fallback_label. split.
  - intros E. injection E as E. apply pretty_Z_inj in E. exact E.
  - intros ->. reflexivity.
Qed.

End Labels.

Lemma type_label_normal_form_witness :
  exists d0 d1,
    run_yolo_on_image (B := demo_backend binary32) demo_files "/in/b.jpg" before
    = Ok [d0; d1] /\
    type d0 = "Crushed_Panel" /\
    title (strip (type d0)) = type d0.
Proof.
  eexists. eexists.
  assert (E : run_yolo_on_image (B := demo_backend binary32) demo_files "/in/b.jpg" before
              = Ok [_; _]) by (vm_compute; reflexivity).
  assert (R : detect (B := demo_backend binary32) demo_files "/in/b.jpg"
              = Ok {| orig_shape := (480, 640);
                      boxes := [demo_box Byte.x01; demo_box Byte.x07];
                      names := demo_names |}) by reflexivity.
  assert (A : ascii_name {| orig_shape := (480, 640);
                            boxes := [demo_box Byte.x01; demo_box Byte.x07];
                            names := demo_names |} (cls (demo_box Byte.x01))).
  { intros name Hn. vm_compute in Hn. injection Hn as <-. reflexivity. }
  split; [exact E|]. split; [reflexivity|].
  exact (proj2 (type_label_normal_form (B := demo_backend binary32)
                  _ _ _ _ _ 0%nat _ _ E R eq_refl eq_refl A)).
Defined.

Lemma unmapped_classes_keep_apart_witness :
  exists d1 d2,
    run_yolo_on_image (B := demo_backend binary32) unnamed_files "/in/c.jpg" after
    = Ok [d1; d2] /\
    type d1 <> type d2.
Proof.
  eexists. eexists.
  assert (E : run_yolo_on_image (B := demo_backend binary32) unnamed_files "/in/c.jpg" after
              = Ok [_; _]) by (vm_compute; reflexivity).
  split; [exact E|].
  assert (R : detect (B := demo_backend binary32) unnamed_files "/in/c.jpg"
              = Ok {| orig_shape := (480, 640);
                      boxes := [demo_box Byte.x07; demo_box Byte.x08];
                      names := demo_names |}) by reflexivity.
  intros Heq.
  apply (unmapped_classes_keep_apart (B := demo_backend binary32) _ _ _ _ _ 0%nat 1%nat
           _ _ _ _ E R eq_refl eq_refl eq_refl eq_refl eq_refl eq_refl) in Heq.
  discriminate Heq.
Defined.

(** ** The bounding box of an image without width or height *)

Lemma fdiv_int_zero F a : SF2Q (fdiv_int F a 0) = None.
Proof. destruct a as [s|s| |s m e]; reflexivity. Qed.

Section DegenerateShape.
Context {B : Backend}.

(** X12. A width or height of 0 in the detector's image shape does not
    make the run fail.  Whenever the image loads, the detector answers
    and every box crops and classifies, [run_yolo_on_image] returns one
    record per box also for such a shape: NumPy divides by zero without
    raising, and each record carries an infinity or a NaN, not a number,
    in [x] and [width] (for width 0) or in [y] and [height] (for height
    0), so its box is in no unit square. *)
Theorem zero_shape_gives_no_number fs path t img res :
  load_image fs path = Ok img ->
  detect fs path = Ok res ->
  (forall k box, boxes res !! k = Some box ->
     exists patch label conf,
       crop_patch img (xyxy box) = Ok patch /\
       predict_severity patch = Ok (label, conf)) ->
  snd (orig_shape res) = 0 \/ fst (orig_shape res) = 0 ->
  exists ds,
    run_yolo_on_image fs path t = Ok ds /\
    List.length ds = List.length (boxes res) /\
    forall k d, ds !! k = Some d ->
      (snd (orig_shape res) = 0 ->
       SF2Q (bbox_x (bbox d)) = None /\ SF2Q (bbox_width (bbox d)) = None) /\
      (fst (orig_shape res) = 0 ->
       SF2Q (bbox_y (bbox d)) = None /\ SF2Q (bbox_height (bbox d)) = None) /\
      forall tol, ~ within_unit_square tol (bbox d).
Proof.
  intros Himg Hres Hall Hz.
  destruct (run_yolo_on_image fs path t) as [ds|e] eqn:E.
  2:{ exfalso. unfold run_yolo_on_image in E. rewrite Himg in E. cbn [rbind] in E.
      unfold detect in Hres.
      destruct (read_file fs path) as [data|e0]; [|discriminate]. cbn [rbind] in *.
      rewrite Hres in E. cbn [rbind] in E.
      apply damages_loop_Raise in E as (k & box & Hk & _ & Hfail).
      apply damage_of_box_Raise in Hfail.
      destruct (Hall k box Hk) as (patch & label & conf & Hc & Hp).
      destruct Hfail as [Hf | (p & Hc' & Hp')]; congruence. }
  exists ds. split; [reflexivity|].
  destruct (run_yolo_on_image_Ok _ _ _ _ E) as (_ & res' & _ & Hres' & Hlen & _).
  rewrite Hres in Hres'. injection Hres' as <-. split; [exact Hlen|].
  intros k d Hk.
  destruct (run_yolo_on_image_record _ _ _ _ _ _ E Hk) as (res' & box & label & Hr & _ & ->).
  rewrite Hres in Hr. injection Hr as <-.
  cbn [bbox record_of]. unfold bbox_norm.
  destruct (xyxy box) as [[[x1 y1] x2] y2]. cbn [bbox_x bbox_y bbox_width bbox_height].
  assert (Hw : snd (orig_shape res) = 0 ->
               SF2Q (fdiv_int scalar_div_fmt x1 (snd (orig_shape res))) = None /\
               SF2Q (fdiv_int scalar_div_fmt (fsub32 x2 x1) (snd (orig_shape res))) = None).
  { intros ->. split; apply fdiv_int_zero. }
  assert (Hh : fst (orig_shape res) = 0 ->
               SF2Q (fdiv_int scalar_div_fmt y1 (fst (orig_shape res))) = None /\
               SF2Q (fdiv_int scalar_div_fmt (fsub32 y2 y1) (fst (orig_shape res))) = None).
  { intros ->. split; apply fdiv_int_zero. }
  split; [exact Hw|]. split; [exact Hh|].
  intros tol (x & y & wd & ht & Ex & Ey & _). cbn in Ex, Ey.
  destruct Hz as [Hz | Hz].
  - destruct (Hw Hz) as [E0 _]. congruence.
  - destruct (Hh Hz) as [E0 _]. congruence.
Qed.

End DegenerateShape.

Lemma zero_shape_gives_no_number_witness :
  exists d,
    run_yolo_on_image (B := demo_backend_with flat_yolo demo_scores binary32)
      demo_files "/in/a.jpg" before = Ok [d] /\
    bbox_x (bbox d) = S754_infinity false /\
    forall tol, ~ within_unit_square tol (bbox d).
Proof.
  assert (Hall : forall (k : nat) box,
             [demo_box Byte.x02] !! k = Some box ->
             exists patch label conf,
               crop_patch (B := demo_backend_with flat_yolo demo_scores binary32)
                 (640, 480) (xyxy box) = Ok patch /\
               predict_severity (B := demo_backend_with flat_yolo demo_scores binary32)
                 patch = Ok (label, conf)).
  { intros [|k] box Hk; [|discriminate]. injection Hk as <-.
    do 3 eexists. split; reflexivity. }
  destruct (zero_shape_gives_no_number
              (B := demo_backend_with flat_yolo demo_scores binary32)
              demo_files "/in/a.jpg" before (640, 480)
              {| orig_shape := (480, 0); boxes := [demo_box Byte.x02]; names := demo_names |}
              eq_refl eq_refl Hall (or_introl eq_refl)) as (ds & E & _ & Hrec).
  vm_compute in E. injection E as <-.
  eexists. split; [vm_compute; reflexivity|]. split; [reflexivity|].
  exact (proj2 (proj2 (Hrec 0%nat _ eq_refl))).
Defined.

(** ** Which class names share a label *)

Lemma to_title_to_lower c : to_title (to_lower c) = to_title c.
Proof. destruct c as [[] [] [] [] [] [] [] []]; reflexivity. Qed.

Lemma to_lower_to_title c : to_lower (to_title c) = to_lower c.
Proof. destruct c as [[] [] [] [] [] [] [] []]; reflexivity. Qed.

Lemma lower_title_go s : forall b, lower (title_go b s) = lower s.
Proof.
  induction s as [|c s IH]; intros b; [reflexivity|].
  cbn [title_go lower]. rewrite IH.
  destruct b; [rewrite to_lower_idem | rewrite to_lower_to_title]; reflexivity.
Qed.

Lemma title_go_lower s : forall b, title_go b (lower s) = title_go b s.
Proof.
  induction s as [|c s IH]; intros b; [reflexivity|].
  cbn [title_go lower]. rewrite is_cased_to_lower, IH.
  destruct b; [rewrite to_lower_idem | rewrite to_title_to_lower]; reflexivity.
Qed.

(** Two strings have the same title-cased form exactly when they agree
    up to the case of their letters. *)
Lemma title_eq_iff s1 s2 : title s1 = title s2 <-> lower s1 = lower s2.
Proof.
  unfold title. split; intros H.
  - rewrite <- (lower_title_go s1 false), <- (lower_title_go s2 false), H. reflexivity.
  - rewrite <- (title_go_lower s1 false), <- (title_go_lower s2 false), H. reflexivity.
Qed.

Section LabelEquality.
Context {B : Backend}.

(** X13. Two records of a run whose detections have ASCII class names
    (the lookup's name, or the fallback for an unmapped class) have the
    same damage-type label exactly when those names agree, after
    stripping, up to the case of their letters. *)
Theorem type_labels_equal_iff fs path t ds res k1 k2 d1 d2 b1 b2 :
  run_yolo_on_image fs path t = Ok ds ->
  detect fs path = Ok res ->
  ds !! k1 = Some d1 -> boxes res !! k1 = Some b1 ->
  ds !! k2 = Some d2 -> boxes res !! k2 = Some b2 ->
  ascii_name res (cls b1) ->
  ascii_name res (cls b2) ->
  is_ascii (raw_type_name res (cls b1)) = true /\
  is_ascii (raw_type_name res (cls b2)) = true /\
  (type d1 = type d2 <->
   lower (strip (raw_type_name res (cls b1))) = lower (strip (raw_type_name res (cls b2)))).
Proof.
  intros H Hres Hd1 Hb1 Hd2 Hb2 Ha1 Ha2.
  destruct (run_yolo_on_image_record _ _ _ _ _ _ H Hd1) as (res1 & b1' & l1 & Hr1 & Hb1' & ->).
  destruct (run_yolo_on_image_record _ _ _ _ _ _ H Hd2) as (res2 & b2' & l2 & Hr2 & Hb2' & ->).
  rewrite Hres in Hr1, Hr2. injection Hr1 as <-. injection Hr2 as <-.
  rewrite Hb1 in Hb1'. injection Hb1' as <-.
  rewrite Hb2 in Hb2'. injection Hb2' as <-.
  split; [apply is_ascii_raw_type_name, Ha1|].
  split; [apply is_ascii_raw_type_name, Ha2|].
  cbn [type record_of]. apply title_eq_iff.
Qed.

End LabelEquality.

Lemma type_labels_equal_iff_witness :
  exists d1 d2,
    run_yolo_on_image (B := demo_backend_with alias_yolo demo_scores binary32)
      alias_files "/in/d.jpg" before = Ok [d1; d2] /\
    type d1 = type d2.
Proof.
  eexists. eexists.
  assert (E : run_yolo_on_image (B := demo_backend_with alias_yolo demo_scores binary32)
                alias_files "/in/d.jpg" before = Ok [_; _]) by (vm_compute; reflexivity).
  split; [exact E|].
  assert (R : detect (B := demo_backend_with alias_yolo demo_scores binary32)
                alias_files "/in/d.jpg"
              = Ok {| orig_shape := (480, 640);
                      boxes := [demo_box Byte.x01; demo_box Byte.x02];
                      names := alias_names |}) by reflexivity.
  assert (A : forall c : Z,
             ascii_name {| orig_shape := (480, 640);
                           boxes := [demo_box Byte.x01; demo_box Byte.x02];
                           names := alias_names |} c).
  { intros c name Hn. cbn [names] in Hn. unfold alias_names in Hn.
    apply lookup_insert_Some in Hn as [[_ <-] | [_ Hn]]; [reflexivity|].
    apply lookup_singleton_Some in Hn as [_ <-]. reflexivity. }
  apply (proj2 (proj2 (proj2 (type_labels_equal_iff
                  (B := demo_backend_with alias_yolo demo_scores binary32)
                  _ _ _ _ _ 0%nat 1%nat _ _ _ _ E R eq_refl eq_refl eq_refl eq_refl
                  (A _) (A _))))).
  vm_compute. reflexivity.
Defined.

(** ** The names of the temporary files *)

Lemma string_forall_app P s t :
  string_forall P (s +:+ t) = string_forall P s && string_forall P t.
Proof.
  induction s as [|a s IH]; [reflexivity|].
  rewrite append_String. cbn [string_forall]. rewrite IH. apply andb_assoc.
Qed.

Lemma string_forall_get P s :
  (forall k ch, String.get k s = Some ch -> P ch = true) -> string_forall P s = true.
Proof.
  induction s as [|a s IH]; [reflexivity|]. intros H. cbn [string_forall].
  rewrite (H 0%nat a eq_refl). apply IH. intros k ch Hk. apply (H (S k)). exact Hk.
Qed.

Lemma string_forall_impl (P Q : ascii -> bool) s :
  (forall c, P c = true -> Q c = true) ->
  string_forall P s = true -> string_forall Q s = true.
Proof.
  intros HPQ. induction s as [|a s IH]; [reflexivity|]. cbn [string_forall].
  intros H. apply andb_true_iff in H as [Ha Hs]. rewrite (HPQ _ Ha), (IH Hs). reflexivity.
Qed.

Lemma append_length (s t : string) :
  String.length (s +:+ t) = (String.length s + String.length t)%nat.
Proof.
  induction s as [|a s IH]; [reflexivity|]. rewrite append_String. cbn. rewrite IH. reflexivity.
Qed.

Lemma append_get_right (s t : string) k :
  String.get (String.length s + k) (s +:+ t) = String.get k t.
Proof. induction s as [|a s IH]; [reflexivity|]. rewrite append_String. exact IH. Qed.

Lemma append_empty_r (s : string) : s +:+ "" = s.
Proof. induction s as [|a s IH]; [reflexivity|]. rewrite append_String, IH. reflexivity. Qed.

(** [rfind] returns -1 when the character does not occur, and otherwise
    the length of what stands before its last occurrence. *)
Lemma rfind_go_decomp c s :
  forall i last,
    (string_forall (is_not c) s = true /\ rfind_go c s i last = last) \/
    (exists pre post,
        s = pre +:+ String c post /\
        string_forall (is_not c) post = true /\
        rfind_go c s i last = i + Z.of_nat (String.length pre)).
Proof.
  induction s as [|a s IH]; intros i last; cbn [rfind_go string_forall].
  - left. auto.
  - destruct (IH (i + 1) (if Ascii.eqb a c then i else last))
      as [[Hs Hr] | (pre & post & -> & Hpost & Hr)].
    + unfold is_not at 1. destruct (Ascii.eqb_spec a c) as [->|Hne].
      * right. exists "", s. rewrite append_empty_l. cbn. split; [reflexivity|].
        split; [exact Hs|]. lia.
      * left. cbn. auto.
    + right. exists (String a pre), post. rewrite append_String. split; [reflexivity|].
      split; [exact Hpost|]. rewrite Hr. cbn [String.length]. lia.
Qed.

Lemma rfind_decomp c s :
  (string_forall (is_not c) s = true /\ rfind c s = -1) \/
  (exists pre post,
      s = pre +:+ String c post /\
      string_forall (is_not c) post = true /\
      rfind c s = Z.of_nat (String.length pre)).
Proof.
  destruct (rfind_go_decomp c s 0 (-1)) as [H | (pre & post & H1 & H2 & H3)]; [auto|].
  right. exists pre, post. rewrite Z.add_0_l in H3. auto.
Qed.

Lemma rfind_go_ge c s : forall i last, last < i -> last <= rfind_go c s i last.
Proof.
  induction s as [|a s IH]; intros i last H; cbn [rfind_go]; [lia|].
  destruct (Ascii.eqb a c).
  - specialize (IH (i + 1) i). lia.
  - specialize (IH (i + 1) last). lia.
Qed.

(** No occurrence lies after the index that [rfind] returns. *)
Lemma rfind_go_upper c s :
  forall i last k,
    last < i -> String.get k s = Some c -> i + Z.of_nat k <= rfind_go c s i last.
Proof.
  induction s as [|a s IH]; intros i last k H Hk; [destruct k; discriminate|].
  cbn [rfind_go]. destruct k as [|k].
  - injection Hk as ->. rewrite Ascii.eqb_refl.
    pose proof (rfind_go_ge c s (i + 1) i). lia.
  - cbn in Hk.
    assert (Hl : (if Ascii.eqb a c then i else last) < i + 1) by (destruct (Ascii.eqb a c); lia).
    pose proof (IH (i + 1) _ k Hl Hk). lia.
Qed.

Lemma rfind_upper c s k : String.get k s = Some c -> Z.of_nat k <= rfind c s.
Proof. intros H. apply (rfind_go_upper c s 0 (-1) k); [lia | exact H]. Qed.

Lemma substring_all s : substring 0 (String.length s) s = s.
Proof. induction s as [|a s IH]; [reflexivity|]. cbn. rewrite IH. reflexivity. Qed.

Lemma substring_prefix (s t : string) : substring 0 (String.length s) (s +:+ t) = s.
Proof.
  induction s as [|a s IH]; [destruct t; reflexivity|].
  rewrite append_String. cbn. rewrite IH. reflexivity.
Qed.

Lemma substring_suffix (s t : string) :
  substring (String.length s) (String.length t) (s +:+ t) = t.
Proof.
  induction s as [|a s IH]; [apply substring_all|]. rewrite append_String. exact IH.
Qed.

Lemma slice_prefix (s t : string) : slice (s +:+ t) 0 (Z.of_nat (String.length s)) = s.
Proof.
  unfold slice. rewrite Z.sub_0_r, Nat2Z.id. apply substring_prefix.
Qed.

Lemma slice_suffix (s t : string) :
  slice (s +:+ t) (Z.of_nat (String.length s)) (Z.of_nat (String.length (s +:+ t))) = t.
Proof.
  unfold slice. rewrite Nat2Z.id, append_length.
  replace (Z.to_nat _) with (String.length t) by lia. apply substring_suffix.
Qed.

(** [splitext] either finds no extension, or cuts the path in front of a
    dot that is followed by no dot and no slash. *)
Lemma splitext_cases p :
  splitext p = (p, "") \/
  exists root post,
    p = root +:+ String "." post /\
    splitext p = (root, String "." post) /\
    string_forall (is_not ".") post = true /\
    string_forall (is_not "/") post = true.
Proof.
  unfold splitext.
  destruct ((rfind "/" p <? rfind "." p)%Z && _) eqn:Hc; [|auto].
  apply andb_true_iff in Hc as [Hlt _]. apply Z.ltb_lt in Hlt.
  destruct (rfind_decomp "." p) as [[_ Hd] | (root & post & Hp & Hpost & Hd)].
  - destruct (rfind_decomp "/" p) as [[_ Hs] | (pre' & post' & _ & _ & Hs)]; lia.
  - right. exists root, post. split; [exact Hp|]. split; [|split; [exact Hpost|]].
    + rewrite Hd. rewrite Hp at 1 2 3. rewrite slice_prefix, slice_suffix. reflexivity.
    + apply string_forall_get. intros k ch Hk. unfold is_not.
      destruct (Ascii.eqb_spec ch "/") as [->|]; [|reflexivity].
      assert (Hg : String.get (String.length root + S k) p = Some "/"%char).
      { rewrite Hp, append_get_right. exact Hk. }
      apply rfind_upper in Hg. lia.
Qed.

Lemma suffix_of_no_slash (upload : UploadFile) :
  string_forall (is_not "/") (suffix_of upload) = true.
Proof.
  unfold suffix_of.
  destruct (splitext_cases (default "" (filename upload)))
    as [-> | (root & post & _ & -> & _ & Hs)]; cbn [snd].
  - reflexivity.
  - cbn [String.eqb string_forall]. rewrite Hs. reflexivity.
Qed.

(** X14. The suffix of a temporary file is a dot followed by characters
    other than dot and slash.  It is ".jpg" when the upload has no file
    name or a name without extension, and otherwise the end of the
    upload's file name, from its last dot on, unchanged. *)
Theorem suffix_of_shape (upload : UploadFile) :
  (exists post,
      suffix_of upload = String "." post /\
      string_forall (is_not ".") post = true /\
      string_forall (is_not "/") post = true) /\
  (filename upload = None -> suffix_of upload = ".jpg") /\
  (forall name, filename upload = Some name ->
     (string_forall (is_not ".") name = true -> suffix_of upload = ".jpg") /\
     (suffix_of upload = ".jpg" \/ exists root, name = root +:+ suffix_of upload)).
Proof.
  unfold suffix_of. split; [|split].
  - destruct (splitext_cases (default "" (filename upload)))
      as [-> | (root & post & Hp & -> & Hd & Hs)]; cbn [snd].
    + exists "jpg". auto.
    + cbn [String.eqb]. eauto.
  - intros ->. reflexivity.
  - intros name ->. change (default "" (Some name)) with name.
    destruct (splitext_cases name) as [-> | (root & post & Hp & -> & Hd & Hs)]; cbn [snd].
    + cbn. auto.
    + cbn [String.eqb]. split; [|eauto].
      intros Hn. rewrite Hp, string_forall_app in Hn.
      apply andb_true_iff in Hn as [_ Hn]. discriminate Hn.
Qed.

Lemma hex_not_slash c : is_hex_digit c = true -> is_not "/" c = true.
Proof. destruct c as [[] [] [] [] [] [] [] []]; vm_compute; congruence. Qed.

Section TemporaryPaths.
Context {B : Backend}.

(** X15. The two temporary files lie directly in /tmp, whatever file
    names the client sends: each path is "/tmp/" followed by a name
    without a slash (given that [uuid4().hex] consists of hexadecimal
    digits).  The two paths differ, even for equal random parts and equal
    file names. *)
Theorem temporary_paths_in_tmp env files before after bp ap :
  string_forall is_hex_digit (fst (uuid4_hex env)) = true ->
  string_forall is_hex_digit (snd (uuid4_hex env)) = true ->
  before_path (snd (try_body env before after (initial_state files))) = Some bp ->
  after_path (snd (try_body env before after (initial_state files))) = Some ap ->
  bp <> ap /\
  exists nb na,
    bp = "/tmp/" +:+ nb /\ string_forall (is_not "/") nb = true /\
    ap = "/tmp/" +:+ na /\ string_forall (is_not "/") na = true.
Proof.
  intros Hb Ha Hbp Hap.
  destruct (try_body env before after (initial_state files)) as [r st] eqn:E.
  pose proof (try_body_paths env before after files r st E) as Hpaths.
  cbn [snd] in Hbp, Hap.
  destruct (makedirs_error env).
  - destruct Hpaths as (H1 & _). congruence.
  - destruct Hpaths as (H1 & H2). rewrite H1 in Hbp. rewrite H2 in Hap.
    injection Hbp as <-. injection Hap as <-. split; [discriminate|].
    exists ("before_" +:+ fst (uuid4_hex env) +:+ suffix_of before),
           ("after_" +:+ snd (uuid4_hex env) +:+ suffix_of after).
    split; [reflexivity|]. split; [|split; [reflexivity|]].
    + rewrite !string_forall_app, suffix_of_no_slash.
      rewrite (string_forall_impl _ _ _ hex_not_slash Hb). reflexivity.
    + rewrite !string_forall_app, suffix_of_no_slash.
      rewrite (string_forall_impl _ _ _ hex_not_slash Ha). reflexivity.
Qed.

End TemporaryPaths.

Example suffix_of_examples :
  suffix_of (demo_upload "photos/2024.05/front.tar.GZ" []) = ".GZ" /\
  suffix_of (demo_upload "photos/2024.05/front" []) = ".jpg" /\
  suffix_of (demo_upload ".hidden" []) = ".jpg" /\
  suffix_of {| filename := None; read := Ok [] |} = ".jpg".
Proof. repeat split; reflexivity. Qed.

Lemma temporary_paths_in_tmp_witness :
  exists bp ap nb na,
    before_path (snd (try_body (B := demo_backend binary32) demo_env
                        (demo_upload "../../etc/passwd.d/x.png" [Byte.x01])
                        (demo_upload "x.png" [Byte.x01]) (initial_state demo_files)))
    = Some bp /\
    bp = "/tmp/" +:+ nb /\ string_forall (is_not "/") nb = true /\
    ap = "/tmp/" +:+ na /\ string_forall (is_not "/") na = true /\ bp <> ap.
Proof.
  eexists. eexists.
  assert (Eb : before_path (snd (try_body (B := demo_backend binary32) demo_env
                        (demo_upload "../../etc/passwd.d/x.png" [Byte.x01])
                        (demo_upload "x.png" [Byte.x01]) (initial_state demo_files)))
               = Some _) by (vm_compute; reflexivity).
  assert (Ea : after_path (snd (try_body (B := demo_backend binary32) demo_env
                        (demo_upload "../../etc/passwd.d/x.png" [Byte.x01])
                        (demo_upload "x.png" [Byte.x01]) (initial_state demo_files)))
               = Some _) by (vm_compute; reflexivity).
  destruct (temporary_paths_in_tmp (B := demo_backend binary32) demo_env demo_files
              _ _ _ _ eq_refl eq_refl Eb Ea) as (Hne & nb & na & H1 & H2 & H3 & H4).
  exists nb, na. split; [exact Eb|]. split; [exact H1|]. split; [exact H2|].
  split; [exact H3|]. split; [exact H4 | exact Hne].
Defined.

(** ** The endpoint, system call by system call *)

Lemma printed_app t1 t2 : printed (t1 ++ t2) = (printed t1 ++ printed t2)%list.
Proof. apply omap_app. Qed.

Section HandlerEffects.
Context {B : Backend}.
Variable env : Env.

(** What one round of the clean-up loop does to the state. *)
Lemma cleanup_path_effect (p : option string) (st : State) :
  exists st' evs,
    cleanup_path env p st = (Ok tt, st') /\
    before_path st' = before_path st /\
    after_path st' = after_path st /\
    trace st' = (trace st ++ evs)%list /\
    printed evs = [] /\
    (forall q, q <> default "" p -> fs st' !! q = fs st !! q) /\
    (forall q, p = Some q -> q <> "" ->
       evs = (if bool_decide (is_Some (fs st !! q))
              then [EvExists q; EvRemove q] else [EvExists q]) /\
       (remove_error env q = None -> fs st' = delete q (fs st))).
Proof.
  destruct p as [q|]; cbn [cleanup_path].
  2:{ exists st, []. rewrite app_nil_r. split; [reflexivity|].
      do 4 (split; [reflexivity|]). split; [reflexivity|]. intros q [=]. }
  destruct (String.eqb_spec q "") as [->|Hq].
  { exists st, []. rewrite app_nil_r. split; [reflexivity|].
    do 4 (split; [reflexivity|]). split; [reflexivity|]. intros ? [= <-]. congruence. }
  unfold os_path_exists, bind, log, get_state, ret. cbn.
  destruct (fs st !! q) as [data|] eqn:Eq.
  - rewrite bool_decide_eq_true_2 by eauto.
    unfold try_except, os_remove, bind, log, fail_if. cbn.
    destruct (remove_error env q) as [e|] eqn:Er; cbn.
    + eexists. exists [EvExists q; EvRemove q]. split; [reflexivity|]. cbn.
      rewrite <- app_assoc. do 4 (split; [reflexivity|]). split; [reflexivity|].
      intros ? [= <-] _. rewrite Eq, bool_decide_eq_true_2 by eauto.
      split; [reflexivity | congruence].
    + eexists. exists [EvExists q; EvRemove q]. split; [reflexivity|]. cbn.
      rewrite <- app_assoc. do 4 (split; [reflexivity|]). split.
      * intros q' Hq'. apply lookup_delete_ne. congruence.
      * intros ? [= <-] _. rewrite Eq, bool_decide_eq_true_2 by eauto.
        split; reflexivity.
  - rewrite bool_decide_eq_false_2 by (intros [? ?]; discriminate).
    eexists. exists [EvExists q]. split; [reflexivity|]. cbn.
    do 4 (split; [reflexivity|]). split; [reflexivity|].
    intros ? [= <-] _. rewrite Eq.
    rewrite bool_decide_eq_false_2 by (intros [? ?]; discriminate).
    split; [reflexivity|]. intros _. symmetry. apply delete_id. exact Eq.
Qed.

(** What the [finally] clause does to the state. *)
Lemma finally_clause_effect (st : State) :
  exists st' evs,
    finally_clause env st = (Ok tt, st') /\
    trace st' = (trace st ++ evs)%list /\
    printed evs = [] /\
    (forall bp ap,
        before_path st = Some bp -> after_path st = Some ap ->
        bp <> "" -> ap <> "" -> bp <> ap ->
        evs = ((if bool_decide (is_Some (fs st !! bp))
                then [EvExists bp; EvRemove bp] else [EvExists bp]) ++
               (if bool_decide (is_Some (fs st !! ap))
                then [EvExists ap; EvRemove ap] else [EvExists ap]))%list /\
        (remove_error env bp = None -> remove_error env ap = None ->
         fs st' = delete ap (delete bp (fs st)))).
Proof.
  unfold finally_clause, bind, get_state. cbv beta iota.
  destruct (cleanup_path_effect (before_path st) st)
    as (st1 & ev1 & E1 & Hb1 & Ha1 & T1 & P1 & K1 & X1).
  destruct (cleanup_path_effect (after_path st) st1)
    as (st2 & ev2 & E2 & Hb2 & Ha2 & T2 & P2 & K2 & X2).
  rewrite E1, E2. exists st2, (ev1 ++ ev2)%list. split; [reflexivity|].
  split; [rewrite T2, T1, <- app_assoc; reflexivity|].
  split; [rewrite printed_app, P1, P2; reflexivity|].
  intros bp ap Hbp Hap Nb Na Hne.
  destruct (X1 bp Hbp Nb) as [V1 F1]. destruct (X2 ap Hap Na) as [V2 F2].
  assert (Hsame : fs st1 !! ap = fs st !! ap).
  { apply K1. rewrite Hbp. cbn. congruence. }
  rewrite Hsame in V2. split; [rewrite V1, V2; reflexivity|].
  intros Rb Ra. rewrite (F2 Ra), (F1 Rb). reflexivity.
Qed.

Variables (files : FileSystem) (before after : UploadFile).

Lemma analyze_endpoint_eq :
  exists st,
    analyze_endpoint env before after (initial_state files)
    = (fst (try_except (try_body env before after) except_handler (initial_state files)),
       st) /\
    finally_clause env
      (snd (try_except (try_body env before after) except_handler (initial_state files)))
    = (Ok tt, st).
Proof.
  unfold analyze_endpoint, try_finally.
  destruct (try_except _ _ _) as [r1 st1]. cbn [fst snd].
  destruct (finally_clause_effect st1) as (st2 & evs & Ef & _).
  rewrite Ef. eauto.
Qed.

(** The steps of the [try] body, failure by failure. *)
Ltac run_try_body :=
  unfold try_body; rewrite tmp_before_eq, tmp_after_eq;
  unfold os_makedirs, bind at 1 2, log, fail_if; cbn;
  destruct (makedirs_error env); cbn;
  [| unfold save_upload, open_wb, file_write, bind, log, fail_if, lift, get_state, set_fs,
       set_before_path, set_after_path, ret, raise; cbn;
     repeat (match goal with
             | |- context [match ?x with _ => _ end] =>
                 match x with
                 | open_error _ _ => destruct x eqn:?
                 | write_error _ _ => destruct x eqn:?
                 | read _ => destruct x eqn:?
                 end
             end; cbn)].

(** The [try] body writes at the two temporary paths only and prints
    nothing. *)
Lemma try_body_frame r st :
  try_body env before after (initial_state files) = (r, st) ->
  printed (trace st) = [] /\
  forall q, q <> tmp_before env before -> q <> tmp_after env after ->
    fs st !! q = files !! q.
Proof.
  run_try_body; intros [= <- <-]; cbn; (split; [reflexivity|]); intros q Hb Ha;
    rewrite ?lookup_insert_ne by congruence; reflexivity.
Qed.

(** When the operating system and the client do their part, the analysis
    runs on the two uploads as stored. *)
Lemma try_body_stored db da :
  makedirs_error env = None ->
  open_error env (tmp_before env before) = None ->
  write_error env (tmp_before env before) = None ->
  open_error env (tmp_after env after) = None ->
  write_error env (tmp_after env after) = None ->
  read before = Ok db -> read after = Ok da ->
  exists st,
    try_body env before after (initial_state files)
    = (analyze_pair
         (<[tmp_after env after := da]> (<[tmp_before env before := db]> files))
         (tmp_before env before) (tmp_after env after), st) /\
    fs st = <[tmp_after env after := da]> (<[tmp_before env before := db]> files) /\
    before_path st = Some (tmp_before env before) /\
    after_path st = Some (tmp_after env after) /\
    trace st = [EvMakedirs "/tmp";
                EvOpen (tmp_before env before); EvWrite (tmp_before env before);
                EvOpen (tmp_after env after); EvWrite (tmp_after env after)].
Proof.
  intros Hm Hob Hwb Hoa Hwa Hrb Hra.
  unfold try_body. rewrite tmp_before_eq, tmp_after_eq.
  unfold os_makedirs, bind at 1 2, log, fail_if. cbn. rewrite Hm. cbn.
  unfold save_upload, open_wb, file_write, bind, log, fail_if, lift, get_state, set_fs,
    set_before_path, set_after_path, ret, raise. cbn.
  rewrite Hob, Hrb. cbn. rewrite Hwb. cbn. rewrite Hoa, Hra. cbn. rewrite Hwa. cbn.
  rewrite !insert_insert_eq.
  eexists. split; [reflexivity|]. cbn. auto.
Qed.

(** The state in which the [finally] clause starts, when the [try] body
    was carried through to the analysis. *)
Lemma caught_stored db da :
  makedirs_error env = None ->
  open_error env (tmp_before env before) = None ->
  write_error env (tmp_before env before) = None ->
  open_error env (tmp_after env after) = None ->
  write_error env (tmp_after env after) = None ->
  read before = Ok db -> read after = Ok da ->
  let stored := <[tmp_after env after := da]> (<[tmp_before env before := db]> files) in
  let analysis := analyze_pair stored (tmp_before env before) (tmp_after env after) in
  let caught := try_except (try_body env before after) except_handler
                  (initial_state files) in
  fst caught = match analysis with
               | Ok body => Ok body
               | Raise _ => Raise (HTTPException 500 "AI analysis failed.")
               end /\
  fs (snd caught) = stored /\
  before_path (snd caught) = Some (tmp_before env before) /\
  after_path (snd caught) = Some (tmp_after env after) /\
  trace (snd caught)
  = ([EvMakedirs "/tmp";
      EvOpen (tmp_before env before); EvWrite (tmp_before env before);
      EvOpen (tmp_after env after); EvWrite (tmp_after env after)] ++
     match analysis with
     | Ok _ => []
     | Raise e => [EvPrint e]
     end)%list.
Proof.
  intros Hm Hob Hwb Hoa Hwa Hrb Hra stored analysis caught.
  destruct (try_body_stored db da Hm Hob Hwb Hoa Hwa Hrb Hra)
    as (st0 & Etried & Efs & Ebp & Eap & Etr).
  fold stored in Etried, Efs. fold analysis in Etried.
  subst caught. unfold try_except. rewrite Etried.
  destruct analysis as [body|e]; cbn.
  - rewrite Etr. auto.
  - rewrite Etr. auto.
Qed.

End HandlerEffects.

Section EndpointOutcomes.
Context {B : Backend}.

(** X16. A request changes no file other than its two temporary files:
    at every other path the file system after the request is as it was
    before, whether the request succeeded or failed and whichever system
    calls failed. *)
Theorem endpoint_touches_only_its_temporary_files env files before after q :
  q <> tmp_before env before ->
  q <> tmp_after env after ->
  fs (snd (analyze_endpoint env before after (initial_state files))) !! q = files !! q.
Proof.
  intros Hb Ha.
  destruct (analyze_endpoint_eq env files before after) as (st & Es & Ef).
  rewrite Es. cbn [snd].
  destruct (try_body env before after (initial_state files)) as [r0 st0] eqn:Etried.
  destruct (try_body_frame env files before after r0 st0 Etried) as [_ Hframe].
  pose proof (try_body_paths env before after files r0 st0 Etried) as Hpaths.
  assert (Ecaught :
    before_path (snd (try_except (try_body env before after) except_handler
                        (initial_state files))) = before_path st0 /\
    after_path (snd (try_except (try_body env before after) except_handler
                       (initial_state files))) = after_path st0 /\
    fs (snd (try_except (try_body env before after) except_handler
               (initial_state files))) = fs st0).
  { unfold try_except. rewrite Etried. destruct r0; cbn; auto. }
  destruct Ecaught as (Eb & Ea & Efs).
  destruct (finally_clause_spec env
              (snd (try_except (try_body env before after) except_handler
                      (initial_state files)))) as (st' & Ef' & _ & _ & K).
  rewrite Ef in Ef'. injection Ef' as <-.
  destruct (K q) as [Same | [Hq _]].
  - rewrite Same, Efs. apply Hframe; assumption.
  - rewrite Eb, Ea in Hq. destruct (makedirs_error env).
    + destruct Hpaths as (H1 & H2 & _). rewrite H1, H2 in Hq. destruct Hq; discriminate.
    + destruct Hpaths as (H1 & H2). rewrite H1, H2 in Hq.
      destruct Hq as [[= <-] | [= <-]]; congruence.
Qed.

(** X17. The handler prints the exception that its [try] body raised,
    once, and prints nothing when the body returned; neither the body nor
    the clean-up prints anything else. *)
Theorem endpoint_prints_the_exception_once env files before after :
  printed (trace (snd (analyze_endpoint env before after (initial_state files))))
  = match fst (try_body env before after (initial_state files)) with
    | Ok _ => []
    | Raise e => [e]
    end.
Proof.
  destruct (analyze_endpoint_eq env files before after) as (st & Es & Ef).
  rewrite Es. cbn [snd].
  destruct (try_body env before after (initial_state files)) as [r0 st0] eqn:Etried.
  destruct (try_body_frame env files before after r0 st0 Etried) as [Hprint _].
  destruct (finally_clause_effect env
              (snd (try_except (try_body env before after) except_handler
                      (initial_state files)))) as (st' & evs & Ef' & Ht & Hp & _).
  rewrite Ef in Ef'. injection Ef' as <-.
  rewrite Ht, printed_app, Hp, app_nil_r.
  unfold try_except. rewrite Etried. cbn [fst].
  destruct r0 as [body|e]; cbn.
  - exact Hprint.
  - rewrite printed_app, Hprint. reflexivity.
Qed.

(** X18. When the directory can be made, both temporary files can be
    opened and written, and both uploads can be read, the handler's
    outcome is that of [analyze_pair] on the two uploads as stored at the
    temporary paths: its result, or HTTPException 500 "AI analysis
    failed." if it raises.  If both files can then be removed, the file
    system afterwards is the one before the request without the two
    temporary paths (a file that was at one of them is gone). *)
Theorem endpoint_analyses_the_uploads env files before after db da :
  makedirs_error env = None ->
  open_error env (tmp_before env before) = None ->
  write_error env (tmp_before env before) = None ->
  open_error env (tmp_after env after) = None ->
  write_error env (tmp_after env after) = None ->
  read before = Ok db -> read after = Ok da ->
  let stored := <[tmp_after env after := da]> (<[tmp_before env before := db]> files) in
  let handled := analyze_endpoint env before after (initial_state files) in
  fst handled
  = match analyze_pair stored (tmp_before env before) (tmp_after env after) with
    | Ok body => Ok body
    | Raise _ => Raise (HTTPException 500 "AI analysis failed.")
    end /\
  (remove_error env (tmp_before env before) = None ->
   remove_error env (tmp_after env after) = None ->
   fs (snd handled)
   = delete (tmp_after env after) (delete (tmp_before env before) files)).
Proof.
  intros Hm Hob Hwb Hoa Hwa Hrb Hra stored handled.
  destruct (caught_stored env files before after db da Hm Hob Hwb Hoa Hwa Hrb Hra)
    as (Er & Ef0 & Eb & Ea & _).
  fold stored in Er, Ef0.
  destruct (analyze_endpoint_eq env files before after) as (st & Es & Ef).
  fold handled in Es. rewrite Es. cbn [fst snd].
  split; [exact Er|].
  intros Rb Ra.
  destruct (finally_clause_effect env
              (snd (try_except (try_body env before after) except_handler
                      (initial_state files)))) as (st' & evs & Ef' & _ & _ & X).
  rewrite Ef in Ef'. injection Ef' as <-.
  destruct (X _ _ Eb Ea ltac:(discriminate) ltac:(discriminate) ltac:(discriminate))
    as [_ Hfs].
  rewrite (Hfs Rb Ra), Ef0. subst stored.
  apply map_eq. intros q.
  destruct (decide (q = tmp_after env after)) as [->|Na].
  { rewrite !lookup_delete_eq. reflexivity. }
  rewrite !(lookup_delete_ne _ (tmp_after env after)) by congruence.
  destruct (decide (q = tmp_before env before)) as [->|Nb].
  { rewrite !lookup_delete_eq. reflexivity. }
  rewrite !lookup_delete_ne by congruence.
  rewrite !lookup_insert_ne by congruence. reflexivity.
Qed.

(** X19. Under the same conditions the system calls and prints of a
    request are, in this order: make the directory; open and write the
    before file; open and write the after file; print the exception, if
    the analysis raised one; then test and remove the before file and test
    and remove the after file. *)
Theorem endpoint_system_calls env files before after db da :
  makedirs_error env = None ->
  open_error env (tmp_before env before) = None ->
  write_error env (tmp_before env before) = None ->
  open_error env (tmp_after env after) = None ->
  write_error env (tmp_after env after) = None ->
  read before = Ok db -> read after = Ok da ->
  let bp := tmp_before env before in
  let ap := tmp_after env after in
  trace (snd (analyze_endpoint env before after (initial_state files)))
  = ([EvMakedirs "/tmp"; EvOpen bp; EvWrite bp; EvOpen ap; EvWrite ap] ++
     match analyze_pair (<[ap := da]> (<[bp := db]> files)) bp ap with
     | Ok _ => []
     | Raise e => [EvPrint e]
     end ++
     [EvExists bp; EvRemove bp; EvExists ap; EvRemove ap])%list.
Proof.
  intros Hm Hob Hwb Hoa Hwa Hrb Hra bp ap.
  destruct (caught_stored env files before after db da Hm Hob Hwb Hoa Hwa Hrb Hra)
    as (_ & Ef0 & Eb & Ea & Etr).
  fold bp ap in Ef0, Eb, Ea, Etr.
  destruct (analyze_endpoint_eq env files before after) as (st & Es & Ef).
  rewrite Es. cbn [snd].
  destruct (finally_clause_effect env
              (snd (try_except (try_body env before after) except_handler
                      (initial_state files)))) as (st' & evs & Ef' & Ht & _ & X).
  rewrite Ef in Ef'. injection Ef' as <-.
  destruct (X _ _ Eb Ea ltac:(discriminate) ltac:(discriminate) ltac:(discriminate))
    as [Hevs _].
  rewrite Ht, Etr, Hevs, Ef0.
  rewrite lookup_insert_ne by discriminate. rewrite !lookup_insert_eq.
  rewrite !bool_decide_eq_true_2 by eauto.
  rewrite <- app_assoc. reflexivity.
Qed.

End EndpointOutcomes.

Lemma endpoint_touches_only_its_temporary_files_witness :
  fs (snd (analyze_endpoint (B := demo_backend binary32) failing_env
             (demo_upload "a.png" [Byte.x01]) (demo_upload "b" [Byte.x02])
             (initial_state demo_files))) !! "/in/b.jpg"
  = Some [Byte.x01; Byte.x07].
Proof.
  refine (eq_trans (endpoint_touches_only_its_temporary_files (B := demo_backend binary32)
                      failing_env demo_files (demo_upload "a.png" [Byte.x01])
                      (demo_upload "b" [Byte.x02]) "/in/b.jpg" _ _) _);
    [discriminate | discriminate | reflexivity].
Defined.

Lemma endpoint_analyses_the_uploads_witness :
  exists body,
    fst (analyze_endpoint (B := demo_backend binary32) demo_env
           (demo_upload "front.PNG" [Byte.x01]) (demo_upload "back" [])
           (initial_state demo_files))
    = Raise (HTTPException 500 "AI analysis failed.") /\
    fst (analyze_endpoint (B := demo_backend binary32) demo_env
           (demo_upload "front.PNG" [Byte.x01]) (demo_upload "back" [Byte.x02])
           (initial_state demo_files))
    = Ok body /\
    fs (snd (analyze_endpoint (B := demo_backend binary32) demo_env
               (demo_upload "front.PNG" [Byte.x01]) (demo_upload "back" [Byte.x02])
               (initial_state demo_files)))
    = demo_files.
Proof.
  eexists.
  destruct (endpoint_analyses_the_uploads (B := demo_backend binary32) demo_env demo_files
              (demo_upload "front.PNG" [Byte.x01]) (demo_upload "back" []) _ _
              eq_refl eq_refl eq_refl eq_refl eq_refl eq_refl eq_refl) as [H1 _].
  destruct (endpoint_analyses_the_uploads (B := demo_backend binary32) demo_env demo_files
              (demo_upload "front.PNG" [Byte.x01]) (demo_upload "back" [Byte.x02]) _ _
              eq_refl eq_refl eq_refl eq_refl eq_refl eq_refl eq_refl) as [H2 H3].
  split; [rewrite H1; vm_compute; reflexivity|].
  split; [rewrite H2; vm_compute; reflexivity|].
  rewrite (H3 eq_refl eq_refl). vm_compute. reflexivity.
Defined.

Lemma endpoint_system_calls_witness :
  trace (snd (analyze_endpoint (B := demo_backend binary32) demo_env
                (demo_upload "front.PNG" [Byte.x01]) (demo_upload "back" [])
                (initial_state demo_files)))
  = [EvMakedirs "/tmp";
     EvOpen "/tmp/before_0a.PNG"; EvWrite "/tmp/before_0a.PNG";
     EvOpen "/tmp/after_0b.jpg"; EvWrite "/tmp/after_0b.jpg";
     EvPrint (PyErr "UnidentifiedImageError" "cannot identify image file");
     EvExists "/tmp/before_0a.PNG"; EvRemove "/tmp/before_0a.PNG";
     EvExists "/tmp/after_0b.jpg"; EvRemove "/tmp/after_0b.jpg"].
Proof.
  rewrite (endpoint_system_calls (B := demo_backend binary32) demo_env demo_files
             (demo_upload "front.PNG" [Byte.x01]) (demo_upload "back" []) _ _
             eq_refl eq_refl eq_refl eq_refl eq_refl eq_refl eq_refl).
  vm_compute. reflexivity.
Defined.

(** ** How close the normalized box is to the exact ratios *)

Section Accuracy.
Local Open Scope Q_scope.
Variable F : fmt.
Hypothesis HFprec : (24 <= fprec F)%Z.
Hypothesis HFemax : (128 <= femax F)%Z.

(** One axis: the start and the side, each divided by the image size,
    against the exact quotients. *)
Lemma axis_accuracy a1 a2 q1 q2 n :
  (0 < n < 2 ^ 31)%Z ->
  has_value a1 q1 -> has_value a2 q2 ->
  q1 <= q2 -> q2 <= inject_Z n ->
  exists x wd,
    has_value (fdiv_int F a1 n) x /\
    has_value (fdiv_int F (fsub32 a2 a1) n) wd /\
    x * inject_Z n <= q1 + 4 * c24 * inject_Z n /\
    q1 <= x * inject_Z n + 4 * c24 * inject_Z n /\
    wd * inject_Z n <= q2 - q1 + 4 * c24 * inject_Z n /\
    q2 - q1 <= wd * inject_Z n + 4 * c24 * inject_Z n.
Proof.
  intros Hn H1 H2 H12 H2n.
  pose proof (eps_le F HFprec) as He. pose proof (eta_le F HFprec HFemax) as Ht.
  pose proof (big_le F HFemax) as Hbig.
  pose proof (pow2_pos (- fprec F)) as Pe. pose proof (pow2_pos (2 - femax F - fprec F)) as Pt.
  pose proof (has_value_nonneg _ _ H1) as Hq1.
  assert (HN1 : 1 <= inject_Z n) by (change 1 with (inject_Z 1); rewrite <- Zle_Qle; lia).
  assert (HN31 : inject_Z n < pow2 31).
  { rewrite pow2_inject by lia. rewrite <- Zlt_Qlt. lia. }
  assert (H31 : pow2 31 <= pow2 (femax F - 1)) by (apply pow2_le; lia).
  assert (H31' : pow2 31 <= pow2 (128 - 1)) by (apply pow2_le; lia).
  unfold c24 in *.
  set (N := inject_Z n) in *. set (e := pow2 (- fprec F)) in *.
  set (t := pow2 (2 - femax F - fprec F)) in *.
  (* the image size as a float *)
  destruct (binary_normalize_pos_error (fprec F) (femax F) ltac:(lia) ltac:(lia) n)
    as (w' & Hwlo & Hwhi & Hw); [lia | fold N; lra |].
  fold (float_of_int F n) in Hw. fold N e t in Hwlo, Hwhi.
  assert (HNe : N * e <= N * (1 # 16777216)) by (clear - He HN1; nra).
  assert (Hw1 : N * (1 - (1 # 16777216) - (1 # 16777216) * (1 # 16777216)) <= w')
    by (clear - HNe Hwlo Ht HN1; nra).
  assert (Hw2 : w' <= N * (1 + (1 # 16777216) + (1 # 16777216) * (1 # 16777216)))
    by (clear - HNe Hwhi Ht HN1; nra).
  assert (Hw0 : 0 < w') by (clear - Hw1 HN1; lra).
  (* the side *)
  destruct (SFsub_error 24 128 ltac:(lia) ltac:(lia) a2 a1 q2 q1 H2 H1 H12)
    as (qd & Hdlo & Hdhi & Hd); [lra|].
  fold (fsub32 a2 a1) in Hd.
  change (pow2 (- (24))) with (1 # 16777216) in Hdlo, Hdhi.
  assert (Hd150 : pow2 (2 - 128 - 24) <= (1 # 16777216) * (1 # 16777216))
    by (change ((1 # 16777216) * (1 # 16777216)) with (pow2 (-48)); apply pow2_le; lia).
  pose proof (has_value_nonneg _ _ Hd) as Hqd.
  assert (HqdN : qd <= N * (1 + (1 # 16777216)) + (1 # 16777216) * (1 # 16777216))
    by (clear - Hdhi Hd150 H12 H2n Hq1; lra).
  (* the two quotients *)
  set (v1 := q1 * / w'). set (v2 := qd * / w').
  assert (Ev1 : v1 * w' == q1) by (unfold v1; field; lra).
  assert (Ev2 : v2 * w' == qd) by (unfold v2; field; lra).
  assert (Hv1 : 0 <= v1) by (unfold v1; apply Qmult_le_0_compat; [lra | apply Qinv_le_0_compat; lra]).
  assert (Hv2 : 0 <= v2) by (unfold v2; apply Qmult_le_0_compat; [lra | apply Qinv_le_0_compat; lra]).
  set (u1 := v1 * N). set (u2 := v2 * N).
  assert (Hu1 : 0 <= u1) by (unfold u1; clear - Hv1 HN1; nra).
  assert (Hu2 : 0 <= u2) by (unfold u2; clear - Hv2 HN1; nra).
  assert (U1lo : u1 * (1 - (1 # 16777216) - (1 # 16777216) * (1 # 16777216)) <= q1).
  { unfold u1. clear - Ev1 Hw1 Hv1.
    assert (v1 * (N * (1 - (1 # 16777216) - (1 # 16777216) * (1 # 16777216))) <= v1 * w') by nra.
    nra. }
  assert (U1hi : q1 <= u1 * (1 + (1 # 16777216) + (1 # 16777216) * (1 # 16777216))).
  { unfold u1. clear - Ev1 Hw2 Hv1.
    assert (v1 * w' <= v1 * (N * (1 + (1 # 16777216) + (1 # 16777216) * (1 # 16777216)))) by nra.
    nra. }
  assert (U2lo : u2 * (1 - (1 # 16777216) - (1 # 16777216) * (1 # 16777216)) <= qd).
  { unfold u2. clear - Ev2 Hw1 Hv2.
    assert (v2 * (N * (1 - (1 # 16777216) - (1 # 16777216) * (1 # 16777216))) <= v2 * w') by nra.
    nra. }
  assert (U2hi : qd <= u2 * (1 + (1 # 16777216) + (1 # 16777216) * (1 # 16777216))).
  { unfold u2. clear - Ev2 Hw2 Hv2.
    assert (v2 * w' <= v2 * (N * (1 + (1 # 16777216) + (1 # 16777216) * (1 # 16777216)))) by nra.
    nra. }
  assert (Hv1big : v1 < pow2 (femax F - 1)).
  { destruct (Qlt_le_dec v1 4) as [|Hge]; [lra|]. exfalso.
    assert (4 * w' <= v1 * w') by (clear - Hge Hw0; nra).
    clear - H Ev1 Hw1 HN1 H12 H2n. nra. }
  assert (Hv2big : v2 < pow2 (femax F - 1)).
  { destruct (Qlt_le_dec v2 4) as [|Hge]; [lra|]. exfalso.
    assert (4 * w' <= v2 * w') by (clear - Hge Hw0; nra).
    clear - H Ev2 Hw1 HN1 HqdN. nra. }
  destruct (SFdiv_error (fprec F) (femax F) ltac:(lia) ltac:(lia) a1 (float_of_int F n)
              q1 w' v1 H1 Hw Hw0 Ev1 Hv1big) as (x & Hxlo & Hxhi & Hx).
  destruct (SFdiv_error (fprec F) (femax F) ltac:(lia) ltac:(lia) (fsub32 a2 a1)
              (float_of_int F n) qd w' v2 Hd Hw Hw0 Ev2 Hv2big) as (wd & Hwdlo & Hwdhi & Hwd).
  fold e t in Hxlo, Hxhi, Hwdlo, Hwdhi.
  exists x, wd. split; [exact Hx|]. split; [exact Hwd|].
  assert (TN : t * N <= (1 # 16777216) * (1 # 16777216) * N) by (clear - Ht HN1; nra).
  assert (TN0 : 0 <= t * N) by (clear - Pt HN1; fold t in Pt; nra).
  assert (E1 : u1 * e <= u1 * (1 # 16777216)) by (clear - He Hu1; nra).
  assert (E1' : 0 <= u1 * e) by (clear - Pe Hu1; fold e in Pe; nra).
  assert (E2 : u2 * e <= u2 * (1 # 16777216)) by (clear - He Hu2; nra).
  assert (E2' : 0 <= u2 * e) by (clear - Pe Hu2; fold e in Pe; nra).
  assert (X1 : x * N <= u1 + u1 * e + t * N).
  { unfold u1. clear - Hxhi HN1.
    assert (x * N <= (v1 + (v1 * e + t)) * N) by nra. nra. }
  assert (X2 : u1 - u1 * e - t * N <= x * N).
  { unfold u1. clear - Hxlo HN1.
    assert ((v1 - (v1 * e + t)) * N <= x * N) by nra. nra. }
  assert (W1 : wd * N <= u2 + u2 * e + t * N).
  { unfold u2. clear - Hwdhi HN1.
    assert (wd * N <= (v2 + (v2 * e + t)) * N) by nra. nra. }
  assert (W2 : u2 - u2 * e - t * N <= wd * N).
  { unfold u2. clear - Hwdlo HN1.
    assert ((v2 - (v2 * e + t)) * N <= wd * N) by nra. nra. }
  assert (Hq1N : q1 <= N) by (clear - H12 H2n; lra).
  assert (Hdd : 0 <= q2 - q1 /\ q2 - q1 <= N) by (clear - H12 H2n Hq1; lra).
  clear - X1 X2 W1 W2 E1 E1' E2 E2' TN TN0 U1lo U1hi U2lo U2hi Hu1 Hu2 Hq1 Hq1N Hdd
            Hdlo Hdhi Hd150 HN1 Hqd.
  assert (P150 : 0 <= pow2 (2 - 128 - 24)) by (apply Qlt_le_weak, pow2_pos).
  repeat split; lra.
Qed.

End Accuracy.

Section BoxAccuracy.
Local Open Scope Q_scope.

Lemma approximates_of_scaled tol x v q N :
  0 < N ->
  has_value x v ->
  v * N <= q + tol * N ->
  q <= v * N + tol * N ->
  approximates tol x (q / N).
Proof.
  intros HN Hx Hhi Hlo.
  apply has_value_SF2Q in Hx as (v' & Ev & Hv).
  exists v'. split; [exact Ev|]. rewrite Hv.
  assert (Hr : q / N * N == q) by (field; lra).
  set (r := q / N) in *. clearbody r.
  split.
  - destruct (Qlt_le_dec v (r - tol)) as [Hlt|]; [exfalso|assumption].
    assert ((r - tol - v) * N > 0) by (apply Qmult_lt_0_compat; lra).
    nra.
  - destruct (Qlt_le_dec (r + tol) v) as [Hlt|]; [exfalso|assumption].
    assert ((v - r - tol) * N > 0) by (apply Qmult_lt_0_compat; lra).
    nra.
Qed.

Lemma approximates_weaken tol tol' x q :
  tol <= tol' -> approximates tol x q -> approximates tol' x q.
Proof.
  intros Ht (v & Ev & Hlo & Hhi). exists v. split; [exact Ev|]. split; lra.
Qed.

Lemma bbox_norm_accuracy F h w box :
  (24 <= fprec F)%Z -> (128 <= femax F)%Z ->
  valid_detection (h, w) box ->
  exists x1 y1 x2 y2,
    SF2Q box.1.1.1 = Some x1 /\ SF2Q box.1.1.2 = Some y1 /\
    SF2Q box.1.2 = Some x2 /\ SF2Q box.2 = Some y2 /\
    approximates (1 # 4194304) (bbox_x (bbox_norm F h w box)) (x1 / inject_Z w) /\
    approximates (1 # 4194304) (bbox_y (bbox_norm F h w box)) (y1 / inject_Z h) /\
    approximates (1 # 4194304) (bbox_width (bbox_norm F h w box)) ((x2 - x1) / inject_Z w) /\
    approximates (1 # 4194304) (bbox_height (bbox_norm F h w box)) ((y2 - y1) / inject_Z h).
Proof.
  intros HFp HFe (Hw & Hh & x1 & y1 & x2 & y2 & E1 & E2 & E3 & E4 &
                  Hx1 & Hx12 & Hx2 & Hy1 & Hy12 & Hy2).
  destruct box as [[[a1 b1] a2] b2]. cbn [fst snd] in *.
  pose proof (SF2Q_has_value _ _ E1 Hx1) as V1.
  pose proof (SF2Q_has_value _ _ E2 Hy1) as V2.
  pose proof (SF2Q_has_value _ _ E3 ltac:(lra)) as V3.
  pose proof (SF2Q_has_value _ _ E4 ltac:(lra)) as V4.
  destruct (axis_accuracy F HFp HFe a1 a2 x1 x2 w Hw V1 V3 Hx12 Hx2)
    as (x & wd & Vx & Vwd & Hx_hi & Hx_lo & Hwd_hi & Hwd_lo).
  destruct (axis_accuracy F HFp HFe b1 b2 y1 y2 h Hh V2 V4 Hy12 Hy2)
    as (y & ht & Vy & Vht & Hy_hi & Hy_lo & Hht_hi & Hht_lo).
  assert (HW : 0 < inject_Z w) by (change 0 with (inject_Z 0); rewrite <- Zlt_Qlt; lia).
  assert (HH : 0 < inject_Z h) by (change 0 with (inject_Z 0); rewrite <- Zlt_Qlt; lia).
  assert (Htol : 4 * c24 <= 1 # 4194304) by (vm_compute; discriminate).
  exists x1, y1, x2, y2. cbn [bbox_norm bbox_x bbox_y bbox_width bbox_height].
  do 4 (split; [assumption|]).
  split; [|split; [|split]];
    (eapply approximates_weaken; [exact Htol|]);
    eapply approximates_of_scaled; eassumption.
Qed.

Context {B : Backend}.

(** X20. For a valid detection (as in C3) each field of the normalized
    box is the exact ratio up to rounding: [x] and [width] differ from
    x1 / w and (x2 - x1) / w, and [y] and [height] from y1 / h and
    (y2 - y1) / h, by at most 2^-22. *)
Theorem bbox_fields_accurate fs path t ds (k : nat) d res box :
  run_yolo_on_image fs path t = Ok ds ->
  ds !! k = Some d ->
  detect fs path = Ok res ->
  boxes res !! k = Some box ->
  scalar_div_fmt = binary32 \/ scalar_div_fmt = binary64 ->
  valid_detection (orig_shape res) (xyxy box) ->
  exists x1 y1 x2 y2,
    SF2Q (xyxy box).1.1.1 = Some x1 /\ SF2Q (xyxy box).1.1.2 = Some y1 /\
    SF2Q (xyxy box).1.2 = Some x2 /\ SF2Q (xyxy box).2 = Some y2 /\
    approximates (1 # 4194304) (bbox_x (bbox d)) (x1 / inject_Z (snd (orig_shape res))) /\
    approximates (1 # 4194304) (bbox_y (bbox d)) (y1 / inject_Z (fst (orig_shape res))) /\
    approximates (1 # 4194304) (bbox_width (bbox d))
      ((x2 - x1) / inject_Z (snd (orig_shape res))) /\
    approximates (1 # 4194304) (bbox_height (bbox d))
      ((y2 - y1) / inject_Z (fst (orig_shape res))).
Proof.
  intros H Hk Hres Hbox HF Hvalid.
  destruct (run_yolo_on_image_record _ _ _ _ _ _ H Hk)
    as (res' & box' & label & Hres' & Hbox' & ->).
  rewrite Hres in Hres'. injection Hres' as <-.
  rewrite Hbox in Hbox'. injection Hbox' as <-.
  cbn [bbox record_of].
  apply bbox_norm_accuracy.
  - destruct HF as [-> | ->]; cbn; lia.
  - destruct HF as [-> | ->]; cbn; lia.
  - destruct (orig_shape res). exact Hvalid.
Qed.

End BoxAccuracy.

Lemma bbox_fields_accurate_witness :
  exists d,
    run_yolo_on_image (B := edge_backend binary64) demo_files "/in/a.jpg" before = Ok [d] /\
    approximates (1 # 4194304) (bbox_width (bbox d))
      ((inject_Z 640 - inject_Z 13421773 * (2 ^ (-27))) / inject_Z 640)%Q.
Proof.
  eexists.
  assert (E : run_yolo_on_image (B := edge_backend binary64) demo_files "/in/a.jpg" before
              = Ok [_]) by (vm_compute; reflexivity).
  split; [exact E|].
  destruct (bbox_fields_accurate (B := edge_backend binary64)
              demo_files "/in/a.jpg" before _ 0%nat _
              {| orig_shape := (480%Z, 640%Z);
                 boxes := [{| xyxy := edge_box; cls := 0 |}];
                 names := demo_names |}
              {| xyxy := edge_box; cls := 0 |} E eq_refl eq_refl eq_refl
              (or_intror eq_refl) edge_box_valid)
    as (x1 & y1 & x2 & y2 & E1 & _ & E3 & _ & _ & _ & (v & Ev & Hlo & Hhi) & _).
  cbn in E1, E3. injection E1 as <-. injection E3 as <-.
  exists v. split; [exact Ev|]. cbn [snd orig_shape] in Hlo, Hhi.
  split; [eapply Qle_trans; [|exact Hlo] | eapply Qle_trans; [exact Hhi|]];
    vm_compute; discriminate.
Defined.
